(** * RFX response generator: markdown normalisation, table extraction,
      document composition and section orchestration.

    Shallow embedding of [rfx_generator_streamlit_final.py].  Python strings
    are sequences of Unicode code points; they are modelled as lists of [N].
    The regular expressions of the program are kept as syntax trees and run
    by a small backtracking matcher that explores alternatives in the order
    of Python's [re] module. *)

From Stdlib Require Import List NArith Lia Bool Ascii String Permutation.
From stdpp Require Import gmap strings list.

(** ** Characters and strings *)

Abbreviation char := N (only parsing).
Abbreviation text := (list N) (only parsing).

(** A string literal of the source, as code points. *)
Definition py (s : string) : text :=
  map N_of_ascii (list_ascii_of_string s).

Definition NL : char := 10%N.          (* '\n' *)
Definition QUOTE : char := 34%N.       (* the double quote *)

Definition chr_eqb (a b : char) : bool := N.eqb a b.

(** [str.isspace] on one code point, which is also the class [\s] of [re]
    on [str] patterns. *)
Definition is_space (c : char) : bool :=
  ((9 <=? c) && (c <=? 13) || (28 <=? c) && (c <=? 32)
   || (c =? 133) || (c =? 160) || (c =? 5760)
   || (8192 <=? c) && (c <=? 8202)
   || (c =? 8232) || (c =? 8233) || (c =? 8239) || (c =? 8287)
   || (c =? 12288))%N.

Fixpoint lstrip (s : text) : text :=
  match s with
  | c :: tl => if is_space c then lstrip tl else s
  | [] => []
  end.

Definition rstrip (s : text) : text := rev (lstrip (rev s)).

(** [str.strip()] *)
Definition strip (s : text) : text := rstrip (lstrip s).

Fixpoint text_eqb (a b : text) : bool :=
  match a, b with
  | [], [] => true
  | x :: a', y :: b' => chr_eqb x y && text_eqb a' b'
  | _, _ => false
  end.

(** [s.startswith(p)] *)
Fixpoint startswith (p s : text) : bool :=
  match p, s with
  | [], _ => true
  | x :: p', y :: s' => chr_eqb x y && startswith p' s'
  | _ :: _, [] => false
  end.

(** [sub in s] *)
Fixpoint contains (sub s : text) : bool :=
  startswith sub s ||
  match s with
  | [] => false
  | _ :: tl => contains sub tl
  end.

(** The scanning string methods below look for a non-empty needle from left
    to right and jump over each occurrence found; [skip] counts the
    characters of the current occurrence still to be jumped over. *)

Fixpoint count_go (sub s : text) (skip : nat) : nat :=
  match s with
  | [] => 0
  | _ :: tl =>
      match skip with
      | S k => count_go sub tl k
      | O => if startswith sub s
             then S (count_go sub tl (length sub - 1))
             else count_go sub tl 0
      end
  end.

(** [s.count(sub)] *)
Definition count (sub s : text) : nat := count_go sub s 0.

Fixpoint replace_go (old new s : text) (skip : nat) : text :=
  match s with
  | [] => []
  | c :: tl =>
      match skip with
      | S k => replace_go old new tl k
      | O => if startswith old s
             then new ++ replace_go old new tl (length old - 1)
             else c :: replace_go old new tl 0
      end
  end.

(** [s.replace(old, new)] *)
Definition replace (old new s : text) : text := replace_go old new s 0.

Fixpoint split_go (sep s cur : text) (skip : nat) : list text :=
  match s with
  | [] => [rev cur]
  | c :: tl =>
      match skip with
      | S k => split_go sep tl cur k
      | O => if startswith sep s
             then rev cur :: split_go sep tl [] (length sep - 1)
             else split_go sep tl (c :: cur) 0
      end
  end.

(** [s.split(sep)] *)
Definition split (sep s : text) : list text := split_go sep s [] 0.

(** ** Regular expressions *)

Module Re.

(** The fragment of [re] syntax that the program uses. *)
Inductive regex :=
| Chr (p : char -> bool)                 (* a literal or a class *)
| Bol                                    (* [^] under re.MULTILINE *)
| Bos                                    (* [^] without the flag *)
| Seq (r1 r2 : regex)
| Group (r : regex)                      (* capturing group 1 *)
| Rep (greedy : bool) (lo : nat) (hi : option nat) (r : regex).

(** Matcher state: the character in front of the cursor, the text matched
    since the start of the attempt (reversed), the text of group 1, and the
    input still to be read. *)
Record mstate := MState {
  before : option N;
  consumed : list N;
  group1 : list N;
  rest : list N
}.

Definition init (b : option N) (s : list N) : mstate :=
  MState b [] [] s.

Definition at_line_start (st : mstate) : bool :=
  match before st with
  | None => true
  | Some c => chr_eqb c NL
  end.

Definition at_string_start (st : mstate) : bool :=
  match before st with
  | None => true
  | Some _ => false
  end.

Definition step_chr (p : N -> bool) (st : mstate) : list mstate :=
  match rest st with
  | c :: tl => if p c then [MState (Some c) (c :: consumed st) (group1 st) tl]
               else []
  | [] => []
  end.

Definition close_group (st st' : mstate) : mstate :=
  MState (before st') (consumed st')
         (rev (take (length (consumed st') - length (consumed st)) (consumed st')))
         (rest st').

Definition progress (st st' : mstate) : bool :=
  length (rest st') <? length (rest st).

Definition dec_hi (hi : option nat) : option nat := pred <$> hi.

Definition hi_is_zero (hi : option nat) : bool :=
  match hi with
  | Some O => true
  | _ => false
  end.

(** Bounded repetition of [body].  The result lists every way to continue,
    most preferred first: a greedy repetition tries one more iteration
    before stopping, a lazy one stops before trying one more.  [fuel]
    bounds the number of iterations. *)
Fixpoint rep (fuel : nat) (greedy : bool) (lo : nat) (hi : option nat)
    (body : mstate -> list mstate) (st : mstate) : list mstate :=
  match fuel with
  | O => []
  | S f =>
      match lo with
      | S lo' =>
          concat (map (rep f greedy lo' (dec_hi hi) body) (body st))
      | O =>
          if hi_is_zero hi then [st]
          else
            let more :=
              concat (map (rep f greedy 0 (dec_hi hi) body)
                          (List.filter (progress st) (body st))) in
            if greedy then more ++ [st] else st :: more
      end
  end.

(** All the ways [r] matches at the cursor, in backtracking order. *)
Fixpoint rmatch (r : regex) (st : mstate) : list mstate :=
  match r with
  | Chr p => step_chr p st
  | Bol => if at_line_start st then [st] else []
  | Bos => if at_string_start st then [st] else []
  | Seq r1 r2 => concat (map (rmatch r2) (rmatch r1 st))
  | Group r1 => map (close_group st) (rmatch r1 st)
  | Rep greedy lo hi r1 =>
      rep (S (lo + length (rest st))) greedy lo hi (rmatch r1) st
  end.

(** [re.match]: the preferred match at the start of [s]. *)
Definition re_match (r : regex) (s : list N) : option mstate :=
  head (rmatch r (init None s)).

(** [re.search] from the cursor: the leftmost position with a match, the
    text skipped before it, and the preferred match there. *)
Fixpoint search (r : regex) (b : option N) (s : list N)
  : option (list N * mstate) :=
  match rmatch r (init b s) with
  | st :: _ => Some ([], st)
  | [] =>
      match s with
      | [] => None
      | c :: tl =>
          match search r (Some c) tl with
          | Some (pre, st) => Some (c :: pre, st)
          | None => None
          end
      end
  end.

Definition count_left (cnt : option nat) : bool :=
  match cnt with
  | Some O => false
  | _ => true
  end.

(** The loop of [re.sub]: replace non-overlapping matches from left to
    right, at most [cnt] of them when [cnt] is given.  The patterns of the
    program never match the empty string; an empty match ends the loop. *)
Fixpoint sub_go (fuel : nat) (r : regex) (repl : mstate -> list N)
    (cnt : option nat) (b : option N) (s : list N) : list N :=
  match fuel with
  | O => s
  | S f =>
      if count_left cnt then
        match search r b s with
        | Some (pre, st) =>
            match consumed st with
            | [] => s
            | _ :: _ =>
                pre ++ repl st ++ sub_go f r repl (dec_hi cnt) (before st) (rest st)
            end
        | None => s
        end
      else s
  end.

(** [re.sub(r, repl, s)] and [re.sub(r, repl, s, count=n)] *)
Definition re_sub (r : regex) (repl : mstate -> list N) (s : list N) : list N :=
  sub_go (S (length s)) r repl None None s.

Definition re_sub_count (r : regex) (repl : mstate -> list N) (n : nat)
    (s : list N) : list N :=
  sub_go (S (length s)) r repl (Some n) None s.

(** Replacement templates: [r'\1'] and a literal. *)
Definition backref1 (st : mstate) : list N := group1 st.
Definition literal (t : list N) (st : mstate) : list N := t.

(** Pattern building blocks. *)
Definition lit (c : N) : regex := Chr (chr_eqb c).
Definition dot : regex := Chr (fun c => negb (chr_eqb c NL)).        (* [.] *)
Definition not_nl : regex := Chr (fun c => negb (chr_eqb c NL)).     (* [[^\n]] *)
Definition plus (r : regex) : regex := Rep true 1 None r.            (* [r+] *)
Definition plus_lazy (r : regex) : regex := Rep false 1 None r.      (* [r+?] *)

Fixpoint seqs (rs : list regex) (last : regex) : regex :=
  match rs with
  | [] => last
  | r :: rs' => Seq r (seqs rs' last)
  end.

End Re.

Import Re.

Definition STAR : char := 42%N.        (* '*' *)
Definition USCORE : char := 95%N.      (* '_' *)
Definition HASH : char := 35%N.        (* '#' *)
Definition PIPE : char := 124%N.       (* '|' *)
Definition DASH : char := 45%N.        (* '-' *)
Definition COLON : char := 58%N.       (* ':' *)
Definition SPACE : char := 32%N.       (* ' ' *)

(** ** clean_markdown_text *)

(** [\*\*\*(.+?)\*\*\*] *)
Definition re_bold_italic : regex :=
  seqs [lit STAR; lit STAR; lit STAR; Group (plus_lazy dot); lit STAR; lit STAR]
       (lit STAR).
(** [\*\*(.+?)\*\*] *)
Definition re_bold : regex :=
  seqs [lit STAR; lit STAR; Group (plus_lazy dot); lit STAR] (lit STAR).
(** [\*(.+?)\*] *)
Definition re_italic : regex :=
  seqs [lit STAR; Group (plus_lazy dot)] (lit STAR).
(** [__(.+?)__] *)
Definition re_bold_us : regex :=
  seqs [lit USCORE; lit USCORE; Group (plus_lazy dot); lit USCORE] (lit USCORE).
(** [_(.+?)_] *)
Definition re_italic_us : regex :=
  seqs [lit USCORE; Group (plus_lazy dot)] (lit USCORE).
(** [^#{1,6}\s+] with re.MULTILINE *)
Definition re_header : regex :=
  seqs [Bol; Rep true 1 (Some 6) (lit HASH)] (plus (Chr is_space)).
(** [\*+] *)
Definition re_stars : regex := plus (lit STAR).

Definition clean_markdown_text (text0 : text) : text :=
  let t := re_sub re_bold_italic backref1 text0 in
  let t := re_sub re_bold backref1 t in
  let t := re_sub re_italic backref1 t in
  let t := re_sub re_bold_us backref1 t in
  let t := re_sub re_italic_us backref1 t in
  let t := re_sub re_header (literal []) t in
  let t := re_sub re_stars (literal []) t in
  strip t.

(** ** parse_markdown_table *)

Definition nonempty {A} (l : list A) : bool :=
  match l with
  | [] => false
  | _ :: _ => true
  end.

(** [^\|[\s\-:]+\|], used with [re.match] *)
Definition re_separator : regex :=
  seqs [Bos; lit PIPE;
        plus (Chr (fun c => is_space c || chr_eqb c DASH || chr_eqb c COLON))]
       (lit PIPE).

Definition is_separator (row : text) : bool :=
  match re_match re_separator row with
  | Some _ => true
  | None => false
  end.

(** [[cell.strip() for cell in row.split('|') if cell.strip()]] *)
Definition row_cells (row : text) : list text :=
  map strip (List.filter (fun cell => nonempty (strip cell)) (split [PIPE] row)).

(** One turn of the inner loop on [lines[i]]. *)
Definition add_row (line : text) (table_rows : list (list text))
  : list (list text) :=
  let row := strip line in
  if nonempty row && negb (is_separator row) then
    let cells := row_cells row in
    if nonempty cells then table_rows ++ [cells] else table_rows
  else table_rows.

Definition emit_table (table_rows : list (list text))
    (tables : list (list (list text))) : list (list (list text)) :=
  if nonempty table_rows then table_rows :: tables else tables.

(** The outer loop over [lines]; [collect] is the inner loop, which runs
    over the consecutive lines that contain a pipe and then hands the
    remaining lines back to the outer loop. *)
Fixpoint parse_lines (lines : list text) : list (list (list text)) :=
  match lines with
  | [] => []
  | l :: tl =>
      let line := strip l in
      if contains [PIPE] line && (2 <=? count [PIPE] line) then
        (fix collect (ls : list text) (table_rows : list (list text))
           {struct ls} : list (list (list text)) :=
           match ls with
           | [] => emit_table table_rows []
           | l' :: tl' =>
               if contains [PIPE] l'
               then collect tl' (add_row l' table_rows)
               else emit_table table_rows (parse_lines ls)
           end) tl (add_row l [])
      else parse_lines tl
  end.

Definition parse_markdown_table (text0 : text) : list (list (list text)) :=
  parse_lines (split [NL] text0).

(** ** The document object *)

(** What the program does to a python-docx [Document] is recorded as the
    sequence of body elements appended to it.  Run-level formatting (font
    name and size, colours, spacing) is summarised by a style tag. *)

Inductive cell_style := Untouched | HeaderCell | BodyCell | LabelCell | ValueCell.

Record cell := Cell { cell_text : list N; cell_fmt : cell_style }.

Inductive para_style :=
| Plain            (* [doc.add_paragraph(...)] left as created *)
| TitleStyle
| StyleHeading2    (* ['Heading 2'] *)
| StyleHeading3    (* ['Heading 3'] *)
| BodyLeft         (* left aligned, 1.15 line spacing, Calibri 11 *)
| FooterStyle.

Inductive element :=
| Paragraph (style : para_style) (t : list N)
| Heading (level : nat) (t : list N)
| Table (rows : list (list cell))
| PageBreak.

Abbreviation document := (list element) (only parsing).

(** Exceptions that the modelled code can raise: IndexError from indexing
    the cells of a table row, ValueError from storing text in the document,
    OSError from writing the file. *)
Inductive result (A : Type) :=
| Ok (a : A)
| IndexError
| ValueError
| OSError.
Arguments Ok {A} a.
Arguments IndexError {A}.
Arguments ValueError {A}.
Arguments OSError {A}.

#[global] Instance result_bind : MBind result := fun A B f m =>
  match m with
  | Ok a => f a
  | IndexError => IndexError
  | ValueError => ValueError
  | OSError => OSError
  end.

(** Text reaches the XML tree of the document through the text setter of a
    run: a tab becomes a tab element, a line feed or a carriage return a
    line break, and the characters between them are stored by lxml, which
    raises ValueError (All strings must be XML compatible) on a character
    that XML does not allow: a control character other than these three
    (among them the vertical tab, the form feed and the separators 28 to 31,
    which [str.strip] counts as white space), a surrogate, U+FFFE or
    U+FFFF. *)
Definition xml_char (c : char) : bool :=
  (c =? 9)%N || (c =? 10)%N || (c =? 13)%N
  || ((32 <=? c)%N && (c <=? 55295)%N)
  || ((57344 <=? c)%N && (c <=? 65533)%N)
  || ((65536 <=? c)%N && (c <=? 1114111)%N).

Definition xml_compatible (t : text) : bool := forallb xml_char t.

(** The text as the document holds it, when it can. *)
Definition store (t : text) : result text :=
  if xml_compatible t then Ok t else ValueError.

(** [doc.add_paragraph(t)], with the formatting that follows it. *)
Definition add_paragraph (doc : document) (style : para_style) (t : text)
  : result document :=
  t' ← store t;
  Ok (doc ++ [Paragraph style t']).

(** [doc.add_heading(t, level)] *)
Definition add_heading (doc : document) (t : text) (level : nat)
  : result document :=
  t' ← store t;
  Ok (doc ++ [Heading level t']).

(** ** add_table_to_doc *)

Definition new_table (rows cols : nat) : list (list cell) :=
  replicate rows (replicate cols (Cell [] Untouched)).

(** [row = table.rows[i]; cell = row.cells[j]; cell.text = ...] followed by
    the header or body formatting of the cell. *)
Definition write_cell (i j : nat) (cell_data : text) (tbl : list (list cell))
  : result (list (list cell)) :=
  match tbl !! i with
  | None => IndexError
  | Some row =>
      match row !! j with
      | None => IndexError
      | Some _ =>
          t ← store (clean_markdown_text cell_data);
          let c := Cell t (if Nat.eqb i 0 then HeaderCell else BodyCell) in
          Ok (<[i := <[j := c]> row]> tbl)
      end
  end.

Fixpoint write_row (i j : nat) (row_data : list text) (tbl : list (list cell))
  : result (list (list cell)) :=
  match row_data with
  | [] => Ok tbl
  | cell_data :: tl =>
      tbl' ← write_cell i j cell_data tbl;
      write_row i (S j) tl tbl'
  end.

Fixpoint write_rows (i : nat) (table_data : list (list text))
    (tbl : list (list cell)) : result (list (list cell)) :=
  match table_data with
  | [] => Ok tbl
  | row_data :: tl =>
      tbl' ← write_row i 0 row_data tbl;
      write_rows (S i) tl tbl'
  end.

Definition add_table_to_doc (doc : document) (table_data : list (list text))
  : result document :=
  match table_data with
  | [] => Ok doc
  | first :: _ =>
      tbl ← write_rows 0 table_data
                (new_table (length table_data) (length first));
      Ok (doc ++ [Table tbl])
  end.

(** ** add_formatted_content *)

Definition TABLE_PLACEHOLDER : text := py "[TABLE_PLACEHOLDER]".

(** [\|[^\n]+\|(\n\|[^\n]+\|)+] *)
Definition re_table : regex :=
  seqs [lit PIPE; plus not_nl; lit PIPE]
       (plus (Group (seqs [lit NL; lit PIPE; plus not_nl] (lit PIPE)))).

(** [for table in tables: text = re.sub(pattern, placeholder, text, count=1)] *)
Definition remove_tables (tables : list (list (list text))) (content : text)
  : text :=
  fold_left
    (fun t _ => re_sub_count re_table (literal TABLE_PLACEHOLDER) 1 t)
    tables content.

Fixpoint add_paragraphs (tables : list (list (list text)))
    (paragraphs : list text) (table_index : nat) (doc : document)
  : result document :=
  match paragraphs with
  | [] => Ok doc
  | para_text :: more =>
      if negb (nonempty (strip para_text)) then
        add_paragraphs tables more table_index doc
      else if contains TABLE_PLACEHOLDER para_text then
        match tables !! table_index with
        | Some table =>
            doc' ← add_table_to_doc doc table;
            add_paragraphs tables more (S table_index)
                           (doc' ++ [Paragraph Plain []])
        | None => add_paragraphs tables more table_index doc
        end
      else
        let para_text := clean_markdown_text para_text in
        if startswith (py "###") para_text then
          let para_text := strip (replace (py "###") [] para_text) in
          doc' ← add_paragraph doc StyleHeading3 para_text;
          add_paragraphs tables more table_index doc'
        else if startswith (py "##") para_text then
          let para_text := strip (replace (py "##") [] para_text) in
          doc' ← add_paragraph doc StyleHeading2 para_text;
          add_paragraphs tables more table_index doc'
        else
          doc' ← add_paragraph doc BodyLeft para_text;
          add_paragraphs tables more table_index doc'
  end.

Definition add_formatted_content (doc : document) (content : text)
  : result document :=
  let tables := parse_markdown_table content in
  let text_without_tables := remove_tables tables content in
  let paragraphs := split [NL; NL] text_without_tables in
  add_paragraphs tables paragraphs 0 doc.

(** ** Sections configuration *)

Record section := Section { key : string; label : string; icon : list N }.

Definition SECTIONS : list section := [
  Section "executive_summary" "Executive summary" [128203%N];
  Section "implementation_architecture" "Implementation architecture"
          [127959%N; 65039%N];
  Section "team_members" "Team composition" [128101%N];
  Section "cost_estimate" "Cost estimate" [128176%N];
  Section "execution_plan" "Execution plan" [128197%N];
  Section "timeline" "Timeline and Milestones" [9201%N; 65039%N];
  Section "risks" "Risk assessment" [9888%N; 65039%N];
  Section "assumptions" "Assumptions and Dependencies" [128204%N];
  Section "deliverables" "Deliverables" [9989%N];
  Section "conclusion" "Conclusion" [127919%N]
].

(** ** get_section_prompt *)

Definition prompts : gmap string string := list_to_map [
  ("executive_summary"%string,
   "Provide a concise overview of the proposed solution, highlighting key benefits and approach. Keep it to 2-3 paragraphs."%string);
  ("implementation_architecture"%string,
   "Detail the technical architecture including: system components, technology stack, integration points, infrastructure requirements, scalability considerations, and security measures. Be specific about technologies and frameworks."%string);
  ("team_members"%string,
   "Propose a realistic team structure including: roles (e.g., Solution Architect, Senior Developer, QA Engineer), number of resources per role, allocation percentages, and key responsibilities. Include realistic experience levels."%string);
  ("cost_estimate"%string,
   "Provide a detailed cost breakdown including: labor costs by role, infrastructure costs, software licenses, third-party services, contingency (10-15%), and total project cost. Use realistic hourly rates and estimates."%string);
  ("execution_plan"%string,
   "Create a phased execution plan with: Phase descriptions, activities per phase, entry/exit criteria, and parallel work streams if applicable."%string);
  ("timeline"%string,
   "Create a realistic project timeline with: major milestones, durations for each phase, dependencies, and critical path items. Use weeks/months as appropriate."%string);
  ("risks"%string,
   "Identify 5-7 realistic project risks with: risk description, probability (Low/Medium/High), impact (Low/Medium/High), and mitigation strategy for each."%string);
  ("assumptions"%string,
   "List 5-8 key assumptions and dependencies including: client responsibilities, data availability, infrastructure access, resource availability, and third-party dependencies."%string);
  ("deliverables"%string,
   "List specific project deliverables organized by phase including: documentation, code deliverables, environments, training materials, and handover items."%string);
  ("conclusion"%string,
   "Write a strong closing statement that: reinforces value proposition, expresses commitment, includes call-to-action, and contact information."%string)
].

Definition get_section_prompt (section_key : string) : text :=
  py (default "Generate comprehensive content for this section."%string
              (prompts !! section_key)).

(** ** generate_section *)

(** [rfx_data.get(field, 'N/A')] *)
Definition field (rfx_data : gmap string (list N)) (name : string) : text :=
  default (py "N/A") (rfx_data !! name).

Definition join_lines (ls : list text) : text :=
  match ls with
  | [] => []
  | l :: tl => l ++ concat (map (fun x => NL :: x) tl)
  end.

Definition section_request (section_key section_label : string)
    (rfx_data : gmap string (list N)) : text :=
  join_lines [
    py "You are an expert IT consultant creating an RFX response for a client.";
    [];
    py "Client Details:";
    py "- Client Name: " ++ field rfx_data "client_name";
    py "- Project Title: " ++ field rfx_data "project_title";
    py "- Project Type: " ++ field rfx_data "project_type";
    py "- Budget Range: " ++ field rfx_data "budget";
    py "- Timeline: " ++ field rfx_data "timeline";
    [];
    py "Project Description:";
    field rfx_data "description";
    [];
    py "Requirements:";
    field rfx_data "requirements";
    [];
    py "Constraints:";
    field rfx_data "constraints";
    [];
    py "Generate a detailed, professional, and realistic " ++ [QUOTE]
      ++ py section_label ++ [QUOTE] ++ py " section for this RFX response.";
    [];
    get_section_prompt section_key;
    [];
    py "Make it specific to this project, realistic, and professional. Use concrete numbers, specific technologies, and realistic timelines. Format with clear headings and structure."
  ].

(** What a call can do: return a value or raise an [Exception] whose
    [str()] is [msg]. *)
Inductive outcome :=
| Returns (t : list N)
| Raises (msg : list N).

(** The text-generation client is the external collaborator: it receives
    the prompt and returns the generated text or raises. *)
Definition generate_section (client : list N -> outcome)
    (section_key section_label : string) (rfx_data : gmap string (list N))
  : text :=
  match client (section_request section_key section_label rfx_data) with
  | Returns t => t
  | Raises e => py "Error generating section: " ++ e
  end.

(** ** generate_all_sections *)

(** A submitted task: the section it was submitted for and what
    [future.result()] does. *)
Definition future : Type := section * outcome.

(** [executor.submit(generate_section, client, key, label, rfx_data)] for
    each section. *)
Definition submit_all (client : list N -> outcome)
    (rfx_data : gmap string (list N)) : list future :=
  map (fun s => (s, Returns (generate_section client (key s) (label s) rfx_data)))
      SECTIONS.

(** One turn of the loop over [as_completed(future_to_section)]. *)
Definition collect_future (sections_content : gmap string (list N))
    (f : future) : gmap string (list N) :=
  match snd f with
  | Returns content => <[key (fst f) := content]> sections_content
  | Raises e => <[key (fst f) := py "Error: " ++ e]> sections_content
  end.

Definition future_key (f : future) : string := key (fst f).

(** The value that one completed future leaves under its section key. *)
Definition entry (f : future) : text :=
  match snd f with
  | Returns content => content
  | Raises e => py "Error: " ++ e
  end.

Definition collect_all (completed : list future) : gmap string (list N) :=
  fold_left collect_future completed ∅.

(** [as_completed] yields every submitted future once, in the order in which
    the worker threads finish; any order can occur.  [completed] is that
    order.  The progress bar and the status line are display only and are
    left out. *)
Inductive generate_all_sections (client : list N -> outcome)
    (rfx_data : gmap string (list N)) : gmap string (list N) -> Prop :=
| settle (completed : list future) :
    Permutation completed (submit_all client rfx_data) ->
    generate_all_sections client rfx_data (collect_all completed).

(** ** create_docx_document *)

(** The name of the saved file; [stamp] is
    [datetime.now().strftime('%Y%m%d_%H%M%S')]. *)
Definition docx_filename (rfx_data : gmap string (list N)) (stamp : text)
  : text :=
  py "RFX_"
  ++ replace (py " ") (py "_") (default (py "Client") (rfx_data !! "client_name"%string))
  ++ py "_" ++ stamp ++ py ".docx".

Definition info_row (name value : text) : list cell :=
  [Cell name LabelCell; Cell value ValueCell].

(** The loop over [info_data]: [label_cell.text = label] and
    [value_cell.text = value] for each row of the information table. *)
Fixpoint write_info (info_data : list (text * text))
  : result (list (list cell)) :=
  match info_data with
  | [] => Ok []
  | (name, value) :: more =>
      name' ← store name;
      value' ← store value;
      rows ← write_info more;
      Ok (info_row name' value' :: rows)
  end.

Fixpoint add_sections (sections : list section)
    (sections_content : gmap string (list N)) (doc : document)
  : result document :=
  match sections with
  | [] => Ok doc
  | s :: more =>
      let content :=
        default (py "Content not generated") (sections_content !! key s) in
      doc ← add_heading doc (py (label s)) 1;
      doc ← add_formatted_content doc content;
      add_sections more sections_content (doc ++ [Paragraph Plain []])
  end.

Definition info_data (rfx_data : gmap string (list N)) (today : text)
  : list (text * text) :=
  [(py "Client:", field rfx_data "client_name");
   (py "Project:", field rfx_data "project_title");
   (py "Type:", field rfx_data "project_type");
   (py "Date:", today)].

(** The five runs of the footer paragraph, one after the other. *)
Definition FOOTER_TEXT : text :=
  join_lines [
    py "For questions or clarifications regarding this proposal, please contact:";
    []; py "Itransition"; py "Email: sales@itransition.com";
    py "Phone: +1 (555) 123-4567"; py "Website: www.itransition.com"].

(** [today] is [datetime.now().strftime('%B %d, %Y')] and [stamp] the time
    stamp of the file name.  [save] is [doc.save] seen from the program:
    given the file name it either writes the file or raises, as the file
    system decides (a name with a slash names a directory that has to
    exist).  The result is the saved document and its file name. *)
Definition create_docx_document (save : text -> result unit)
    (rfx_data sections_content : gmap string (list N))
    (today stamp : text) : result (document * list N) :=
  title ← store (py "RFX RESPONSE DOCUMENT");
  let doc := [
    Paragraph TitleStyle title;
    Paragraph Plain []; Paragraph Plain []; Paragraph Plain [] ] in
  info_table ← write_info (info_data rfx_data today);
  let doc := doc ++ [Table info_table; PageBreak] in
  doc ← add_sections SECTIONS sections_content doc;
  doc ← add_heading (doc ++ [PageBreak]) (py "Contact Information") 1;
  footer ← store FOOTER_TEXT;
  let doc := doc ++ [Paragraph FooterStyle footer] in
  let filename := docx_filename rfx_data stamp in
  _ ← save filename;
  Ok (doc, filename).

(** ** check_libreoffice_installed and convert_docx_to_pdf *)





(** What [subprocess.run] can do: return a completed process with its
    exit code, or raise. *)
Inductive run_outcome :=
| Completed (returncode : Z)
| FileNotFoundError
| TimeoutExpired
| OtherException.

(** The operating system is the external collaborator: [run] starts a
    command line, [path_exists] is [os.path.exists]. *)
Definition check_libreoffice_installed (run : list (list N) -> run_outcome)
  : bool :=
  match run [py "soffice"; py "--version"] with
  | Completed returncode => Z.eqb returncode 0
  | FileNotFoundError | TimeoutExpired => false
  | OtherException => false
  end.


(** ** The rules of the specification, for comparison *)

(** Row splitting as the specification words it: split on pipes, drop the
    empty string in front of the first pipe and the one behind the last
    pipe, trim every remaining cell. *)
Definition drop_boundary (pieces : list text) : list text :=
  let t := match pieces with
           | [] :: tl => tl
           | _ => pieces
           end in
  match rev t with
  | [] :: tl => rev tl
  | _ => t
  end.

Definition spec_row_cells (row : text) : list text :=
  map strip (drop_boundary (split [PIPE] row)).

(** ** Auxiliary definitions for the statements *)

(** The table that add_table_to_doc leaves in the document when every write
    is in range: row [i] holds the cleaned cells of [table_data[i]] from
    column 0 on, and the cells to the right of them stay as created. *)
Definition written_cell (i : nat) (cell_data : text) : cell :=
  Cell (clean_markdown_text cell_data)
       (if Nat.eqb i 0 then HeaderCell else BodyCell).

Definition written_row (i cols : nat) (row_data : list text) : list cell :=
  map (written_cell i) row_data
  ++ replicate (cols - length row_data) (Cell [] Untouched).

Fixpoint written_rows (i cols : nat) (table_data : list (list text))
  : list (list cell) :=
  match table_data with
  | [] => []
  | row_data :: tl => written_row i cols row_data :: written_rows (S i) cols tl
  end.

(** [str.replace(' ', '_')] seen character by character. *)
Definition space_to_underscore (c : char) : char :=
  if chr_eqb SPACE c then USCORE else c.

(** Sample inputs. *)

Definition lines_of (ls : list string) : text := join_lines (map py ls).

Definition content_intro_table_outro : text :=
  lines_of ["Intro"; EmptyString; "| A | B |"; "|---|---|"; "| 1 | 2 |";
            EmptyString; "Outro"]%string.

Definition content_two_tables : text :=
  lines_of ["| x | y |"; EmptyString; "foo"; EmptyString;
            "| A | B |"; "|---|---|"; "| 1 | 2 |"]%string.

Definition content_prefix_separator : text :=
  lines_of ["| A | B |"; "|---| data |"]%string.

Definition content_ragged : text :=
  lines_of ["| A |"; "| 1 | 2 |"]%string.

(** [consumes st st']: the matcher went from [st] to [st'] by reading a
    prefix [d] of the input of [st]. *)
Definition consumes (st st' : mstate) : Prop :=
  exists d, rest st = d ++ rest st' /\ consumed st' = rev d ++ consumed st.

(** Patterns that cannot match the empty string. *)
Inductive advances : regex -> Prop :=
| advances_chr p : advances (Chr p)
| advances_seq_l r1 r2 : advances r1 -> advances (Seq r1 r2)
| advances_seq_r r1 r2 : advances r2 -> advances (Seq r1 r2)
| advances_group r : advances r -> advances (Group r)
| advances_rep greedy lo hi r : advances r -> advances (Rep greedy (S lo) hi r).

(** Whether the next input character is [c]. *)
Definition head_is (c : N) (st : mstate) : bool :=
  match rest st with
  | x :: _ => chr_eqb c x
  | [] => false
  end.

(** [needs c r]: every match of [r] starts by reading the character [c]. *)
Definition needs (c : N) (r : regex) : Prop :=
  forall st, head_is c st = false -> rmatch r st = [].

(** The input behind a leading run of asterisks. *)
Fixpoint drop_stars (s : text) : text :=
  match s with
  | c :: tl => if chr_eqb STAR c then drop_stars tl else s
  | [] => []
  end.

Definition not_star (c : char) : bool := negb (chr_eqb STAR c).

(** A client that fails with a quota error on the request of the risk
    section and answers every other request. *)
Definition flaky_client (prompt : text) : outcome :=
  if text_eqb prompt (section_request "risks" "Risk assessment" ∅)
  then Raises (py "quota exceeded")
  else Returns (py "## Draft").

(** The text of group 1 is part of the text matched so far. *)
Definition group_ok (st : mstate) : Prop :=
  group1 st `sublist_of` rev (consumed st).

(** The states that a greedy repetition of a character class leaves, most
    preferred first: after the longest run of class characters, then after
    each shorter run, last without reading anything. *)
Fixpoint greedy_states (p : N -> bool) (b : option N) (cons g s : list N)
  : list mstate :=
  match s with
  | c :: tl =>
      if p c
      then greedy_states p (Some c) (c :: cons) g tl ++ [MState b cons g s]
      else [MState b cons g s]
  | [] => [MState b cons g s]
  end.

(** The inner loop of parse_markdown_table on its own: the rows collected
    from the leading lines that contain a pipe, and the lines left over. *)
Fixpoint collect_rows (ls : list text) (table_rows : list (list text))
  : list (list text) * list text :=
  match ls with
  | [] => (table_rows, [])
  | l :: tl =>
      if contains [PIPE] l
      then collect_rows tl (add_row l table_rows)
      else (table_rows, ls)
  end.

(** What holds of every cell that the extractor returns. *)
Definition cell_ok (c : text) : Prop :=
  c <> [] /\ strip c = c /\ ~ In PIPE c /\ ~ In NL c.

Definition row_ok (row : list text) : Prop :=
  row <> [] /\ Forall cell_ok row.

Definition table_ok (table : list (list text)) : Prop :=
  table <> [] /\ Forall row_ok table.

(** The character class [[\s\-:]] of the separator pattern. *)
Definition separator_char (c : char) : bool :=
  is_space c || chr_eqb c DASH || chr_eqb c COLON.

(** Mapping over the value of a call that returned. *)
#[global] Instance result_fmap : FMap result := fun A B f m =>
  match m with
  | Ok a => Ok (f a)
  | IndexError => IndexError
  | ValueError => ValueError
  | OSError => OSError
  end.

(** The paragraphs that add_formatted_content makes from text candidates. *)
Definition is_text_block (e : element) : bool :=
  match e with
  | Paragraph BodyLeft _ | Paragraph StyleHeading2 _
  | Paragraph StyleHeading3 _ => true
  | _ => false
  end.

(** The style and the text of the paragraph that add_formatted_content
    makes from a candidate that is neither blank nor a placeholder. *)
Definition text_block (para_text : text) : para_style * text :=
  let para_text := clean_markdown_text para_text in
  if startswith (py "###") para_text then
    (StyleHeading3, strip (replace (py "###") [] para_text))
  else if startswith (py "##") para_text then
    (StyleHeading2, strip (replace (py "##") [] para_text))
  else (BodyLeft, para_text).

(** The tables of a document, in document order. *)
Fixpoint doc_tables (doc : list element) : list (list (list cell)) :=
  match doc with
  | [] => []
  | Table rows :: more => rows :: doc_tables more
  | _ :: more => doc_tables more
  end.

(** The document table that a data table becomes when all its rows fit. *)
Definition rendered (table : list (list text)) : list (list cell) :=
  written_rows 0 (length (hd [] table)) table.

(** No row of the table has more cells than its first row. *)
Definition rows_fit (table : list (list text)) : bool :=
  forallb (fun row => length row <=? length (hd [] table)) table.

(** An element whose text holds no asterisk. *)
Definition star_free (e : element) : Prop :=
  match e with
  | Paragraph _ t | Heading _ t => ~ In STAR t
  | Table rows =>
      Forall (Forall (fun c => ~ In STAR (cell_text c))) rows
  | PageBreak => True
  end.

(** The part of a request that depends on the section only: everything
    from the line that names the section. *)
Definition request_tail (section_key section_label : string) : text :=
  concat (map (fun x => NL :: x) [
    py "Generate a detailed, professional, and realistic " ++ [QUOTE]
      ++ py section_label ++ [QUOTE] ++ py " section for this RFX response.";
    [];
    get_section_prompt section_key;
    [];
    py "Make it specific to this project, realistic, and professional. Use concrete numbers, specific technologies, and realistic timelines. Format with clear headings and structure."
  ]).

(** The names of the intake fields that a request quotes. *)
Definition INTAKE_FIELDS : list string :=
  ["client_name"; "project_title"; "project_type"; "budget"; "timeline";
   "description"; "requirements"; "constraints"]%string.

(** The headings of a document with their levels, in document order: those
    made by [doc.add_heading] and the paragraphs given a heading style. *)
Definition heading_of (e : element) : option (nat * text) :=
  match e with
  | Heading level t => Some (level, t)
  | Paragraph StyleHeading2 t => Some (2, t)
  | Paragraph StyleHeading3 t => Some (3, t)
  | _ => None
  end.

Definition doc_headings (doc : list element) : list (nat * text) :=
  omap heading_of doc.

(** The texts of the headings of one level. *)
Definition headings_at (level : nat) (doc : list element) : list text :=
  map snd (List.filter (fun h => Nat.eqb (fst h) level) (doc_headings doc)).

(** Whether add_table_to_doc gets through a row of [cols] cells, and the
    exception of the first write that fails otherwise. *)
Fixpoint check_row (cols : nat) (row_data : list text) {struct row_data}
  : result unit :=
  match row_data with
  | [] => Ok tt
  | cell_data :: tl =>
      match cols with
      | 0 => IndexError
      | S cols' =>
          _ ← store (clean_markdown_text cell_data);
          check_row cols' tl
      end
  end.

Fixpoint check_rows (cols : nat) (table_data : list (list text))
  : result unit :=
  match table_data with
  | [] => Ok tt
  | row_data :: tl => _ ← check_row cols row_data; check_rows cols tl
  end.

(** Every cell of the table can be stored once it is normalised. *)
Definition cells_storable (table_data : list (list text)) : bool :=
  forallb (forallb (fun c => xml_compatible (clean_markdown_text c)))
          table_data.

(** What create_docx_document appends for a section whose content composes
    to [body]: the heading of the section, the body, a spacing paragraph. *)
Definition section_block (s : section) (body : list element) : list element :=
  Heading 1 (py (label s)) :: body ++ [Paragraph Plain []].

(** The contact footer. *)
Definition FOOTER : list element :=
  [PageBreak; Heading 1 (py "Contact Information");
   Paragraph FooterStyle FOOTER_TEXT].

(** The title page, up to its page break. *)
Definition title_page (rfx_data : gmap string (list N)) (today : text)
  : list element :=
  [Paragraph TitleStyle (py "RFX RESPONSE DOCUMENT");
   Paragraph Plain []; Paragraph Plain []; Paragraph Plain [];
   Table [info_row (py "Client:") (field rfx_data "client_name");
          info_row (py "Project:") (field rfx_data "project_title");
          info_row (py "Type:") (field rfx_data "project_type");
          info_row (py "Date:") today];
   PageBreak].

(** The values of the information table can be stored. *)
Definition intake_storable (rfx_data : gmap string (list N)) (today : text)
  : bool :=
  xml_compatible (field rfx_data "client_name")
  && xml_compatible (field rfx_data "project_title")
  && xml_compatible (field rfx_data "project_type")
  && xml_compatible today.

(** A file system on which every save succeeds. *)
Definition save_ok (filename : text) : result unit := Ok tt.

(** A file system without subdirectories: a name with a slash is refused. *)
Definition save_flat (filename : text) : result unit :=
  if existsb (chr_eqb 47%N) filename then OSError else Ok tt.

(** The content that create_docx_document renders for a section. *)
Definition section_content (sections_content : gmap string (list N))
    (s : section) : text :=
  default (py "Content not generated") (sections_content !! key s).

(** Composing the content of section [s] on its own returns [body]. *)
Definition composes (sections_content : gmap string (list N))
    (s : section) (body : list element) : Prop :=
  add_formatted_content [] (section_content sections_content s) = Ok body.

Definition LBRACKET : char := 91%N.    (* the first character of the placeholder *)

(** The states that a lazy repetition of a character class leaves, most
    preferred first: without reading anything, then after each longer
    run of class characters. *)
Fixpoint lazy_states (p : N -> bool) (b : option N) (cons g s : list N)
  : list mstate :=
  MState b cons g s ::
  match s with
  | c :: tl => if p c then lazy_states p (Some c) (c :: cons) g tl else []
  | [] => []
  end.

(** The character in front of the cursor after reading [d]. *)
Definition last_before (b : option N) (d : list N) : option N :=
  fold_left (fun _ c => Some c) d b.

(** The state after reading [d] and leaving [r]. *)
Definition after (d : list N) (st : mstate) (r : list N) : mstate :=
  MState (last_before (before st) d) (rev d ++ consumed st) (group1 st) r.

(** The emphasis patterns have one shape: [k] marker characters, a lazy
    non-empty group, [k] marker characters. *)
Definition delimited (x : N) (k : nat) : regex :=
  seqs (replicate k (lit x) ++ [Group (plus_lazy dot)] ++ replicate (k - 1) (lit x))
       (lit x).

(** The emphasis markers of the normaliser: character and count. *)
Definition EMPHASIS : list (N * nat) :=
  [(STAR, 3); (STAR, 2); (STAR, 1); (USCORE, 2); (USCORE, 1)].

(** Text without the marker characters of the normaliser. *)
Definition plain_text (s : text) : Prop :=
  ~ In STAR s /\ ~ In USCORE s /\ ~ In HASH s.

(** * Properties *)

(** ** The matcher *)

Lemma consumes_refl (st : mstate) : consumes st st.
Proof. exists []. split; reflexivity. Qed.

Lemma consumes_trans (st1 st2 st3 : mstate) :
  consumes st1 st2 -> consumes st2 st3 -> consumes st1 st3.
Proof.
  intros (d1 & Hr1 & Hc1) (d2 & Hr2 & Hc2). exists (d1 ++ d2). split.
  - now rewrite Hr1, Hr2, app_assoc.
  - now rewrite Hc2, Hc1, rev_app_distr, app_assoc.
Qed.

Lemma consumes_length (st st' : mstate) :
  consumes st st' -> length (rest st') <= length (rest st).
Proof. intros (d & Hr & _). rewrite Hr, length_app. lia. Qed.

Lemma rep_consumes (body : mstate -> list mstate) (greedy : bool) :
  (forall st st', In st' (body st) -> consumes st st') ->
  forall (fuel lo : nat) (hi : option nat) (st st' : mstate),
    In st' (rep fuel greedy lo hi body st) -> consumes st st'.
Proof.
  intros Hbody fuel.
  induction fuel as [| f IH]; intros lo hi st st' Hin; [destruct Hin |].
  cbn [rep] in Hin. destruct lo as [| lo'].
  - destruct (hi_is_zero hi).
    + destruct Hin as [<- | []]. apply consumes_refl.
    + assert (Hmore : forall x,
                 In x (concat (map (rep f greedy 0 (dec_hi hi) body)
                                   (List.filter (progress st) (body st)))) ->
                 consumes st x).
      { intros x Hx. apply in_concat in Hx as (l & Hl & Hx).
        apply in_map_iff in Hl as (st1 & <- & Hst1).
        apply filter_In in Hst1 as [Hst1 _].
        eapply consumes_trans; [apply Hbody, Hst1 | eapply IH, Hx]. }
      destruct greedy.
      * apply in_app_or in Hin as [Hin | [<- | []]];
          [now apply Hmore | apply consumes_refl].
      * destruct Hin as [<- | Hin]; [apply consumes_refl | now apply Hmore].
  - apply in_concat in Hin as (l & Hl & Hx).
    apply in_map_iff in Hl as (st1 & <- & Hst1).
    eapply consumes_trans; [apply Hbody, Hst1 | eapply IH, Hx].
Qed.

(** Every match reads a prefix of the remaining input. *)
Lemma rmatch_consumes (r : regex) :
  forall st st', In st' (rmatch r st) -> consumes st st'.
Proof.
  induction r as [p | | | r1 IH1 r2 IH2 | r IH | greedy lo hi r IH];
    intros st st' Hin; cbn [rmatch] in Hin.
  - unfold step_chr in Hin. destruct (rest st) as [| c tl] eqn:E; [destruct Hin |].
    destruct (p c); [| destruct Hin]. destruct Hin as [<- | []].
    exists [c]. cbn. now rewrite E.
  - destruct (at_line_start st); [| destruct Hin].
    destruct Hin as [<- | []]. apply consumes_refl.
  - destruct (at_string_start st); [| destruct Hin].
    destruct Hin as [<- | []]. apply consumes_refl.
  - apply in_concat in Hin as (l & Hl & Hx).
    apply in_map_iff in Hl as (st1 & <- & Hst1).
    eapply consumes_trans; [apply IH1, Hst1 | apply IH2, Hx].
  - apply in_map_iff in Hin as (st0 & <- & Hst0).
    destruct (IH st st0 Hst0) as (d & Hr & Hc). exists d. now split.
  - eapply rep_consumes; [exact IH | exact Hin].
Qed.

(** The iteration bound of a repetition is never reached: any larger bound
    gives the same matches. *)
Lemma rep_fuel_irrelevant (body : mstate -> list mstate) (greedy : bool) :
  (forall st st', In st' (body st) -> consumes st st') ->
  forall (f1 f2 lo : nat) (hi : option nat) (st : mstate),
    lo + length (rest st) < f1 -> lo + length (rest st) < f2 ->
    rep f1 greedy lo hi body st = rep f2 greedy lo hi body st.
Proof.
  intros Hbody f1.
  induction f1 as [| f1 IH]; intros f2 lo hi st H1 H2; [lia |].
  destruct f2 as [| f2]; [lia |]. cbn [rep].
  destruct lo as [| lo'].
  - destruct (hi_is_zero hi); [reflexivity |].
    assert (Hmore :
              map (rep f1 greedy 0 (dec_hi hi) body)
                  (List.filter (progress st) (body st))
              = map (rep f2 greedy 0 (dec_hi hi) body)
                    (List.filter (progress st) (body st))).
    { apply map_ext_in. intros st1 Hst1.
      apply filter_In in Hst1 as [_ Hp]. unfold progress in Hp.
      apply Nat.ltb_lt in Hp. apply IH; lia. }
    now rewrite Hmore.
  - f_equal. apply map_ext_in. intros st1 Hst1.
    pose proof (consumes_length _ _ (Hbody _ _ Hst1)). apply IH; lia.
Qed.

Lemma search_consumes (r : regex) (s : list N) :
  forall (b : option N) (pre : list N) (st : mstate),
    search r b s = Some (pre, st) ->
    s = pre ++ rev (consumed st) ++ rest st.
Proof.
  induction s as [| c tl IH]; intros b pre st Hs; cbn [search] in Hs.
  - destruct (rmatch r (init b [])) as [| st0 l] eqn:E; [discriminate |].
    injection Hs as <- <-.
    destruct (rmatch_consumes r (init b []) st0) as (d & Hr & Hc);
      [rewrite E; now left |].
    cbn in Hr, Hc. rewrite Hc, app_nil_r, rev_involutive. exact Hr.
  - destruct (rmatch r (init b (c :: tl))) as [| st0 l] eqn:E.
    + destruct (search r (Some c) tl) as [[pre0 st0] |] eqn:E2; [| discriminate].
      injection Hs as <- <-. cbn [app]. f_equal. now apply (IH (Some c)).
    + injection Hs as <- <-.
      destruct (rmatch_consumes r (init b (c :: tl)) st0) as (d & Hr & Hc);
        [rewrite E; now left |].
      cbn in Hr, Hc. rewrite Hc, app_nil_r, rev_involutive. exact Hr.
Qed.

(** The bound on the number of replacements is never reached either. *)
Lemma sub_go_fuel_irrelevant (r : regex) (repl : mstate -> list N) :
  forall (f1 f2 : nat) (cnt : option nat) (b : option N) (s : list N),
    length s < f1 -> length s < f2 ->
    sub_go f1 r repl cnt b s = sub_go f2 r repl cnt b s.
Proof.
  induction f1 as [| f1 IH]; intros f2 cnt b s H1 H2; [lia |].
  destruct f2 as [| f2]; [lia |]. cbn [sub_go].
  destruct (count_left cnt); [| reflexivity].
  destruct (search r b s) as [[pre st] |] eqn:E; [| reflexivity].
  apply search_consumes in E.
  destruct (consumed st) as [| c0 cs] eqn:Ec; [reflexivity |].
  assert (Hlen : length (rest st) < length s).
  { apply (f_equal (@length N)) in E.
    rewrite !length_app, length_rev in E. cbn [length] in E. lia. }
  do 2 f_equal. apply IH; lia.
Qed.

Lemma rmatch_rep_fuel (greedy : bool) (lo : nat) (hi : option nat) (r : regex)
    (st : mstate) (fuel : nat) :
  lo + length (rest st) < fuel ->
  rmatch (Rep greedy lo hi r) st = rep fuel greedy lo hi (rmatch r) st.
Proof.
  intros H. cbn [rmatch].
  apply rep_fuel_irrelevant; [apply rmatch_consumes | lia | exact H].
Qed.

(** A pattern that advances reads at least one character in every match,
    so that [re.sub] never meets an empty match. *)
Lemma advances_shorter (r : regex) :
  advances r ->
  forall st st', In st' (rmatch r st) -> length (rest st') < length (rest st).
Proof.
  induction 1 as [p | r1 r2 _ IH | r1 r2 _ IH | r _ IH | greedy lo hi r _ IH];
    intros st st' Hin; cbn [rmatch] in Hin.
  - unfold step_chr in Hin. destruct (rest st) as [| c tl]; [destruct Hin |].
    destruct (p c); [| destruct Hin]. destruct Hin as [<- | []]. cbn. lia.
  - apply in_concat in Hin as (l & Hl & Hx).
    apply in_map_iff in Hl as (st1 & <- & Hst1).
    pose proof (IH _ _ Hst1).
    pose proof (consumes_length _ _ (rmatch_consumes _ _ _ Hx)). lia.
  - apply in_concat in Hin as (l & Hl & Hx).
    apply in_map_iff in Hl as (st1 & <- & Hst1).
    pose proof (IH _ _ Hx).
    pose proof (consumes_length _ _ (rmatch_consumes _ _ _ Hst1)). lia.
  - apply in_map_iff in Hin as (st0 & <- & Hst0). cbn. now apply IH.
  - cbn [rep] in Hin.
    apply in_concat in Hin as (l & Hl & Hx).
    apply in_map_iff in Hl as (st1 & <- & Hst1).
    pose proof (IH _ _ Hst1).
    pose proof (consumes_length _ _
                  (rep_consumes _ _ (rmatch_consumes r) _ _ _ _ _ Hx)).
    lia.
Qed.

Lemma search_is_match (r : regex) (s : list N) :
  forall (b : option N) (pre : list N) (st : mstate),
    search r b s = Some (pre, st) ->
    exists b' s', In st (rmatch r (init b' s')).
Proof.
  induction s as [| c tl IH]; intros b pre st Hs; cbn [search] in Hs.
  - destruct (rmatch r (init b [])) as [| st0 l] eqn:E; [discriminate |].
    injection Hs as <- <-. exists b, []. rewrite E. now left.
  - destruct (rmatch r (init b (c :: tl))) as [| st0 l] eqn:E.
    + destruct (search r (Some c) tl) as [[pre0 st0] |] eqn:E2; [| discriminate].
      injection Hs as <- <-. now apply (IH (Some c) pre0).
    + injection Hs as <- <-. exists b, (c :: tl). rewrite E. now left.
Qed.

Lemma search_nonempty (r : regex) (b : option N) (s pre : list N) (st : mstate) :
  advances r -> search r b s = Some (pre, st) -> consumed st <> [].
Proof.
  intros Hr Hs. apply search_is_match in Hs as (b' & s' & Hin).
  pose proof (advances_shorter r Hr _ _ Hin) as Hlt.
  destruct (rmatch_consumes r _ _ Hin) as (d & Hrest & Hcons).
  cbn in Hrest, Hcons, Hlt. rewrite Hcons, app_nil_r.
  destruct d as [| x d']; [| cbn; now destruct (rev d')].
  cbn in Hrest. rewrite Hrest in Hlt. lia.
Qed.

Lemma advances_lit_seq (c : N) (r : regex) : advances (Seq (lit c) r).
Proof. apply advances_seq_l. exact (advances_chr (chr_eqb c)). Qed.

Lemma program_patterns_advance :
  Forall advances [re_bold_italic; re_bold; re_italic; re_bold_us;
                   re_italic_us; re_header; re_stars; re_table].
Proof.
  repeat apply List.Forall_cons; [.. | apply List.Forall_nil].
  - apply advances_lit_seq.
  - apply advances_lit_seq.
  - apply advances_lit_seq.
  - apply advances_lit_seq.
  - apply advances_lit_seq.
  - apply advances_seq_r, advances_seq_l, advances_rep.
    exact (advances_chr (chr_eqb HASH)).
  - apply advances_rep. exact (advances_chr (chr_eqb STAR)).
  - apply advances_lit_seq.
Qed.

(** ** Table extractor *)

(** Filtering the images of a list is mapping over the filtered list. *)
Lemma filter_map_swap {A B} (f : A -> B) (p : B -> bool) (l : list A) :
  List.filter p (map f l) = map f (List.filter (fun x => p (f x)) l).
Proof.
  induction l as [| x l IH]; [reflexivity |].
  cbn [map List.filter]. rewrite IH. destruct (p (f x)); reflexivity.
Qed.

(** The boundary pieces that the rule of the specification drops are empty,
    so a filter that rejects the empty piece does not see the difference. *)
Lemma filter_drop_boundary (p : list N -> bool) (pieces : list (list N)) :
  p [] = false ->
  List.filter p (drop_boundary pieces) = List.filter p pieces.
Proof.
  intros Hp. unfold drop_boundary.
  set (t := match pieces with [] :: tl => tl | _ => pieces end).
  assert (Ht : List.filter p t = List.filter p pieces).
  { subst t. destruct pieces as [| [| c x] tl]; try reflexivity.
    cbn [List.filter]. now rewrite Hp. }
  rewrite <- Ht. clear Ht.
  destruct (rev t) as [| [| c x] tl] eqn:E; try reflexivity.
  apply (f_equal (@rev _)) in E. rewrite rev_involutive in E.
  cbn [rev] in E. rewrite E, List.filter_app. cbn [List.filter].
  rewrite Hp. now rewrite app_nil_r.
Qed.

(** C4 (as the code has it): the cells of a row are the trimmed pieces
    between the pipes, in the order of the row and with repetitions, without
    those that are empty once trimmed, wherever they stand; this is the row
    of the specification with its empty cells removed.  So a cell is in the
    row exactly when it is the non-empty trimmed text of a piece. *)
Theorem row_cells_keeps_nonempty (row : list N) :
  row_cells row = List.filter nonempty (map strip (split [PIPE] row)) /\
  row_cells row = List.filter nonempty (spec_row_cells row) /\
  (forall c, In c (row_cells row) <->
     c <> [] /\ exists piece, In piece (split [PIPE] row) /\ strip piece = c).
Proof.
  assert (H1 : row_cells row
               = List.filter nonempty (map strip (split [PIPE] row))).
  { unfold row_cells. now rewrite filter_map_swap. }
  split; [exact H1 |]. split.
  - unfold spec_row_cells, row_cells. rewrite filter_map_swap.
    now rewrite filter_drop_boundary.
  - intros c. unfold row_cells. rewrite in_map_iff. split.
    + intros (piece & Hc & Hin). apply filter_In in Hin as [Hin Hne].
      split; [| now exists piece].
      subst c. destruct (strip piece); [discriminate | congruence].
    + intros (Hne & piece & Hin & Hc). exists piece. split; [exact Hc |].
      apply filter_In. split; [exact Hin |].
      rewrite Hc. destruct c; [congruence | reflexivity].
Qed.

(** C4, counterexample: in [| A || B |] the interior empty cell is dropped
    as well, so the row has two cells and not the three that dropping only
    the boundary cells would leave. *)
Lemma row_cells_interior_empty_dropped :
  row_cells (py "| A || B |") = [py "A"; py "B"] /\
  spec_row_cells (py "| A || B |") = [py "A"; []; py "B"] /\
  row_cells (py "| A || B |") <> spec_row_cells (py "| A || B |").
Proof. repeat split; vm_compute; congruence. Qed.

(** Equal cells are both kept, in place. *)
Lemma row_cells_keeps_repetitions :
  row_cells (py "| 1 | 1 |") = [py "1"; py "1"] /\
  row_cells (py "| B | A |") = [py "B"; py "A"].
Proof. split; vm_compute; reflexivity. Qed.

(** C5, at the failing input: the row [|---| data |] only starts like a
    separator and carries the cell [data], yet the separator test accepts
    it and the extractor discards the row. *)
Theorem separator_prefix_row_discarded :
  is_separator (py "|---| data |") = true /\
  row_cells (py "|---| data |") = [py "---"; py "data"] /\
  parse_markdown_table content_prefix_separator = [[[py "A"; py "B"]]].
Proof. repeat split; vm_compute; reflexivity. Qed.

(** A data row whose first cell is blank is lost in the same way. *)
Lemma blank_first_cell_row_discarded :
  parse_markdown_table (lines_of ["| Item | Cost |"; "| | 100 |"]%string)
  = [[[py "Item"; py "Cost"]]].
Proof. vm_compute. reflexivity. Qed.

(** The extraction example of the specification. *)
Lemma parse_markdown_table_example :
  parse_markdown_table (lines_of ["| A | B |"; "|---|---|"; "| 1 | 2 |"]%string)
  = [[[py "A"; py "B"]; [py "1"; py "2"]]].
Proof. vm_compute. reflexivity. Qed.

(** ** Content block composer *)

(** C2, at the failing input: the candidate [### Title] loses its hashes in
    clean_markdown_text before the heading test runs, and is emitted as a
    body paragraph, not as a Heading 3 paragraph. *)
Theorem heading_candidate_emitted_as_paragraph :
  clean_markdown_text (py "### Title") = py "Title" /\
  add_formatted_content [] (py "### Title")
  = Ok [Paragraph BodyLeft (py "Title")] /\
  add_formatted_content [] (py "## Title")
  = Ok [Paragraph BodyLeft (py "Title")].
Proof. repeat split; vm_compute; reflexivity. Qed.

(** The heading branch is only reached when no whitespace follows the
    hashes. *)
Lemma heading_without_space :
  add_formatted_content [] (py "###Title")
  = Ok [Paragraph StyleHeading3 (py "Title")].
Proof. vm_compute. reflexivity. Qed.

(** The ordering example of the specification; the empty paragraph is the
    spacing that follows every table. *)
Lemma compose_intro_table_outro :
  add_formatted_content [] content_intro_table_outro
  = Ok [Paragraph BodyLeft (py "Intro");
        Table [[Cell (py "A") HeaderCell; Cell (py "B") HeaderCell];
               [Cell (py "1") BodyCell; Cell (py "2") BodyCell]];
        Paragraph Plain [];
        Paragraph BodyLeft (py "Outro")].
Proof. vm_compute. reflexivity. Qed.

(** C3, at the failing input: the extractor finds two tables, but the
    one-row table is not matched by the removal pattern.  Its text stays a
    paragraph, the only placeholder stands where the second table was, and
    the first table is rendered there; the second table is never emitted. *)
Theorem tables_out_of_step :
  parse_markdown_table content_two_tables
  = [[[py "x"; py "y"]]; [[py "A"; py "B"]; [py "1"; py "2"]]] /\
  add_formatted_content [] content_two_tables
  = Ok [Paragraph BodyLeft (py "| x | y |");
        Paragraph BodyLeft (py "foo");
        Table [[Cell (py "x") HeaderCell; Cell (py "y") HeaderCell]];
        Paragraph Plain []].
Proof. split; vm_compute; reflexivity. Qed.

(** A table of a single row is extracted but never emitted as a table. *)
Lemma single_row_table_not_emitted :
  parse_markdown_table (py "| A | B |") = [[[py "A"; py "B"]]] /\
  add_formatted_content [] (py "| A | B |")
  = Ok [Paragraph BodyLeft (py "| A | B |")].
Proof. split; vm_compute; reflexivity. Qed.

(** C6 (as the code has it): a candidate that contains the placeholder when
    no extracted table is left is skipped; nothing is emitted for it and
    the loop goes on with the next candidate. *)
Theorem extra_placeholder_skipped
    (tables : list (list (list (list N)))) (para_text : list N)
    (more : list (list N)) (table_index : nat) (doc : list element) :
  contains TABLE_PLACEHOLDER para_text = true ->
  length tables <= table_index ->
  add_paragraphs tables (para_text :: more) table_index doc
  = add_paragraphs tables more table_index doc.
Proof.
  intros Hc Hlen. cbn [add_paragraphs].
  destruct (negb (nonempty (strip para_text))); [reflexivity |].
  rewrite Hc.
  rewrite (proj2 (lookup_ge_None tables table_index)) by lia.
  reflexivity.
Qed.

Lemma extra_placeholder_skipped_witness :
  contains TABLE_PLACEHOLDER (py "see [TABLE_PLACEHOLDER] here") = true /\
  length (@nil (list (list (list N)))) <= 0 /\
  add_paragraphs [] [py "see [TABLE_PLACEHOLDER] here"; py "next"] 0 []
  = add_paragraphs [] [py "next"] 0 [].
Proof.
  split; [vm_compute; reflexivity |].
  split; [simpl; lia |].
  apply (extra_placeholder_skipped [] (py "see [TABLE_PLACEHOLDER] here")
           [py "next"] 0 []).
  - vm_compute; reflexivity.
  - simpl; lia.
Defined.

(** C6, counterexample: content that is the placeholder text composes to
    the empty block sequence; the placeholder is not rendered as text. *)
Lemma extra_placeholder_not_literal :
  add_formatted_content [] (py "[TABLE_PLACEHOLDER]") = Ok [] /\
  ~ (exists doc st,
        add_formatted_content [] (py "[TABLE_PLACEHOLDER]") = Ok doc /\
        In (Paragraph st (py "[TABLE_PLACEHOLDER]")) doc).
Proof.
  assert (H : add_formatted_content [] (py "[TABLE_PLACEHOLDER]") = Ok [])
    by (vm_compute; reflexivity).
  split; [exact H |].
  intros (doc & st & Hd & Hin). rewrite H in Hd.
  injection Hd as <-. destruct Hin.
Qed.

(** ** Export file name *)

Lemma replace_space_map (s : list N) :
  replace (py " ") (py "_") s = map space_to_underscore s.
Proof.
  unfold replace. change (py " ") with [SPACE]. change (py "_") with [USCORE].
  induction s as [| c tl IH]; [reflexivity |].
  cbn [replace_go startswith map length Nat.sub]. rewrite IH.
  unfold space_to_underscore.
  destruct (chr_eqb SPACE c); destruct tl; reflexivity.
Qed.

Lemma space_to_underscore_inj (a b : list N) :
  ~ In USCORE a -> ~ In USCORE b ->
  map space_to_underscore a = map space_to_underscore b -> a = b.
Proof.
  revert b. induction a as [| x a IH]; intros [| y b] Ha Hb Heq;
    try discriminate; [reflexivity |].
  cbn [map] in Heq. injection Heq as Hxy Htl.
  f_equal.
  - unfold space_to_underscore, chr_eqb in Hxy.
    destruct (N.eqb_spec SPACE x) as [<- |], (N.eqb_spec SPACE y) as [<- |];
      try reflexivity; try assumption.
    + exfalso. apply Hb. left. congruence.
    + exfalso. apply Ha. left. congruence.
  - apply IH; [| | exact Htl].
    + intros H. apply Ha. now right.
    + intros H. apply Hb. now right.
Qed.

(** Two exports at the same second collide exactly when their client names
    agree once spaces are replaced by underscores. *)
Lemma docx_filename_eq_iff (rfx1 rfx2 : gmap string (list N)) (stamp : list N) :
  docx_filename rfx1 stamp = docx_filename rfx2 stamp <->
  replace (py " ") (py "_") (default (py "Client") (rfx1 !! "client_name"%string))
  = replace (py " ") (py "_") (default (py "Client") (rfx2 !! "client_name"%string)).
Proof.
  unfold docx_filename. split.
  - intros H. apply app_inv_head in H. apply app_inv_tail in H. exact H.
  - intros ->. reflexivity.
Qed.

(** C9 (as the code has it): for a fixed time stamp, distinct client names
    that contain no underscore get distinct file names. *)
Theorem docx_filename_injective_without_underscore
    (rfx1 rfx2 : gmap string (list N)) (c1 c2 stamp : list N) :
  rfx1 !! "client_name"%string = Some c1 ->
  rfx2 !! "client_name"%string = Some c2 ->
  ~ In USCORE c1 -> ~ In USCORE c2 ->
  c1 <> c2 ->
  docx_filename rfx1 stamp <> docx_filename rfx2 stamp.
Proof.
  intros H1 H2 Hu1 Hu2 Hne Heq.
  apply docx_filename_eq_iff in Heq. rewrite H1, H2 in Heq. cbn [default] in Heq.
  rewrite !replace_space_map in Heq.
  apply Hne. now apply space_to_underscore_inj.
Qed.

Lemma docx_filename_injective_witness :
  docx_filename {[ "client_name"%string := py "Acme Corp" ]} (py "20240101_120000")
  <> docx_filename {[ "client_name"%string := py "Acme Inc" ]} (py "20240101_120000").
Proof.
  apply (docx_filename_injective_without_underscore
           {[ "client_name"%string := py "Acme Corp" ]}
           {[ "client_name"%string := py "Acme Inc" ]}
           (py "Acme Corp") (py "Acme Inc") (py "20240101_120000")).
  - reflexivity.
  - reflexivity.
  - vm_compute. intros H. repeat (destruct H as [H | H]; [discriminate H |]). exact H.
  - vm_compute. intros H. repeat (destruct H as [H | H]; [discriminate H |]). exact H.
  - vm_compute. discriminate.
Defined.

(** C9, counterexample: the client names [Acme Corp] and [Acme_Corp] are
    distinct and get the same file name for the same time stamp. *)
Lemma docx_filename_collision :
  py "Acme Corp" <> py "Acme_Corp" /\
  docx_filename {[ "client_name"%string := py "Acme Corp" ]} (py "20240101_120000")
  = docx_filename {[ "client_name"%string := py "Acme_Corp" ]} (py "20240101_120000").
Proof. split; [vm_compute; discriminate | vm_compute; reflexivity]. Qed.

(** A call that returned was made of calls that returned. *)
Lemma result_bind_ok {A B} (m : result A) (k : A -> result B) (r : B) :
  (a ← m; k a) = Ok r -> exists a, m = Ok a /\ k a = Ok r.
Proof. destruct m as [a | | |]; try discriminate. intros H. now exists a. Qed.

(** A successful export is saved under that name. *)
Lemma create_docx_document_filename (save : list N -> result unit)
    (rfx_data sections_content : gmap string (list N)) (today stamp : list N)
    (doc : list element) (filename : list N) :
  create_docx_document save rfx_data sections_content today stamp
  = Ok (doc, filename) ->
  filename = docx_filename rfx_data stamp /\
  save (docx_filename rfx_data stamp) = Ok tt.
Proof.
  unfold create_docx_document. intros H.
  do 5 (apply result_bind_ok in H as (? & _ & H); cbn beta zeta in H).
  apply result_bind_ok in H as ([] & Hsave & H). cbn beta zeta in H.
  split; [congruence | exact Hsave].
Qed.

(** ** Table rendering *)

Lemma store_ok (t : list N) : xml_compatible t = true -> store t = Ok t.
Proof. unfold store. now intros ->. Qed.

Lemma store_cases (t : list N) :
  store t = Ok t /\ xml_compatible t = true
  \/ store t = ValueError /\ xml_compatible t = false.
Proof. unfold store. destruct (xml_compatible t); auto. Qed.

Lemma write_row_spec (i : nat) (row_data : list (list N)) :
  forall (pre suf : list cell) (tbl : list (list cell)),
    tbl !! i = Some (pre ++ suf) ->
    write_row i (length pre) row_data tbl
    = (_ ← check_row (length suf) row_data;
       Ok (<[i := pre ++ map (written_cell i) row_data
                       ++ drop (length row_data) suf]> tbl)).
Proof.
  induction row_data as [| d tl IH]; intros pre suf tbl Hrow.
  - cbn [write_row check_row length map drop app mbind result_bind].
    now rewrite list_insert_id.
  - cbn [write_row check_row]. unfold write_cell. rewrite Hrow.
    destruct suf as [| c0 suf'].
    + rewrite lookup_ge_None_2 by (rewrite length_app; cbn; lia).
      reflexivity.
    + rewrite list_lookup_middle by reflexivity.
      cbn [length].
      destruct (store_cases (clean_markdown_text d)) as [[-> _] | [-> _]];
        cbn [mbind result_bind]; [| reflexivity].
      assert (Hi : i < length tbl) by (eapply lookup_lt_Some; eauto).
      set (c := Cell (clean_markdown_text d)
                     (if Nat.eqb i 0 then HeaderCell else BodyCell)).
      replace (<[length pre := c]> (pre ++ c0 :: suf'))
        with ((pre ++ [c]) ++ suf').
      2:{ rewrite insert_app_r_alt by lia. rewrite Nat.sub_diag. cbn.
          now rewrite <- app_assoc. }
      replace (S (length pre)) with (length (pre ++ [c]))
        by (rewrite length_app; cbn; lia).
      rewrite (IH (pre ++ [c]) suf') by (now rewrite list_lookup_insert_eq).
      destruct (check_row (length suf') tl) as [[] | | |];
        cbn [mbind result_bind]; try reflexivity.
      rewrite list_insert_insert_eq.
      cbn [map drop]. now rewrite <- app_assoc.
Qed.

Lemma check_row_length (cols : nat) (row_data : list (list N)) :
  check_row cols row_data = Ok tt -> length row_data <= cols.
Proof.
  revert cols. induction row_data as [| d tl IH]; intros cols; cbn; [lia |].
  destruct cols as [| cols]; [discriminate |].
  destruct (store _); cbn [mbind result_bind]; try discriminate.
  intros H. apply IH in H. lia.
Qed.

Lemma write_rows_spec (cols : nat) (table_data : list (list (list N))) :
  forall done : list (list cell),
    write_rows (length done) table_data
      (done ++ replicate (length table_data) (replicate cols (Cell [] Untouched)))
    = (_ ← check_rows cols table_data;
       Ok (done ++ written_rows (length done) cols table_data)).
Proof.
  induction table_data as [| row_data tl IH]; intros done.
  - cbn. reflexivity.
  - cbn [write_rows check_rows length replicate written_rows].
    set (blank := replicate cols (Cell [] Untouched)).
    rewrite (write_row_spec (length done) row_data [] blank)
      by (now rewrite list_lookup_middle).
    assert (Hblank : length blank = cols) by apply length_replicate.
    rewrite Hblank. cbn [app].
    destruct (check_row cols row_data) as [[] | | |] eqn:Hrow;
      cbn [mbind result_bind]; try reflexivity.
    apply check_row_length in Hrow.
    replace (<[length done := map (written_cell (length done)) row_data
                                ++ drop (length row_data) blank]>
               (done ++ blank :: replicate (length tl) blank))
      with ((done ++ [written_row (length done) cols row_data])
              ++ replicate (length tl) blank).
    2:{ rewrite insert_app_r_alt by lia. rewrite Nat.sub_diag. cbn.
        rewrite <- app_assoc. cbn. unfold written_row, blank.
        now rewrite drop_replicate. }
    replace (S (length done))
      with (length (done ++ [written_row (length done) cols row_data]))
      by (rewrite length_app; cbn; lia).
    rewrite IH. destruct (check_rows cols tl) as [[] | | |];
      cbn [mbind result_bind]; try reflexivity.
    now rewrite <- app_assoc.
Qed.

(** add_table_to_doc in closed form. *)
Lemma add_table_to_doc_spec (doc : list element) (first : list (list N))
    (more : list (list (list N))) :
  add_table_to_doc doc (first :: more)
  = (_ ← check_rows (length first) (first :: more);
     Ok (doc ++ [Table (written_rows 0 (length first) (first :: more))])).
Proof.
  unfold add_table_to_doc, new_table.
  pose proof (write_rows_spec (length first) (first :: more) []) as H.
  cbn [length app] in H. cbn [length]. rewrite H.
  destruct (check_rows _ _) as [[] | | |]; reflexivity.
Qed.

(** What each outcome of the writes says about the table: they all succeed
    when every row fits and every cell can be stored; IndexError comes from
    a row that does not fit, ValueError from a cell that cannot be stored,
    and when every cell can be stored a row that does not fit raises
    IndexError. *)
Lemma check_row_cases (cols : nat) (row_data : list (list N)) :
  match check_row cols row_data with
  | Ok _ =>
      length row_data <= cols /\
      forallb (fun c => xml_compatible (clean_markdown_text c)) row_data = true
  | IndexError => cols < length row_data
  | ValueError =>
      forallb (fun c => xml_compatible (clean_markdown_text c)) row_data = false
  | OSError => False
  end.
Proof.
  revert cols. induction row_data as [| d tl IH]; intros cols.
  - cbn. split; [lia | reflexivity].
  - cbn [check_row length forallb]. destruct cols as [| cols]; [lia |].
    destruct (store_cases (clean_markdown_text d)) as [[-> ->] | [-> ->]];
      cbn [mbind result_bind andb]; [| reflexivity].
    specialize (IH cols).
    destruct (check_row cols tl) as [[] | | |]; try exact IH; [| lia].
    destruct IH as [H1 H2]. split; [lia | exact H2].
Qed.

Lemma check_rows_cases (cols : nat) (table_data : list (list (list N))) :
  match check_rows cols table_data with
  | Ok _ =>
      forallb (fun row => length row <=? cols) table_data = true /\
      cells_storable table_data = true
  | IndexError => forallb (fun row => length row <=? cols) table_data = false
  | ValueError => cells_storable table_data = false
  | OSError => False
  end.
Proof.
  induction table_data as [| r tl IH]; [cbn; auto |].
  cbn [check_rows forallb]. unfold cells_storable in *. cbn [forallb].
  pose proof (check_row_cases cols r) as Hr.
  destruct (check_row cols r) as [[] | | |]; cbn [mbind result_bind].
  - destruct Hr as [Hlen ->]. apply Nat.leb_le in Hlen. rewrite Hlen.
    cbn [andb]. exact IH.
  - apply Nat.leb_gt in Hr. now rewrite Hr.
  - now rewrite Hr.
  - exact Hr.
Qed.

Lemma check_rows_ok (cols : nat) (table_data : list (list (list N))) :
  forallb (fun row => length row <=? cols) table_data = true ->
  cells_storable table_data = true ->
  check_rows cols table_data = Ok tt.
Proof.
  intros Hfit Hst. pose proof (check_rows_cases cols table_data) as H.
  destruct (check_rows cols table_data) as [[] | | |];
    [reflexivity | congruence | congruence | contradiction].
Qed.

Lemma check_rows_index (cols : nat) (table_data : list (list (list N))) :
  forallb (fun row => length row <=? cols) table_data = false ->
  cells_storable table_data = true ->
  check_rows cols table_data = IndexError.
Proof.
  intros Hfit Hst. pose proof (check_rows_cases cols table_data) as H.
  destruct (check_rows cols table_data) as [[] | | |];
    [destruct H; congruence | reflexivity | congruence | contradiction].
Qed.

Lemma written_rows_lookup (cols : nat) (table_data : list (list (list N))) :
  forall i k,
    written_rows i cols table_data !! k
    = written_row (i + k) cols <$> table_data !! k.
Proof.
  induction table_data as [| r tl IH]; intros i k; [reflexivity |].
  destruct k as [| k]; cbn.
  - now rewrite Nat.add_0_r.
  - rewrite IH. now rewrite Nat.add_succ_r.
Qed.

Lemma written_rows_length (i cols : nat) (table_data : list (list (list N))) :
  length (written_rows i cols table_data) = length table_data.
Proof.
  revert i. induction table_data as [| r tl IH]; intros i; cbn; [| rewrite IH];
    reflexivity.
Qed.

Lemma written_row_length (i cols : nat) (row_data : list (list N)) :
  length row_data <= cols -> length (written_row i cols row_data) = cols.
Proof.
  intros H. unfold written_row.
  rewrite length_app, length_map, length_replicate. lia.
Qed.

(** A row longer than the first one, seen by the test on the lengths. *)
Lemma rows_fit_false_iff (cols : nat) (table_data : list (list (list N))) :
  forallb (fun row => length row <=? cols) table_data = false <->
  exists row, In row table_data /\ cols < length row.
Proof.
  induction table_data as [| r tl IH]; cbn [forallb].
  - split; [discriminate | intros (row & [] & _)].
  - rewrite andb_false_iff, IH, Nat.leb_gt. split.
    + intros [H | (row & Hin & Hlt)].
      * exists r. split; [now left | exact H].
      * exists row. split; [now right | exact Hlt].
    + intros (row & [<- | Hin] & Hlt); [now left |].
      right. now exists row.
Qed.

Lemma rows_fit_true_iff (cols : nat) (table_data : list (list (list N))) :
  forallb (fun row => length row <=? cols) table_data = true <->
  Forall (fun row => length row <= cols) table_data.
Proof.
  rewrite forallb_forall, List.Forall_forall.
  split; intros H x Hx; specialize (H x Hx).
  - now apply Nat.leb_le in H.
  - now apply Nat.leb_le.
Qed.

(** C10: add_table_to_doc creates a table with one row per data row and as
    many columns as the first row has cells, and writes cell [j] of row [i]
    into column [j] of table row [i].  It returns only when no row has more
    cells than the first one: it returns exactly when that holds and every
    normalised cell text can be stored in the document.  IndexError is
    raised only for a table with a row longer than the first, and it is
    raised for every such table whose cells can be stored (a cell that
    cannot be stored raises ValueError, possibly before the long row is
    reached).  The extractor does produce tables with a longer later row,
    and composing their content raises. *)
Theorem add_table_to_doc_total_iff_rows_fit :
  (forall (doc : list element) (table_data : list (list (list N))),
      (exists doc', add_table_to_doc doc table_data = Ok doc') <->
      Forall (fun row => length row <= length (hd [] table_data)) table_data /\
      cells_storable table_data = true) /\
  (forall (doc : list element) (table_data : list (list (list N))),
      add_table_to_doc doc table_data = IndexError ->
      exists row, In row table_data /\ length (hd [] table_data) < length row) /\
  (forall (doc : list element) (table_data : list (list (list N))),
      cells_storable table_data = true ->
      (exists row, In row table_data /\ length (hd [] table_data) < length row) ->
      add_table_to_doc doc table_data = IndexError) /\
  (forall (doc doc' : list element) (first : list (list N))
          (more : list (list (list N))),
      add_table_to_doc doc (first :: more) = Ok doc' ->
      exists tbl,
        doc' = doc ++ [Table tbl] /\
        length tbl = length (first :: more) /\
        (forall i row_data, (first :: more) !! i = Some row_data ->
           exists row,
             tbl !! i = Some row /\ length row = length first /\
             forall j cell_data, row_data !! j = Some cell_data ->
               row !! j = Some (written_cell i cell_data))) /\
  (parse_markdown_table content_ragged = [[[py "A"]; [py "1"; py "2"]]] /\
   add_table_to_doc [] [[py "A"]; [py "1"; py "2"]] = IndexError /\
   add_formatted_content [] content_ragged = IndexError) /\
  (add_table_to_doc [] [[py "a" ++ [11%N] ++ py "b"]] = ValueError /\
   add_table_to_doc [] [[py "a" ++ [11%N] ++ py "b"]; [py "1"; py "2"]]
   = ValueError).
Proof.
  split; [| split; [| split; [| split; [| split]]]].
  - intros doc [| first more]; cbn [hd].
    + split; [intros _; split; [constructor | reflexivity]
             | intros _; now exists doc].
    + rewrite add_table_to_doc_spec, <- rows_fit_true_iff.
      pose proof (check_rows_cases (length first) (first :: more)) as H.
      split.
      * intros [doc' Hd].
        destruct (check_rows _ _) as [[] | | |]; try discriminate Hd.
        exact H.
      * intros [Hfit Hst]. rewrite check_rows_ok by assumption.
        cbn [mbind result_bind]. eauto.
  - intros doc [| first more]; cbn [hd]; [discriminate |].
    rewrite add_table_to_doc_spec.
    pose proof (check_rows_cases (length first) (first :: more)) as H.
    destruct (check_rows _ _) as [[] | | |]; try discriminate.
    intros _. now apply rows_fit_false_iff.
  - intros doc [| first more] Hst; cbn [hd]; [intros (row & [] & _) |].
    intros H. apply rows_fit_false_iff in H.
    rewrite add_table_to_doc_spec, check_rows_index by assumption.
    reflexivity.
  - intros doc doc' first more. rewrite add_table_to_doc_spec.
    pose proof (check_rows_cases (length first) (first :: more)) as H.
    destruct (check_rows _ _) as [[] | | |]; try discriminate.
    destruct H as [E _].
    cbn [mbind result_bind].
    intros H. injection H as <-.
    exists (written_rows 0 (length first) (first :: more)).
    split; [reflexivity |]. split; [apply written_rows_length |].
    intros i row_data Hi. rewrite written_rows_lookup, Hi. cbn [fmap option_fmap option_map].
    eexists. split; [reflexivity |].
    rewrite forallb_forall in E.
    assert (Hle : length row_data <= length first).
    { apply Nat.leb_le, E. eapply list_elem_of_In, list_elem_of_lookup_2, Hi. }
    split; [now apply written_row_length |].
    intros j cell_data Hj. unfold written_row.
    rewrite lookup_app_l by (rewrite length_map; eapply lookup_lt_Some, Hj).
    now rewrite list_lookup_fmap, Hj.
  - repeat split; vm_compute; reflexivity.
  - split; vm_compute; reflexivity.
Qed.

(** ** Section orchestrator *)

Section Orchestrator.

Variable client : list N -> outcome.
Variable rfx_data : gmap string (list N).

Lemma collect_future_insert (m : gmap string (list N)) (f : future) :
  collect_future m f = <[key (fst f) := entry f]> m.
Proof. unfold collect_future, entry. now destruct (snd f). Qed.

Lemma fold_collect_dom (l : list future) :
  forall m : gmap string (list N),
    dom (fold_left collect_future l m)
    = list_to_set (map future_key l) ∪ dom m.
Proof.
  induction l as [| f l IH]; intros m; cbn [fold_left map].
  - now rewrite list_to_set_nil, (left_id_L ∅ (∪)).
  - rewrite IH, collect_future_insert, dom_insert_L, list_to_set_cons.
    rewrite (comm_L (∪) {[key (fst f)]} (list_to_set _)).
    now rewrite (assoc_L (∪)).
Qed.

Lemma fold_collect_other (l : list future) (k : string) :
  forall m : gmap string (list N),
    ~ In k (map future_key l) ->
    fold_left collect_future l m !! k = m !! k.
Proof.
  induction l as [| f l IH]; intros m Hk; cbn [fold_left]; [reflexivity |].
  rewrite IH by (intros H; apply Hk; now right).
  rewrite collect_future_insert, lookup_insert_ne; [reflexivity |].
  intros Heq. apply Hk. left. exact Heq.
Qed.

Lemma fold_collect_lookup (l : list future) :
  forall (m : gmap string (list N)) (f : future),
    List.NoDup (map future_key l) -> In f l ->
    fold_left collect_future l m !! key (fst f) = Some (entry f).
Proof.
  induction l as [| a l IH]; intros m f Hnd Hin; [destruct Hin |].
  cbn [map] in Hnd. apply List.NoDup_cons_iff in Hnd as [Hnotin Hnd].
  cbn [fold_left]. destruct Hin as [-> | Hin].
  - rewrite fold_collect_other by exact Hnotin.
    now rewrite collect_future_insert, lookup_insert_eq.
  - now apply IH.
Qed.

Lemma section_keys_distinct : List.NoDup (map key SECTIONS).
Proof.
  apply NoDup_ListNoDup.
  apply (bool_decide_unpack _). vm_compute. reflexivity.
Qed.

Lemma submit_all_keys :
  map future_key (submit_all client rfx_data) = map key SECTIONS.
Proof. unfold submit_all. rewrite map_map. reflexivity. Qed.

Lemma completed_keys (completed : list future) :
  Permutation completed (submit_all client rfx_data) ->
  Permutation (map future_key completed) (map key SECTIONS).
Proof.
  intros H. rewrite <- submit_all_keys. now apply Permutation_map.
Qed.

(** The batch always settles, and the mapping it returns does not depend
    on the order in which the requests complete. *)
Lemma generate_all_sections_settles :
  exists sections_content,
    generate_all_sections client rfx_data sections_content.
Proof.
  exists (collect_all (submit_all client rfx_data)).
  constructor. reflexivity.
Qed.

(** C7: whatever the completion order and whichever requests failed, the
    mapping returned by generate_all_sections has the keys of the section
    definitions as its key set, hence one entry per definition, ten in
    all. *)
Theorem generate_all_sections_complete
    (sections_content : gmap string (list N)) :
  generate_all_sections client rfx_data sections_content ->
  dom sections_content = list_to_set (map key SECTIONS) /\
  size sections_content = length SECTIONS /\
  length SECTIONS = 10.
Proof.
  intros [completed Hperm].
  pose proof (completed_keys completed Hperm) as Hkeys.
  assert (Hdom : dom (collect_all completed)
                 = list_to_set (map key SECTIONS)).
  { unfold collect_all. rewrite fold_collect_dom, dom_empty_L.
    apply set_eq. intros k.
    rewrite elem_of_union, !elem_of_list_to_set, elem_of_empty, !list_elem_of_In.
    split.
    - intros [H | []]. eapply Permutation_in; eauto.
    - intros H. left. eapply Permutation_in; [symmetry |]; eauto. }
  split; [exact Hdom |]. split; [| reflexivity].
  rewrite <- size_dom, Hdom.
  rewrite size_list_to_set by (apply NoDup_ListNoDup, section_keys_distinct).
  apply length_map.
Qed.

(** C8: the entry of a section whose request raised is the placeholder
    built from the error, and the entry of every section whose request
    returned is the text that was returned. *)
Theorem generate_all_sections_isolates
    (sections_content : gmap string (list N)) (failed : section)
    (e : list N) :
  generate_all_sections client rfx_data sections_content ->
  In failed SECTIONS ->
  client (section_request (key failed) (label failed) rfx_data) = Raises e ->
  sections_content !! key failed = Some (py "Error generating section: " ++ e) /\
  forall (s : section) (t : list N),
    In s SECTIONS ->
    client (section_request (key s) (label s) rfx_data) = Returns t ->
    sections_content !! key s = Some t.
Proof.
  intros [completed Hperm] Hfailed He.
  assert (Hentry : forall s, In s SECTIONS ->
             collect_all completed !! key s
             = Some (generate_section client (key s) (label s) rfx_data)).
  { intros s Hs.
    set (f := (s, Returns (generate_section client (key s) (label s) rfx_data))).
    assert (Hin : In f completed).
    { eapply Permutation_in; [symmetry; exact Hperm |].
      unfold submit_all. apply in_map_iff. now exists s. }
    unfold collect_all.
    apply (fold_collect_lookup completed ∅ f); [| exact Hin].
    eapply Permutation_NoDup; [symmetry; now apply completed_keys |].
    apply section_keys_distinct. }
  split.
  - rewrite Hentry by exact Hfailed. unfold generate_section. now rewrite He.
  - intros s t Hs Ht. rewrite Hentry by exact Hs.
    unfold generate_section. now rewrite Ht.
Qed.

End Orchestrator.

Lemma generate_all_sections_complete_witness :
  dom (collect_all (submit_all flaky_client ∅))
  = list_to_set (map key SECTIONS) /\
  size (collect_all (submit_all flaky_client ∅)) = length SECTIONS /\
  length SECTIONS = 10.
Proof.
  apply (generate_all_sections_complete flaky_client ∅).
  apply settle. apply Permutation_refl.
Defined.

Lemma generate_all_sections_isolates_witness :
  collect_all (rev (submit_all flaky_client ∅)) !! "risks"%string
  = Some (py "Error generating section: " ++ py "quota exceeded") /\
  forall (s : section) (t : list N),
    In s SECTIONS ->
    flaky_client (section_request (key s) (label s) ∅) = Returns t ->
    collect_all (rev (submit_all flaky_client ∅)) !! key s = Some t.
Proof.
  apply (generate_all_sections_isolates flaky_client ∅
           (collect_all (rev (submit_all flaky_client ∅)))
           (Section "risks" "Risk assessment" [9888%N; 65039%N])
           (py "quota exceeded")).
  - apply settle. symmetry. apply Permutation_rev.
  - vm_compute. tauto.
  - vm_compute. reflexivity.
Defined.

(** ** Markdown normaliser *)

(** *** Patterns that cannot match without their first character *)

Lemma needs_lit (c : N) : needs c (lit c).
Proof.
  intros st H. unfold head_is in H. cbn. unfold step_chr.
  destruct (rest st); [reflexivity | now rewrite H].
Qed.

Lemma needs_seq (c : N) (r1 r2 : regex) : needs c r1 -> needs c (Seq r1 r2).
Proof. intros H st Hst. cbn. now rewrite (H st Hst). Qed.

Lemma needs_bol_seq (c : N) (r : regex) : needs c r -> needs c (Seq Bol r).
Proof.
  intros H st Hst. cbn. destruct (at_line_start st); [| reflexivity].
  cbn. rewrite (H st Hst). reflexivity.
Qed.

Lemma needs_rep (c : N) (greedy : bool) (lo : nat) (hi : option nat) (r : regex) :
  needs c r -> needs c (Rep greedy (S lo) hi r).
Proof. intros H st Hst. cbn. now rewrite (H st Hst). Qed.

Create HintDb needs.
#[local] Hint Resolve needs_lit needs_seq needs_bol_seq needs_rep : needs.

Lemma needs_bold_italic : needs STAR re_bold_italic.
Proof. unfold re_bold_italic; cbn [seqs]; auto with needs. Qed.
Lemma needs_bold : needs STAR re_bold.
Proof. unfold re_bold; cbn [seqs]; auto with needs. Qed.
Lemma needs_italic : needs STAR re_italic.
Proof. unfold re_italic; cbn [seqs]; auto with needs. Qed.
Lemma needs_bold_us : needs USCORE re_bold_us.
Proof. unfold re_bold_us; cbn [seqs]; auto with needs. Qed.
Lemma needs_italic_us : needs USCORE re_italic_us.
Proof. unfold re_italic_us; cbn [seqs]; auto with needs. Qed.
Lemma needs_header : needs HASH re_header.
Proof. unfold re_header; cbn [seqs]; auto with needs. Qed.
Lemma needs_stars : needs STAR re_stars.
Proof. unfold re_stars, plus; auto with needs. Qed.

Lemma search_without_first (c : N) (r : regex) :
  needs c r -> forall (s : list N) (b : option N),
    ~ In c s -> search r b s = None.
Proof.
  intros Hr s. induction s as [| x tl IH]; intros b Hc; cbn [search].
  - now rewrite (Hr (init b [])).
  - rewrite (Hr (init b (x :: tl))).
    + rewrite IH; [reflexivity |]. intros H. apply Hc. now right.
    + cbn. unfold chr_eqb. apply N.eqb_neq. intros ->. apply Hc. now left.
Qed.

(** A substitution leaves a string without the first character of its
    pattern as it is. *)
Lemma re_sub_without_first (c : N) (r : regex) (repl : mstate -> list N)
    (s : list N) :
  needs c r -> ~ In c s -> re_sub r repl s = s.
Proof.
  intros Hr Hc. unfold re_sub. cbn [sub_go count_left].
  rewrite (search_without_first c r Hr s None Hc). reflexivity.
Qed.

(** *** Removal of the remaining asterisks *)

Lemma drop_stars_length (s : list N) : length (drop_stars s) <= length s.
Proof.
  induction s as [| c tl IH]; cbn [drop_stars length]; [lia |].
  destruct (chr_eqb STAR c); cbn [length]; lia.
Qed.

Lemma filter_drop_stars (s : list N) :
  List.filter not_star (drop_stars s) = List.filter not_star s.
Proof.
  induction s as [| c tl IH]; [reflexivity |].
  cbn [drop_stars]. destruct (chr_eqb STAR c) eqn:E; [| reflexivity].
  rewrite IH. cbn [List.filter].
  replace (not_star c) with false by (unfold not_star; now rewrite E).
  reflexivity.
Qed.

Lemma filter_not_star_id (s : list N) :
  ~ In STAR s -> List.filter not_star s = s.
Proof.
  induction s as [| c tl IH]; intros H; [reflexivity |].
  cbn [List.filter]. unfold not_star at 1, chr_eqb.
  destruct (N.eqb_spec STAR c) as [E | _].
  - exfalso. apply H. left. now symmetry.
  - cbn [negb]. f_equal. apply IH. intros Hin. apply H. now right.
Qed.

Lemma not_star_filtered (s : list N) : ~ In STAR (List.filter not_star s).
Proof.
  intros H. apply filter_In in H as [_ H].
  unfold not_star, chr_eqb in H. now rewrite N.eqb_refl in H.
Qed.

Lemma rmatch_lit (c : N) (st : mstate) :
  rmatch (lit c) st = step_chr (chr_eqb c) st.
Proof. reflexivity. Qed.

(** The greedy loop of [\*+] runs to the end of the run of asterisks. *)
Lemma rep_stars_head (s : list N) :
  forall (fuel : nat) (b : option N) (cons g : list N),
    length s < fuel ->
    exists b' cons' l,
      rep fuel true 0 None (rmatch (lit STAR)) (MState b cons g s)
      = MState b' cons' g (drop_stars s) :: l /\
      length cons <= length cons'.
Proof.
  induction s as [| c tl IH]; intros fuel b cons g Hfuel;
    (destruct fuel as [| f]; [cbn in Hfuel; lia |]).
  - exists b, cons, []. split; [reflexivity | lia].
  - cbn [rep hi_is_zero]. change (dec_hi None) with (@None nat).
    rewrite rmatch_lit. unfold step_chr. cbn [rest drop_stars consumed group1].
    destruct (chr_eqb STAR c).
    + cbn [List.filter consumed group1]. unfold progress. cbn [rest length].
      rewrite (proj2 (Nat.ltb_lt _ _)) by lia.
      cbn [map concat].
      destruct (IH f (Some c) (c :: cons) g) as (b' & cons' & l & Heq & Hlen);
        [cbn in Hfuel; lia |].
      rewrite Heq. exists b', cons', ((l ++ []) ++ [MState b cons g (c :: tl)]).
      split; [reflexivity | cbn in Hlen; lia].
    + exists b, cons, []. split; [reflexivity | lia].
Qed.

Lemma rmatch_stars (b : option N) (s : list N) :
  match rmatch re_stars (init b s) with
  | [] => head_is STAR (init b s) = false
  | st :: _ =>
      exists tl, s = STAR :: tl /\ rest st = drop_stars tl /\ consumed st <> []
  end.
Proof.
  destruct s as [| c tl]; [reflexivity |].
  unfold re_stars, plus. cbn [rmatch rep init rest].
  change (dec_hi None) with (@None nat).
  rewrite rmatch_lit. unfold step_chr, head_is, init. cbn [rest consumed group1].
  unfold chr_eqb.
  destruct (N.eqb_spec STAR c) as [E | Hne]; [subst c | reflexivity].
  cbn [map concat].
  destruct (rep_stars_head tl (1 + length (STAR :: tl)) (Some STAR) [STAR] [])
    as (b' & cons' & l & Heq & Hlen); [cbn [length]; lia |].
  rewrite Heq. cbn [app]. exists tl. repeat split.
  cbn [consumed]. destruct cons'; [cbn in Hlen; lia | discriminate].
Qed.

Lemma search_stars (s : list N) :
  forall b : option N,
    match search re_stars b s with
    | None => ~ In STAR s
    | Some (pre, st) =>
        exists mid, s = pre ++ STAR :: mid /\ ~ In STAR pre /\
                    rest st = drop_stars mid /\ consumed st <> []
    end.
Proof.
  induction s as [| x tl IH]; intros b; cbn [search].
  - pose proof (rmatch_stars b []) as H.
    destruct (rmatch re_stars (init b [])) as [| st l].
    + intros [].
    + destruct H as (tl & Habs & _). discriminate Habs.
  - pose proof (rmatch_stars b (x :: tl)) as H.
    destruct (rmatch re_stars (init b (x :: tl))) as [| st l].
    + unfold head_is, init in H. cbn [rest] in H.
      unfold chr_eqb in H. apply N.eqb_neq in H.
      specialize (IH (Some x)).
      destruct (search re_stars (Some x) tl) as [[pre st] |].
      * destruct IH as (mid & -> & Hpre & Hrest & Hcons).
        exists mid. repeat split; try assumption.
        intros [Hx | Hin]; [congruence | now apply Hpre].
      * intros [Hx | Hin]; [congruence | now apply IH].
    + destruct H as (tl' & Heq & Hrest & Hcons).
      exists tl'. repeat split; try assumption. intros [].
Qed.

Lemma sub_go_stars (fuel : nat) :
  forall (s : list N) (b : option N),
    length s < fuel ->
    sub_go fuel re_stars (literal []) None b s = List.filter not_star s.
Proof.
  induction fuel as [| f IH]; intros s b Hlen; [lia |].
  cbn [sub_go count_left]. pose proof (search_stars s b) as H.
  destruct (search re_stars b s) as [[pre st] |].
  - destruct H as (mid & -> & Hpre & Hrest & Hcons).
    destruct (consumed st) as [| c0 cs]; [congruence |].
    unfold literal at 1. cbn [app].
    rewrite IH.
    + rewrite Hrest, filter_drop_stars, List.filter_app. cbn [List.filter]. change (not_star STAR) with false. cbn iota.
      rewrite (filter_not_star_id pre Hpre). reflexivity.
    + rewrite Hrest. pose proof (drop_stars_length mid).
      rewrite length_app in Hlen. cbn in Hlen. lia.
  - symmetry. now apply filter_not_star_id.
Qed.

(** Step 7 removes every asterisk. *)
Lemma re_sub_stars (s : list N) :
  re_sub re_stars (literal []) s = List.filter not_star s.
Proof. unfold re_sub. apply sub_go_stars. lia. Qed.

(** *** Trimming *)

Lemma lstrip_In (c : N) (s : list N) : In c (lstrip s) -> In c s.
Proof.
  induction s as [| x tl IH]; cbn [lstrip]; [tauto |].
  destruct (is_space x); [| tauto]. intros H. right. now apply IH.
Qed.

Lemma strip_In (c : N) (s : list N) : In c (strip s) -> In c s.
Proof.
  unfold strip, rstrip. intros H.
  apply in_rev, lstrip_In in H. apply in_rev in H. now apply lstrip_In.
Qed.

Lemma lstrip_head (s : list N) :
  match lstrip s with
  | [] => True
  | c :: _ => is_space c = false
  end.
Proof.
  induction s as [| x tl IH]; cbn [lstrip]; [exact I |].
  destruct (is_space x) eqn:E; [exact IH | exact E].
Qed.

Lemma lstrip_idem (s : list N) : lstrip (lstrip s) = lstrip s.
Proof.
  pose proof (lstrip_head s) as H. destruct (lstrip s) as [| c tl];
    [reflexivity |].
  cbn [lstrip]. now rewrite H.
Qed.

Lemma lstrip_snoc (a : list N) (c : N) :
  lstrip (a ++ [c])
  = match lstrip a with
    | [] => lstrip [c]
    | _ :: _ => lstrip a ++ [c]
    end.
Proof.
  induction a as [| x tl IH]; [reflexivity |].
  cbn [app lstrip]. destruct (is_space x); [exact IH | reflexivity].
Qed.

Lemma rstrip_cons (c : N) (v : list N) :
  is_space c = false -> rstrip (c :: v) = c :: rstrip v.
Proof.
  intros Hc. unfold rstrip. cbn [rev]. rewrite lstrip_snoc.
  destruct (lstrip (rev v)) as [| y w].
  - cbn [lstrip]. now rewrite Hc.
  - now rewrite rev_app_distr.
Qed.

Lemma rstrip_idem (v : list N) : rstrip (rstrip v) = rstrip v.
Proof. unfold rstrip. now rewrite rev_involutive, lstrip_idem. Qed.

Lemma strip_idem (s : list N) : strip (strip s) = strip s.
Proof.
  unfold strip. pose proof (lstrip_head s) as H.
  destruct (lstrip s) as [| c v]; [reflexivity |].
  rewrite (rstrip_cons c v H). cbn [lstrip]. rewrite H.
  rewrite <- (rstrip_cons c v H). apply rstrip_idem.
Qed.

(** *** The normaliser on text without markers *)

(** Text without asterisk, underscore and hash is only trimmed. *)
Lemma clean_markdown_text_plain (s : list N) :
  ~ In STAR s -> ~ In USCORE s -> ~ In HASH s ->
  clean_markdown_text s = strip s.
Proof.
  intros Hstar Hus Hhash. unfold clean_markdown_text.
  rewrite (re_sub_without_first STAR re_bold_italic _ s needs_bold_italic Hstar).
  rewrite (re_sub_without_first STAR re_bold _ s needs_bold Hstar).
  rewrite (re_sub_without_first STAR re_italic _ s needs_italic Hstar).
  rewrite (re_sub_without_first USCORE re_bold_us _ s needs_bold_us Hus).
  rewrite (re_sub_without_first USCORE re_italic_us _ s needs_italic_us Hus).
  rewrite (re_sub_without_first HASH re_header _ s needs_header Hhash).
  rewrite (re_sub_without_first STAR re_stars _ s needs_stars Hstar).
  reflexivity.
Qed.

(** No asterisk survives a pass. *)
Lemma clean_markdown_text_no_star (s : list N) :
  ~ In STAR (clean_markdown_text s).
Proof.
  unfold clean_markdown_text. intros H. apply strip_In in H.
  rewrite re_sub_stars in H. exact (not_star_filtered _ H).
Qed.

Lemma clean_markdown_text_stripped (s : list N) :
  strip (clean_markdown_text s) = clean_markdown_text s.
Proof. unfold clean_markdown_text. apply strip_idem. Qed.

(** C1 (as the code has it): a second pass changes nothing when the first
    pass has left no underscore and no hash in its output (it never leaves
    an asterisk). *)
Theorem clean_markdown_text_idempotent_on_clean_output (s : list N) :
  ~ In USCORE (clean_markdown_text s) ->
  ~ In HASH (clean_markdown_text s) ->
  clean_markdown_text (clean_markdown_text s) = clean_markdown_text s.
Proof.
  intros Hus Hhash.
  rewrite clean_markdown_text_plain;
    [apply clean_markdown_text_stripped
    | apply clean_markdown_text_no_star | exact Hus | exact Hhash].
Qed.

Lemma clean_markdown_text_idempotent_witness :
  clean_markdown_text (clean_markdown_text (py "**a *b* c**"))
  = clean_markdown_text (py "**a *b* c**").
Proof.
  apply (clean_markdown_text_idempotent_on_clean_output (py "**a *b* c**")).
  - vm_compute. intros H. repeat (destruct H as [H | H]; [discriminate H |]). exact H.
  - vm_compute. intros H. repeat (destruct H as [H | H]; [discriminate H |]). exact H.
Defined.

(** C1, counterexample: the header rule removes one run of hashes per
    line and pass, so [# # a] becomes [# a] and only then [a]. *)
Lemma clean_markdown_text_not_idempotent :
  clean_markdown_text (py "# # a") = py "# a" /\
  clean_markdown_text (py "# a") = py "a" /\
  clean_markdown_text (clean_markdown_text (py "# # a"))
  <> clean_markdown_text (py "# # a").
Proof. repeat split; vm_compute; congruence. Qed.

(** Underscore spans left by the underscore rules are removed by a second
    pass as well. *)
Lemma clean_markdown_text_underscore_twice :
  clean_markdown_text (py "__a_b_") = py "_ab_" /\
  clean_markdown_text (py "_ab_") = py "ab".
Proof. split; vm_compute; reflexivity. Qed.

(** The normaliser examples of the specification. *)
Lemma clean_markdown_text_examples :
  clean_markdown_text (py "2024 Q1 plan") = py "2024 Q1 plan" /\
  clean_markdown_text (py "**a *b* c**") = py "a b c" /\
  clean_markdown_text (py "### Title") = py "Title".
Proof. repeat split; vm_compute; reflexivity. Qed.

(** * Further properties *)

(** ** The matcher, continued *)

Lemma rep_group_ok (body : mstate -> list mstate) (greedy : bool) :
  (forall st st', In st' (body st) -> group_ok st -> group_ok st') ->
  forall (fuel lo : nat) (hi : option nat) (st st' : mstate),
    In st' (rep fuel greedy lo hi body st) -> group_ok st -> group_ok st'.
Proof.
  intros Hbody fuel.
  induction fuel as [| f IH]; intros lo hi st st' Hin Hok; [destruct Hin |].
  cbn [rep] in Hin. destruct lo as [| lo'].
  - destruct (hi_is_zero hi).
    + destruct Hin as [<- | []]. exact Hok.
    + assert (Hmore : forall x,
                 In x (concat (map (rep f greedy 0 (dec_hi hi) body)
                                   (List.filter (progress st) (body st)))) ->
                 group_ok x).
      { intros x Hx. apply in_concat in Hx as (l & Hl & Hx).
        apply in_map_iff in Hl as (st1 & <- & Hst1).
        apply filter_In in Hst1 as [Hst1 _].
        eapply IH; [exact Hx | eapply Hbody; eauto]. }
      destruct greedy.
      * apply in_app_or in Hin as [Hin | [<- | []]]; [now apply Hmore | exact Hok].
      * destruct Hin as [<- | Hin]; [exact Hok | now apply Hmore].
  - apply in_concat in Hin as (l & Hl & Hx).
    apply in_map_iff in Hl as (st1 & <- & Hst1).
    eapply IH; [exact Hx | eapply Hbody; eauto].
Qed.

(** Whatever a match captures in group 1 is part of what it has read. *)
Lemma rmatch_group_ok (r : regex) :
  forall st st', In st' (rmatch r st) -> group_ok st -> group_ok st'.
Proof.
  induction r as [p | | | r1 IH1 r2 IH2 | r IH | greedy lo hi r IH];
    intros st st' Hin Hok; cbn [rmatch] in Hin.
  - unfold step_chr in Hin. destruct (rest st) as [| c tl]; [destruct Hin |].
    destruct (p c); [| destruct Hin]. destruct Hin as [<- | []].
    unfold group_ok in *. cbn. now apply sublist_inserts_r.
  - destruct (at_line_start st); [| destruct Hin].
    destruct Hin as [<- | []]. exact Hok.
  - destruct (at_string_start st); [| destruct Hin].
    destruct Hin as [<- | []]. exact Hok.
  - apply in_concat in Hin as (l & Hl & Hx).
    apply in_map_iff in Hl as (st1 & <- & Hst1). eauto.
  - apply in_map_iff in Hin as (st0 & <- & Hst0).
    destruct (rmatch_consumes r st st0 Hst0) as (d & _ & Hc).
    unfold group_ok, close_group. cbn [group1 consumed]. rewrite Hc.
    rewrite length_app, length_rev.
    replace (length d + length (consumed st) - length (consumed st))
      with (length (rev d)) by (rewrite length_rev; lia).
    rewrite take_app_length, rev_involutive, rev_app_distr, rev_involutive.
    now apply sublist_inserts_l.
  - eapply rep_group_ok; eauto.
Qed.

Lemma search_group_ok (r : regex) (b : option N) (s pre : list N) (st : mstate) :
  search r b s = Some (pre, st) -> group_ok st.
Proof.
  intros Hs. apply search_is_match in Hs as (b' & s' & Hin).
  eapply rmatch_group_ok; [exact Hin |]. apply sublist_nil_l.
Qed.

(** A substitution whose replacement is part of the matched text only
    deletes characters. *)
Lemma sub_go_sublist (r : regex) (repl : mstate -> list N) :
  (forall st, group_ok st -> repl st `sublist_of` rev (consumed st)) ->
  forall (fuel : nat) (cnt : option nat) (b : option N) (s : list N),
    sub_go fuel r repl cnt b s `sublist_of` s.
Proof.
  intros Hrepl fuel.
  induction fuel as [| f IH]; intros cnt b s; cbn [sub_go]; [reflexivity |].
  destruct (count_left cnt); [| reflexivity].
  destruct (search r b s) as [[pre st] |] eqn:E; [| reflexivity].
  pose proof (search_consumes r s b pre st E) as Hs.
  pose proof (search_group_ok r b s pre st E) as Hok.
  destruct (consumed st) as [| c0 cs] eqn:Ec; [reflexivity |].
  rewrite Hs, <- Ec.
  apply sublist_app; [reflexivity |].
  apply sublist_app; [now apply Hrepl | apply IH].
Qed.

Lemma re_sub_backref_sublist (r : regex) (s : list N) :
  re_sub r backref1 s `sublist_of` s.
Proof. apply sub_go_sublist. intros st Hok. exact Hok. Qed.

Lemma re_sub_delete_sublist (r : regex) (s : list N) :
  re_sub r (literal []) s `sublist_of` s.
Proof. apply sub_go_sublist. intros st _. apply sublist_nil_l. Qed.

Lemma sublist_rev (l1 l2 : list N) :
  l1 `sublist_of` l2 -> rev l1 `sublist_of` rev l2.
Proof.
  induction 1 as [| x l1 l2 _ IH | x l1 l2 _ IH]; cbn [rev].
  - reflexivity.
  - now apply sublist_app.
  - now apply sublist_inserts_r.
Qed.

Lemma lstrip_sublist (s : list N) : lstrip s `sublist_of` s.
Proof.
  induction s as [| c tl IH]; cbn [lstrip]; [reflexivity |].
  destruct (is_space c); [now apply sublist_cons | reflexivity].
Qed.

Lemma strip_sublist (s : list N) : strip s `sublist_of` s.
Proof.
  unfold strip, rstrip. etransitivity; [| apply lstrip_sublist].
  rewrite <- (rev_involutive (lstrip s)) at 2.
  apply sublist_rev, lstrip_sublist.
Qed.

(** ** Markdown normaliser, continued *)

Lemma clean_markdown_text_sublist (s : list N) :
  clean_markdown_text s `sublist_of` s.
Proof.
  unfold clean_markdown_text.
  etransitivity; [apply strip_sublist |].
  etransitivity; [apply re_sub_delete_sublist |].
  etransitivity; [apply re_sub_delete_sublist |].
  etransitivity; [apply re_sub_backref_sublist |].
  etransitivity; [apply re_sub_backref_sublist |].
  etransitivity; [apply re_sub_backref_sublist |].
  etransitivity; [apply re_sub_backref_sublist |].
  apply re_sub_backref_sublist.
Qed.

Lemma clean_markdown_text_In (c : N) (s : list N) :
  In c (clean_markdown_text s) -> In c s.
Proof.
  intros H. apply list_elem_of_In. apply list_elem_of_In in H.
  eapply elem_of_sublist; [exact H | apply clean_markdown_text_sublist].
Qed.

(** X1: the normaliser only deletes characters: its output is the input
    with some characters left out, in the same order. *)
Theorem clean_markdown_text_only_deletes (s : list N) :
  clean_markdown_text s `sublist_of` s.
Proof.
  unfold clean_markdown_text.
  etransitivity; [apply strip_sublist |].
  etransitivity; [apply re_sub_delete_sublist |].
  etransitivity; [apply re_sub_delete_sublist |].
  etransitivity; [apply re_sub_backref_sublist |].
  etransitivity; [apply re_sub_backref_sublist |].
  etransitivity; [apply re_sub_backref_sublist |].
  etransitivity; [apply re_sub_backref_sublist |].
  apply re_sub_backref_sublist.
Qed.

Lemma strip_first (s : list N) (c : N) (tl : list N) :
  strip s = c :: tl -> is_space c = false.
Proof.
  unfold strip. pose proof (lstrip_head s) as H.
  destruct (lstrip s) as [| x v]; [discriminate |].
  rewrite (rstrip_cons x v H). intros E. injection E as <- _. exact H.
Qed.

Lemma strip_last (s : list N) (c : N) (pre : list N) :
  strip s = pre ++ [c] -> is_space c = false.
Proof.
  unfold strip, rstrip. intros E.
  apply (f_equal (@rev N)) in E. rewrite rev_involutive, rev_app_distr in E.
  cbn in E. pose proof (lstrip_head (rev (lstrip s))) as H.
  now rewrite E in H.
Qed.

(** X2: the output of the normaliser contains no asterisk, whatever the
    input. *)
Theorem clean_markdown_text_never_leaves_asterisk (s : list N) :
  Forall (fun c => c <> STAR) (clean_markdown_text s).
Proof.
  apply List.Forall_forall. intros c Hin ->.
  exact (clean_markdown_text_no_star s Hin).
Qed.

(** X3: the output of the normaliser neither starts nor ends with a
    whitespace character. *)
Theorem clean_markdown_text_is_trimmed (s : list N) :
  (forall c tl, clean_markdown_text s = c :: tl -> is_space c = false) /\
  (forall c pre, clean_markdown_text s = pre ++ [c] -> is_space c = false).
Proof.
  unfold clean_markdown_text. split.
  - intros c tl. apply strip_first.
  - intros c pre. apply strip_last.
Qed.

(** X4: text without asterisk, underscore and hash passes through with
    only its outer whitespace removed. *)
Theorem clean_markdown_text_passes_plain_text (s : list N) :
  ~ In STAR s -> ~ In USCORE s -> ~ In HASH s ->
  clean_markdown_text s = strip s.
Proof. apply clean_markdown_text_plain. Qed.

Lemma clean_markdown_text_passes_plain_text_witness :
  clean_markdown_text (py "  2024 Q1 plan: 50% done ") = strip (py "  2024 Q1 plan: 50% done ").
Proof.
  apply (clean_markdown_text_passes_plain_text (py "  2024 Q1 plan: 50% done "));
    vm_compute; intros H;
    repeat (destruct H as [H | H]; [discriminate H |]); exact H.
Defined.

(** ** String methods *)

Lemma split_go_chars (sep : list N) (s : list N) :
  forall (cur : list N) (skip : nat) (piece : list N) (c : N),
    In piece (split_go sep s cur skip) -> In c piece -> In c cur \/ In c s.
Proof.
  induction s as [| x tl IH]; intros cur skip piece c Hp Hc; cbn [split_go] in Hp.
  - destruct Hp as [<- | []]. left. now apply in_rev.
  - destruct skip as [| k].
    + destruct (startswith sep (x :: tl)).
      * destruct Hp as [<- | Hp]; [left; now apply in_rev |].
        destruct (IH _ _ _ _ Hp Hc) as [[] | H]. right. now right.
      * destruct (IH _ _ _ _ Hp Hc) as [[<- | H] | H].
        -- right. now left.
        -- now left.
        -- right. now right.
    + destruct (IH _ _ _ _ Hp Hc) as [H | H]; [now left | right; now right].
Qed.

(** The pieces of a split consist of characters of the string. *)
Lemma split_chars (sep s piece : list N) (c : N) :
  In piece (split sep s) -> In c piece -> In c s.
Proof.
  intros Hp Hc. destruct (split_go_chars sep s [] 0 piece c Hp Hc) as [[] | H].
  exact H.
Qed.

Lemma split_go_char_free (x : N) (s : list N) :
  forall (cur piece : list N),
    In piece (split_go [x] s cur 0) -> ~ In x cur -> ~ In x piece.
Proof.
  induction s as [| c tl IH]; intros cur piece Hp Hcur; cbn [split_go] in Hp.
  - destruct Hp as [<- | []]. intros H. now apply in_rev in H.
  - cbn [startswith length Nat.sub] in Hp. unfold chr_eqb in Hp.
    destruct (N.eqb_spec x c) as [E | Hne].
    + destruct tl as [| y tl']; cbn [andb] in Hp;
        (destruct Hp as [<- | Hp];
         [intros H; now apply in_rev in H | eapply IH; [exact Hp | intros []]]).
    + cbn [andb] in Hp. eapply IH; [exact Hp |].
      intros [H | H]; [congruence | now apply Hcur].
Qed.

(** The pieces of a split at a single character do not contain it. *)
Lemma split_char_free (x : N) (s piece : list N) :
  In piece (split [x] s) -> ~ In x piece.
Proof. intros Hp. eapply split_go_char_free; [exact Hp | intros []]. Qed.

Lemma contains_char_false (x : N) (s : list N) :
  ~ In x s -> contains [x] s = false.
Proof.
  induction s as [| c tl IH]; intros H; [reflexivity |].
  cbn [contains startswith]. unfold chr_eqb.
  destruct (N.eqb_spec x c) as [E | _].
  - exfalso. apply H. left. now symmetry.
  - cbn [andb orb]. apply IH. intros Hin. apply H. now right.
Qed.

Lemma strip_In_not (x : N) (s : list N) : ~ In x s -> ~ In x (strip s).
Proof. intros H Hin. apply H. now apply strip_In. Qed.

(** ** Table extractor, continued *)

Lemma parse_lines_cons (l : list N) (tl : list (list N)) :
  parse_lines (l :: tl)
  = if contains [PIPE] (strip l) && (2 <=? count [PIPE] (strip l))
    then emit_table (fst (collect_rows tl (add_row l [])))
                    (parse_lines (snd (collect_rows tl (add_row l []))))
    else parse_lines tl.
Proof.
  cbn [parse_lines].
  destruct (contains [PIPE] (strip l) && (2 <=? count [PIPE] (strip l)));
    [| reflexivity].
  generalize (add_row l []) as rows.
  induction tl as [| l' tl' IH]; intros rows; [reflexivity |].
  cbn [collect_rows]. destruct (contains [PIPE] l'); [apply IH | reflexivity].
Qed.

Lemma collect_rows_rest_length (ls : list (list N)) :
  forall rows, length (snd (collect_rows ls rows)) <= length ls.
Proof.
  induction ls as [| l tl IH]; intros rows; cbn [collect_rows]; [cbn; lia |].
  destruct (contains [PIPE] l); [| cbn; lia].
  specialize (IH (add_row l rows)). cbn [length]. lia.
Qed.

Lemma collect_rows_rest_suffix (ls : list (list N)) :
  forall rows l, In l (snd (collect_rows ls rows)) -> In l ls.
Proof.
  induction ls as [| l0 tl IH]; intros rows l; cbn [collect_rows]; [tauto |].
  destruct (contains [PIPE] l0); [| tauto].
  intros H. right. eapply IH, H.
Qed.

Lemma row_cells_ok (row : list N) :
  ~ In NL row -> Forall cell_ok (row_cells row).
Proof.
  intros Hnl. apply List.Forall_forall. intros c Hc.
  unfold row_cells in Hc. apply in_map_iff in Hc as (piece & <- & Hin).
  apply filter_In in Hin as [Hin Hne].
  repeat split.
  - destruct (strip piece); [discriminate | congruence].
  - apply strip_idem.
  - apply strip_In_not. eapply split_char_free; eauto.
  - apply strip_In_not. intros H. apply Hnl. eapply split_chars; eauto.
Qed.

Lemma add_row_ok (line : list N) (rows : list (list (list N))) :
  ~ In NL line -> Forall row_ok rows -> Forall row_ok (add_row line rows).
Proof.
  intros Hnl Hrows. unfold add_row.
  destruct (nonempty (strip line) && negb (is_separator (strip line)));
    [| exact Hrows].
  destruct (row_cells (strip line)) as [| c cs] eqn:E; [exact Hrows |].
  cbn [nonempty]. apply Forall_app_2; [exact Hrows |].
  apply List.Forall_cons; [| apply List.Forall_nil]. split; [discriminate |].
  rewrite <- E. apply row_cells_ok. now apply strip_In_not.
Qed.

Lemma collect_rows_ok (ls : list (list N)) :
  forall rows,
    Forall (fun l => ~ In NL l) ls -> Forall row_ok rows ->
    Forall row_ok (fst (collect_rows ls rows)).
Proof.
  induction ls as [| l tl IH]; intros rows Hls Hrows; cbn [collect_rows];
    [exact Hrows |].
  apply List.Forall_cons_iff in Hls as [Hl Htl].
  destruct (contains [PIPE] l); [| exact Hrows].
  apply IH; [exact Htl | now apply add_row_ok].
Qed.

Lemma parse_lines_ok (n : nat) :
  forall lines,
    length lines <= n -> Forall (fun l => ~ In NL l) lines ->
    Forall table_ok (parse_lines lines).
Proof.
  induction n as [| n IH]; intros lines Hlen Hls.
  - destruct lines; [apply List.Forall_nil | cbn in Hlen; lia].
  - destruct lines as [| l tl]; [apply List.Forall_nil |].
    rewrite parse_lines_cons.
    apply List.Forall_cons_iff in Hls as [Hl Htl]. cbn [length] in Hlen.
    destruct (contains [PIPE] (strip l) && (2 <=? count [PIPE] (strip l))).
    + assert (Hrest : Forall table_ok
                        (parse_lines (snd (collect_rows tl (add_row l []))))).
      { apply IH.
        - pose proof (collect_rows_rest_length tl (add_row l [])). lia.
        - apply List.Forall_forall. intros x Hx.
          apply collect_rows_rest_suffix in Hx.
          rewrite List.Forall_forall in Htl. now apply Htl. }
      unfold emit_table.
      destruct (fst (collect_rows tl (add_row l []))) as [| r rs] eqn:E;
        [exact Hrest |].
      cbn [nonempty]. apply List.Forall_cons; [| exact Hrest].
      split; [discriminate |]. rewrite <- E.
      apply collect_rows_ok; [exact Htl |].
      apply add_row_ok; [exact Hl | apply List.Forall_nil].
    + apply IH; [lia | exact Htl].
Qed.

Lemma parse_markdown_table_tables_ok (content : list N) :
  Forall table_ok (parse_markdown_table content).
Proof.
  unfold parse_markdown_table.
  apply (parse_lines_ok (length (split [NL] content))); [lia |].
  apply List.Forall_forall. intros l Hl. eapply split_char_free; eauto.
Qed.

(** X5: every table that the extractor returns has at least one row, every
    row has at least one cell, and every cell is non-empty, trimmed and
    free of pipes and line breaks. *)
Theorem parse_markdown_table_well_formed (content : list N)
    (table : list (list (list N))) :
  In table (parse_markdown_table content) ->
  table <> [] /\
  forall row, In row table ->
    row <> [] /\
    forall c, In c row ->
      c <> [] /\ strip c = c /\ ~ In PIPE c /\ ~ In NL c.
Proof.
  intros Hin.
  pose proof (parse_markdown_table_tables_ok content) as H.
  rewrite List.Forall_forall in H. destruct (H table Hin) as [Hne Hrows].
  split; [exact Hne |]. intros row Hrow.
  rewrite List.Forall_forall in Hrows. destruct (Hrows row Hrow) as [Hrne Hcells].
  split; [exact Hrne |]. intros c Hc.
  rewrite List.Forall_forall in Hcells. exact (Hcells c Hc).
Qed.

Lemma parse_markdown_table_well_formed_witness :
  [[py "A"; py "B"]; [py "1"; py "2"]] <> [] /\
  forall row, In row [[py "A"; py "B"]; [py "1"; py "2"]] ->
    row <> [] /\
    forall c, In c row ->
      c <> [] /\ strip c = c /\ ~ In PIPE c /\ ~ In NL c.
Proof.
  apply (parse_markdown_table_well_formed content_intro_table_outro
           [[py "A"; py "B"]; [py "1"; py "2"]]).
  vm_compute. now left.
Defined.

Lemma parse_lines_no_pipe (lines : list (list N)) :
  Forall (fun l => ~ In PIPE l) lines -> parse_lines lines = [].
Proof.
  induction lines as [| l tl IH]; intros H; [reflexivity |].
  apply List.Forall_cons_iff in H as [Hl Htl].
  rewrite parse_lines_cons.
  rewrite (contains_char_false PIPE (strip l)) by now apply strip_In_not.
  cbn [andb]. now apply IH.
Qed.

(** ** Greedy repetition of a character class *)

Lemma rmatch_seq (r1 r2 : regex) (st : mstate) :
  rmatch (Seq r1 r2) st = concat (map (rmatch r2) (rmatch r1 st)).
Proof. reflexivity. Qed.

Lemma rmatch_chr (p : N -> bool) (st : mstate) :
  rmatch (Chr p) st = step_chr p st.
Proof. reflexivity. Qed.

Lemma rep_class (p : N -> bool) (s : list N) :
  forall (fuel : nat) (b : option N) (cons g : list N),
    length s < fuel ->
    rep fuel true 0 None (rmatch (Chr p)) (MState b cons g s)
    = greedy_states p b cons g s.
Proof.
  induction s as [| c tl IH]; intros fuel b cons g Hfuel;
    (destruct fuel as [| f]; [cbn in Hfuel; lia |]).
  - reflexivity.
  - cbn [rep hi_is_zero greedy_states]. change (dec_hi None) with (@None nat).
    rewrite rmatch_chr. unfold step_chr. cbn [rest consumed group1].
    destruct (p c); [| reflexivity].
    cbn [List.filter]. unfold progress. cbn [rest length].
    rewrite (proj2 (Nat.ltb_lt _ _)) by lia.
    cbn [map concat]. rewrite app_nil_r.
    rewrite IH by (cbn in Hfuel; lia). reflexivity.
Qed.

(** [p+] reads one class character and then as many more as there are,
    giving them back one by one when the rest of the pattern fails. *)
Lemma rmatch_plus_class (p : N -> bool) (b : option N) (cons g s : list N) :
  rmatch (plus (Chr p)) (MState b cons g s)
  = match s with
    | c :: tl => if p c then greedy_states p (Some c) (c :: cons) g tl else []
    | [] => []
    end.
Proof.
  unfold plus. cbn [rmatch rep rest]. change (dec_hi None) with (@None nat).
  unfold step_chr. cbn [rest consumed group1].
  destruct s as [| c tl]; [reflexivity |].
  destruct (p c); [| reflexivity].
  cbn [map concat]. rewrite app_nil_r. apply rep_class. cbn [length]. lia.
Qed.

Lemma greedy_states_base (p : N -> bool) (b : option N) (cons g s : list N) :
  In (MState b cons g s) (greedy_states p b cons g s).
Proof.
  destruct s as [| c tl]; cbn [greedy_states]; [now left |].
  destruct (p c); [apply in_or_app; right |]; now left.
Qed.

Lemma greedy_states_head (p : N -> bool) (s : list N) :
  forall (b : option N) (cons g : list N),
    exists st l, greedy_states p b cons g s = st :: l.
Proof.
  induction s as [| c tl IH]; intros b cons g; cbn [greedy_states]; [eauto |].
  destruct (p c); [| eauto].
  destruct (IH (Some c) (c :: cons) g) as (st & l & ->). cbn [app]. eauto.
Qed.

Lemma greedy_states_in (p : N -> bool) (s : list N) :
  forall (b : option N) (cons g : list N) (st : mstate),
    In st (greedy_states p b cons g s) ->
    exists run, s = run ++ rest st /\ forallb p run = true.
Proof.
  induction s as [| c tl IH]; intros b cons g st Hin; cbn [greedy_states] in Hin.
  - destruct Hin as [<- | []]. now exists [].
  - destruct (p c) eqn:E.
    + apply in_app_or in Hin as [Hin | [<- | []]]; [| now exists []].
      destruct (IH _ _ _ _ Hin) as (run & -> & Hrun).
      exists (c :: run). cbn [forallb app]. now rewrite E, Hrun.
    + destruct Hin as [<- | []]. now exists [].
Qed.

Lemma greedy_states_reach (p : N -> bool) (run tail : list N) :
  forallb p run = true ->
  forall (b : option N) (cons g : list N),
    exists b' cons', In (MState b' cons' g tail)
                        (greedy_states p b cons g (run ++ tail)).
Proof.
  induction run as [| c r IH]; intros Hrun b cons g.
  - exists b, cons. apply greedy_states_base.
  - cbn [forallb] in Hrun. apply andb_true_iff in Hrun as [Hc Hr].
    cbn [app greedy_states]. rewrite Hc.
    destruct (IH Hr (Some c) (c :: cons) g) as (b' & cons' & Hin).
    exists b', cons'. apply in_or_app. now left.
Qed.

Lemma concat_map_nonempty {A B} (f : A -> list B) (l : list A) :
  concat (map f l) <> [] <-> exists x, In x l /\ f x <> [].
Proof.
  induction l as [| a l IH]; cbn [map concat].
  - split; [congruence | intros (x & [] & _)].
  - split.
    + intros H. destruct (f a) eqn:E.
      * cbn in H. apply IH in H as (x & Hx & Hfx). exists x. split; [now right | exact Hfx].
      * exists a. split; [now left | congruence].
    + intros (x & [-> | Hx] & Hfx) H; apply app_eq_nil in H as [H1 H2].
      * contradiction.
      * apply (proj2 IH); eauto.
Qed.

(** ** Separator rows *)

Lemma rmatch_separator (row : list N) :
  rmatch re_separator (init None row)
  = match row with
    | c :: tl =>
        if chr_eqb PIPE c
        then match tl with
             | d :: tl' =>
                 if separator_char d
                 then concat (map (rmatch (lit PIPE))
                                  (greedy_states separator_char (Some d) [d; c] [] tl'))
                 else []
             | [] => []
             end
        else []
    | [] => []
    end.
Proof.
  unfold re_separator. cbn [seqs]. rewrite rmatch_seq.
  change (rmatch Bos (init None row)) with [init None row].
  cbn [map concat]. rewrite app_nil_r, rmatch_seq, rmatch_lit.
  unfold step_chr, init. cbn [rest consumed group1].
  destruct row as [| c tl]; [reflexivity |].
  destruct (chr_eqb PIPE c); [| reflexivity].
  cbn [map concat]. rewrite app_nil_r, rmatch_seq.
  change (Chr (fun c0 => is_space c0 || chr_eqb c0 DASH || chr_eqb c0 COLON))
    with (Chr separator_char).
  rewrite rmatch_plus_class. destruct tl as [| d tl']; [reflexivity |].
  destruct (separator_char d); reflexivity.
Qed.

(** X7: the separator test accepts a row exactly when the row starts with
    a pipe, one or more whitespace, dash or colon characters, and a second
    pipe; what follows the second pipe is not looked at. *)
Theorem is_separator_iff_prefix (row : list N) :
  is_separator row = true <->
  exists run tail,
    run <> [] /\ forallb separator_char run = true /\
    row = PIPE :: run ++ PIPE :: tail.
Proof.
  unfold is_separator, re_match. rewrite rmatch_separator. split.
  - destruct row as [| c tl]; [discriminate |]. unfold chr_eqb.
    destruct (N.eqb_spec PIPE c) as [<- | _]; [| discriminate].
    destruct tl as [| d tl']; [discriminate |].
    destruct (separator_char d) eqn:Ed; [| discriminate].
    destruct (concat _) as [| st l] eqn:E; [discriminate |]. intros _.
    assert (Hne : concat (map (rmatch (lit PIPE))
                    (greedy_states separator_char (Some d) [d; PIPE] [] tl')) <> [])
      by (rewrite E; discriminate).
    apply concat_map_nonempty in Hne as (st0 & Hin & Hm).
    apply greedy_states_in in Hin as (run & -> & Hrun).
    rewrite rmatch_lit in Hm. unfold step_chr in Hm.
    destruct (rest st0) as [| x tail]; [congruence |].
    unfold chr_eqb in Hm. destruct (N.eqb_spec PIPE x) as [<- | _]; [| congruence].
    exists (d :: run), tail. repeat split; [discriminate |].
    cbn [forallb]. now rewrite Ed, Hrun.
  - intros (run & tail & Hne & Hrun & ->).
    destruct run as [| d r]; [congruence |].
    cbn [forallb] in Hrun. apply andb_true_iff in Hrun as [Hd Hr].
    unfold chr_eqb. rewrite N.eqb_refl. cbn [app]. rewrite Hd.
    destruct (greedy_states_reach separator_char r (PIPE :: tail) Hr
                (Some d) [d; PIPE] []) as (b' & cons' & Hin).
    destruct (concat _) as [| st l] eqn:E; [| reflexivity].
    exfalso. revert E. apply concat_map_nonempty.
    eexists. split; [exact Hin |].
    rewrite rmatch_lit. unfold step_chr. cbn [rest]. unfold chr_eqb.
    rewrite N.eqb_refl. discriminate.
Qed.

(** ** Content block composer, continued *)

Lemma add_table_to_doc_frame (doc : list element) (table : list (list (list N))) :
  add_table_to_doc doc table = app doc <$> add_table_to_doc [] table.
Proof.
  destruct table as [| first more].
  - cbn. now rewrite app_nil_r.
  - rewrite !add_table_to_doc_spec.
    destruct (check_rows _ _) as [[] | | |]; reflexivity.
Qed.

(** One turn of the loop of add_formatted_content. *)
Lemma add_paragraphs_cons (tables : list (list (list (list N))))
    (para_text : list N) (more : list (list N)) (table_index : nat)
    (doc : list element) :
  add_paragraphs tables (para_text :: more) table_index doc
  = if negb (nonempty (strip para_text)) then
      add_paragraphs tables more table_index doc
    else if contains TABLE_PLACEHOLDER para_text then
      match tables !! table_index with
      | Some table =>
          doc' ← add_table_to_doc doc table;
          add_paragraphs tables more (S table_index)
                         (doc' ++ [Paragraph Plain []])
      | None => add_paragraphs tables more table_index doc
      end
    else
      doc' ← add_paragraph doc (fst (text_block para_text))
                           (snd (text_block para_text));
      add_paragraphs tables more table_index doc'.
Proof.
  cbn [add_paragraphs]. unfold text_block.
  destruct (negb _); [reflexivity |].
  destruct (contains _ _); [reflexivity |].
  destruct (startswith (py "###") _); [reflexivity |].
  destruct (startswith (py "##") _); reflexivity.
Qed.

(** Adding a paragraph and going on: either the text is stored and the
    rest runs on the longer document, or ValueError is raised. *)
Lemma add_paragraph_bind {B} (doc : list element) (style : para_style)
    (t : list N) (k : list element -> result B) :
  (xml_compatible t = true /\
   (doc' ← add_paragraph doc style t; k doc') = k (doc ++ [Paragraph style t]))
  \/ (xml_compatible t = false /\
      (doc' ← add_paragraph doc style t; k doc') = ValueError).
Proof.
  unfold add_paragraph, store.
  destruct (xml_compatible t); [left | right]; split; reflexivity.
Qed.

Lemma text_block_is_text_block (para_text : list N) :
  is_text_block (Paragraph (fst (text_block para_text))
                           (snd (text_block para_text))) = true.
Proof.
  unfold text_block.
  destruct (startswith (py "###") _); [reflexivity |].
  destruct (startswith (py "##") _); reflexivity.
Qed.

Lemma replace_go_delete_In (old s : list N) (c : N) :
  forall skip, In c (replace_go old [] s skip) -> In c s.
Proof.
  induction s as [| x tl IH]; intros skip H; cbn [replace_go] in H; [exact H |].
  destruct skip as [| k]; [| right; eapply IH, H].
  destruct (startswith old (x :: tl)).
  - cbn [app] in H. right. eapply IH, H.
  - destruct H as [<- | H]; [now left | right; eapply IH, H].
Qed.

(** The text of the paragraph is made of characters of the normalised
    candidate, hence of the candidate. *)
Lemma text_block_In_clean (c : N) (para_text : list N) :
  In c (snd (text_block para_text)) -> In c (clean_markdown_text para_text).
Proof.
  unfold text_block.
  destruct (startswith (py "###") _);
    [cbn [snd]; intros H; apply strip_In in H;
     exact (replace_go_delete_In _ _ _ _ H) |].
  destruct (startswith (py "##") _);
    [cbn [snd]; intros H; apply strip_In in H;
     exact (replace_go_delete_In _ _ _ _ H) |].
  cbn [snd]. auto.
Qed.

Lemma text_block_In (c : N) (para_text : list N) :
  In c (snd (text_block para_text)) -> In c para_text.
Proof. intros H. now apply clean_markdown_text_In, text_block_In_clean. Qed.

(** Text made of characters of storable text is storable. *)
Lemma xml_compatible_incl (t t' : list N) :
  (forall c, In c t' -> In c t) ->
  xml_compatible t = true -> xml_compatible t' = true.
Proof.
  unfold xml_compatible. rewrite !forallb_forall. auto.
Qed.

Lemma strip_xml_compatible (t : list N) :
  xml_compatible t = true -> xml_compatible (strip t) = true.
Proof. apply xml_compatible_incl. intros c. apply strip_In. Qed.

Lemma add_paragraph_ok (doc : list element) (style : para_style) (t : list N) :
  xml_compatible t = true ->
  add_paragraph doc style t = Ok (doc ++ [Paragraph style t]).
Proof. intros H. unfold add_paragraph. now rewrite store_ok. Qed.

Lemma result_bind_ret {A} (m : result A) : (a ← m; Ok a) = m.
Proof. destruct m; reflexivity. Qed.

Lemma add_paragraphs_frame (tables : list (list (list (list N))))
    (paragraphs : list (list N)) :
  forall (table_index : nat) (doc : list element),
    add_paragraphs tables paragraphs table_index doc
    = app doc <$> add_paragraphs tables paragraphs table_index [].
Proof.
  induction paragraphs as [| para_text more IH]; intros table_index doc.
  - cbn. now rewrite app_nil_r.
  - assert (Hstep : forall idx d1,
               add_paragraphs tables more idx (doc ++ d1)
               = app doc <$> add_paragraphs tables more idx d1).
    { intros idx d1. rewrite (IH idx (doc ++ d1)), (IH idx d1).
      destruct (add_paragraphs tables more idx []); cbn; try reflexivity.
      now rewrite app_assoc. }
    rewrite !add_paragraphs_cons.
    destruct (negb (nonempty (strip para_text))); [apply IH |].
    destruct (contains TABLE_PLACEHOLDER para_text).
    + destruct (tables !! table_index) as [table |]; [| apply IH].
      rewrite (add_table_to_doc_frame doc table).
      destruct (add_table_to_doc [] table) as [d0 | | |]; cbn;
        try reflexivity.
      rewrite <- app_assoc. apply Hstep.
    + unfold add_paragraph.
      destruct (store _) as [t | | |]; cbn [mbind result_bind];
        try reflexivity.
      apply Hstep.
Qed.

(** X8: add_formatted_content only appends to the document, and what it
    appends, or whether it raises, does not depend on the document so
    far. *)
Theorem add_formatted_content_frame (doc : list element) (content : list N) :
  add_formatted_content doc content
  = app doc <$> add_formatted_content [] content.
Proof. unfold add_formatted_content. apply add_paragraphs_frame. Qed.

Lemma add_paragraphs_no_tables (paragraphs : list (list N)) :
  Forall (fun p => xml_compatible p = true) paragraphs ->
  forall (table_index : nat) (doc : list element),
    exists added,
      add_paragraphs [] paragraphs table_index doc = Ok (doc ++ added) /\
      forallb is_text_block added = true.
Proof.
  induction 1 as [| para_text more Hp _ IH]; intros table_index doc.
  - exists []. cbn. now rewrite app_nil_r.
  - rewrite add_paragraphs_cons.
    destruct (negb (nonempty (strip para_text))); [apply IH |].
    destruct (contains TABLE_PLACEHOLDER para_text).
    + rewrite lookup_nil. apply IH.
    + destruct (add_paragraph_bind doc (fst (text_block para_text))
                  (snd (text_block para_text))
                  (add_paragraphs [] more table_index))
        as [[_ ->] | [Hbad _]].
      * destruct (IH table_index
                    (doc ++ [Paragraph (fst (text_block para_text))
                                       (snd (text_block para_text))]))
          as (added & Heq & Hall).
        eexists (_ :: added). rewrite Heq, <- app_assoc. cbn [app forallb].
        split; [reflexivity |].
        now rewrite text_block_is_text_block, Hall.
      * assert (Hgood : xml_compatible (snd (text_block para_text)) = true).
        { apply (xml_compatible_incl para_text); [| exact Hp].
          intros c. apply text_block_In. }
        congruence.
Qed.

(** The candidates of storable content are storable. *)
Lemma split_xml_compatible (sep content : list N) :
  xml_compatible content = true ->
  Forall (fun p => xml_compatible p = true) (split sep content).
Proof.
  intros H. apply List.Forall_forall. intros piece Hin.
  apply (xml_compatible_incl content); [| exact H].
  intros c Hc. exact (split_chars sep content piece c Hin Hc).
Qed.

(** X9: when the extractor finds no table in content that the document can
    store (no control character other than tab, line feed and carriage
    return, no surrogate, U+FFFE or U+FFFF), composing does not raise and
    appends only text paragraphs (body or heading style): no table and no
    spacing paragraph. *)
Theorem add_formatted_content_without_tables
    (doc : list element) (content : list N) :
  parse_markdown_table content = [] ->
  xml_compatible content = true ->
  exists added,
    add_formatted_content doc content = Ok (doc ++ added) /\
    forallb is_text_block added = true.
Proof.
  intros H Hx. unfold add_formatted_content. rewrite H.
  cbn [remove_tables fold_left].
  now apply add_paragraphs_no_tables, split_xml_compatible.
Qed.

Lemma add_formatted_content_without_tables_witness :
  exists added,
    add_formatted_content [PageBreak] (lines_of ["Intro"; EmptyString; "###Plan"]%string)
    = Ok ([PageBreak] ++ added) /\
    forallb is_text_block added = true.
Proof.
  apply (add_formatted_content_without_tables [PageBreak]
           (lines_of ["Intro"; EmptyString; "###Plan"]%string)).
  - vm_compute. reflexivity.
  - vm_compute. reflexivity.
Defined.

(** Without that condition the call can raise: the vertical tab cannot be
    stored. *)
Lemma add_formatted_content_control_character :
  parse_markdown_table (py "a" ++ [11%N] ++ py "b") = [] /\
  add_formatted_content [] (py "a" ++ [11%N] ++ py "b") = ValueError.
Proof. split; vm_compute; reflexivity. Qed.

Lemma add_paragraphs_fit (tables : list (list (list (list N))))
    (paragraphs : list (list N)) :
  forallb rows_fit tables = true ->
  forall (table_index : nat) (doc : list element),
    add_paragraphs tables paragraphs table_index doc <> IndexError.
Proof.
  intros Hfit.
  induction paragraphs as [| para_text more IH]; intros table_index doc.
  - discriminate.
  - rewrite add_paragraphs_cons.
    destruct (negb (nonempty (strip para_text))); [apply IH |].
    destruct (contains TABLE_PLACEHOLDER para_text).
    + destruct (tables !! table_index) as [table |] eqn:E; [| apply IH].
      assert (Ht : rows_fit table = true).
      { rewrite forallb_forall in Hfit. apply Hfit.
        eapply list_elem_of_In, list_elem_of_lookup_2, E. }
      destruct table as [| first more_rows].
      * cbn. apply IH.
      * rewrite add_table_to_doc_spec. unfold rows_fit in Ht. cbn [hd] in Ht.
        pose proof (check_rows_cases (length first) (first :: more_rows)) as Hc.
        destruct (check_rows _ _) as [[] | | |]; cbn [mbind result_bind];
          [apply IH | congruence | discriminate | discriminate].
    + destruct (add_paragraph_bind doc (fst (text_block para_text))
                  (snd (text_block para_text))
                  (add_paragraphs tables more table_index))
        as [[_ ->] | [_ ->]]; [apply IH | discriminate].
Qed.

Lemma forallb_false_exists {A} (f : A -> bool) (l : list A) :
  forallb f l = false -> exists x, In x l /\ f x = false.
Proof.
  induction l as [| a l IH]; cbn [forallb]; [discriminate |].
  destruct (f a) eqn:E; cbn [andb].
  - intros H. destruct (IH H) as (x & Hx & Hfx). exists x. split; [now right | exact Hfx].
  - intros _. exists a. split; [now left | exact E].
Qed.

(** X10: composing raises IndexError only because of a ragged table: if it
    does, the extractor has returned a table with a row that has more cells
    than the first row of that table. *)
Theorem add_formatted_content_raises_only_on_ragged_table
    (doc : list element) (content : list N) :
  add_formatted_content doc content = IndexError ->
  exists table row,
    In table (parse_markdown_table content) /\ In row table /\
    length (hd [] table) < length row.
Proof.
  intros Hraise.
  destruct (forallb rows_fit (parse_markdown_table content)) eqn:E.
  - exfalso. revert Hraise. unfold add_formatted_content.
    now apply add_paragraphs_fit.
  - apply forallb_false_exists in E as (table & Hin & Hfit).
    unfold rows_fit in Hfit.
    apply forallb_false_exists in Hfit as (row & Hrin & Hlen).
    exists table, row. repeat split; try assumption.
    now apply Nat.leb_gt in Hlen.
Qed.

Lemma parse_markdown_table_no_pipe (content : list N) :
  ~ In PIPE content -> parse_markdown_table content = [].
Proof.
  intros H. unfold parse_markdown_table. apply parse_lines_no_pipe.
  apply List.Forall_forall. intros l Hl Hin. apply H.
  eapply split_chars; eauto.
Qed.

(** X6: content without a pipe character has no tables; when the document
    can store its characters, composing it does not raise and appends text
    paragraphs only. *)
Theorem parse_markdown_table_without_pipe (content : list N) :
  ~ In PIPE content ->
  parse_markdown_table content = [] /\
  (xml_compatible content = true ->
   forall doc, exists added,
     add_formatted_content doc content = Ok (doc ++ added) /\
     forallb is_text_block added = true).
Proof.
  intros H. pose proof (parse_markdown_table_no_pipe content H) as Hno.
  split; [exact Hno |]. intros Hx doc.
  unfold add_formatted_content. rewrite Hno. cbn [remove_tables fold_left].
  now apply add_paragraphs_no_tables, split_xml_compatible.
Qed.

Lemma parse_markdown_table_without_pipe_witness :
  parse_markdown_table (lines_of ["Intro"; "# Heading"; "text - more"]%string) = [] /\
  forall doc, exists added,
    add_formatted_content doc (lines_of ["Intro"; "# Heading"; "text - more"]%string)
    = Ok (doc ++ added) /\
    forallb is_text_block added = true.
Proof.
  destruct (parse_markdown_table_without_pipe
              (lines_of ["Intro"; "# Heading"; "text - more"]%string))
    as [Hno Hrun].
  - vm_compute. intros H.
    repeat (destruct H as [H | H]; [discriminate H |]). exact H.
  - split; [exact Hno |]. apply Hrun. vm_compute. reflexivity.
Defined.

Lemma add_formatted_content_raises_only_on_ragged_table_witness :
  exists table row,
    In table (parse_markdown_table content_ragged) /\ In row table /\
    length (hd [] table) < length row.
Proof.
  apply (add_formatted_content_raises_only_on_ragged_table [] content_ragged).
  vm_compute. reflexivity.
Defined.

(** *** Tables are emitted in extraction order *)

Lemma doc_tables_app (a b : list element) :
  doc_tables (a ++ b) = doc_tables a ++ doc_tables b.
Proof.
  induction a as [| e a IH]; [reflexivity |].
  destruct e; cbn [app doc_tables]; rewrite IH; reflexivity.
Qed.

Lemma add_paragraphs_tables_in_order (tables : list (list (list (list N))))
    (paragraphs : list (list N)) :
  Forall (fun t => t <> []) tables ->
  forall (table_index : nat) (doc doc' : list element),
    table_index <= length tables ->
    add_paragraphs tables paragraphs table_index doc = Ok doc' ->
    exists k,
      table_index + k <= length tables /\
      doc_tables doc'
      = doc_tables doc ++ map rendered (take k (drop table_index tables)).
Proof.
  intros Hne.
  induction paragraphs as [| para_text more IH];
    intros table_index doc doc' Hidx Hrun.
  - cbn in Hrun. injection Hrun as <-. exists 0.
    split; [lia |]. cbn. now rewrite app_nil_r.
  - assert (Hstep : forall e, is_text_block e = true ->
               add_paragraphs tables more table_index (doc ++ [e]) = Ok doc' ->
               exists k,
                 table_index + k <= length tables /\
                 doc_tables doc'
                 = doc_tables doc ++ map rendered (take k (drop table_index tables))).
    { intros e He Hr. destruct (IH _ _ _ Hidx Hr) as (k & Hk & Heq).
      exists k. split; [exact Hk |]. rewrite Heq, doc_tables_app.
      destruct e as [[] t | | |]; try discriminate He; cbn; now rewrite app_nil_r. }
    rewrite add_paragraphs_cons in Hrun.
    destruct (negb (nonempty (strip para_text))); [now apply IH |].
    destruct (contains TABLE_PLACEHOLDER para_text).
    + destruct (tables !! table_index) as [table |] eqn:E; [| now apply IH].
      assert (Htne : table <> []).
      { rewrite List.Forall_forall in Hne. apply Hne.
        eapply list_elem_of_In, list_elem_of_lookup_2, E. }
      destruct table as [| first rows]; [congruence |].
      rewrite add_table_to_doc_spec in Hrun.
      destruct (check_rows _ (first :: rows)) as [[] | | |];
        try discriminate Hrun.
      cbn [mbind result_bind] in Hrun.
      pose proof (lookup_lt_Some _ _ _ E) as Hlt.
      destruct (IH (S table_index) _ _ Hlt Hrun) as (k & Hk & Heq).
      exists (S k). split; [lia |].
      rewrite Heq, !doc_tables_app. cbn [doc_tables].
      rewrite (drop_S _ _ _ E). cbn [take map].
      rewrite app_nil_r, <- app_assoc. reflexivity.
    + destruct (add_paragraph_bind doc (fst (text_block para_text))
                  (snd (text_block para_text))
                  (add_paragraphs tables more table_index))
        as [[_ Heq] | [_ Heq]]; rewrite Heq in Hrun; [| discriminate Hrun].
      eapply Hstep; [apply text_block_is_text_block | exact Hrun].
Qed.

(** X11: the tables that add_formatted_content appends are the first [k]
    extracted tables, in extraction order, each rendered once; no table is
    emitted twice or ahead of an earlier one. *)
Theorem add_formatted_content_tables_in_order
    (doc doc' : list element) (content : list N) :
  add_formatted_content doc content = Ok doc' ->
  exists k,
    k <= length (parse_markdown_table content) /\
    doc_tables doc'
    = doc_tables doc ++ map rendered (take k (parse_markdown_table content)).
Proof.
  intros Hrun. unfold add_formatted_content in Hrun.
  destruct (add_paragraphs_tables_in_order (parse_markdown_table content) _
              (Forall_impl _ _ _ (parse_markdown_table_tables_ok content)
                           (fun t Ht => proj1 Ht))
              0 doc doc' (Nat.le_0_l _) Hrun) as (k & Hk & Heq).
  exists k. split; [exact Hk | exact Heq].
Qed.

Lemma add_formatted_content_tables_in_order_witness :
  exists k,
    k <= length (parse_markdown_table content_two_tables) /\
    doc_tables [Paragraph BodyLeft (py "| x | y |");
                Paragraph BodyLeft (py "foo");
                Table [[Cell (py "x") HeaderCell; Cell (py "y") HeaderCell]];
                Paragraph Plain []]
    = doc_tables [] ++ map rendered (take k (parse_markdown_table content_two_tables)).
Proof.
  apply (add_formatted_content_tables_in_order [] _ content_two_tables).
  vm_compute. reflexivity.
Defined.

(** *** No asterisk reaches the document *)

Lemma written_rows_star_free (cols : nat) (table_data : list (list (list N))) :
  forall i,
    Forall (Forall (fun c => ~ In STAR (cell_text c)))
           (written_rows i cols table_data).
Proof.
  induction table_data as [| row_data tl IH]; intros i; cbn [written_rows];
    [apply List.Forall_nil |].
  apply List.Forall_cons; [| apply IH].
  unfold written_row. apply Forall_app_2.
  - apply List.Forall_forall. intros c Hc.
    apply in_map_iff in Hc as (d & <- & _). cbn [written_cell cell_text].
    apply clean_markdown_text_no_star.
  - apply List.Forall_forall. intros c Hc.
    apply list_elem_of_In, elem_of_replicate in Hc as [-> _]. intros [].
Qed.

Lemma add_paragraphs_star_free (tables : list (list (list (list N))))
    (paragraphs : list (list N)) :
  forall (table_index : nat) (doc doc' : list element),
    add_paragraphs tables paragraphs table_index doc = Ok doc' ->
    Forall star_free doc -> Forall star_free doc'.
Proof.
  induction paragraphs as [| para_text more IH];
    intros table_index doc doc' Hrun Hdoc.
  - cbn in Hrun. now injection Hrun as <-.
  - assert (Hstep : forall e, star_free e ->
               add_paragraphs tables more table_index (doc ++ [e]) = Ok doc' ->
               Forall star_free doc').
    { intros e He Hr. eapply IH; [exact Hr |].
      apply Forall_app_2; [exact Hdoc |].
      apply List.Forall_cons; [exact He | apply List.Forall_nil]. }
    rewrite add_paragraphs_cons in Hrun.
    destruct (negb (nonempty (strip para_text))); [exact (IH _ _ _ Hrun Hdoc) |].
    destruct (contains TABLE_PLACEHOLDER para_text).
    + destruct (tables !! table_index) as [table |]; [| exact (IH _ _ _ Hrun Hdoc)].
      destruct table as [| first rows].
      * cbn in Hrun. eapply IH; [exact Hrun |].
        apply Forall_app_2; [exact Hdoc |].
        apply List.Forall_cons; [intros [] | apply List.Forall_nil].
      * rewrite add_table_to_doc_spec in Hrun.
        destruct (check_rows _ (first :: rows)) as [[] | | |];
          try discriminate Hrun.
        cbn [mbind result_bind] in Hrun. eapply IH; [exact Hrun |].
        apply Forall_app_2; [apply Forall_app_2; [exact Hdoc |] |].
        -- apply List.Forall_cons; [| apply List.Forall_nil].
           apply written_rows_star_free.
        -- apply List.Forall_cons; [intros [] | apply List.Forall_nil].
    + destruct (add_paragraph_bind doc (fst (text_block para_text))
                  (snd (text_block para_text))
                  (add_paragraphs tables more table_index))
        as [[_ Heq] | [_ Heq]]; rewrite Heq in Hrun; [| discriminate Hrun].
      eapply Hstep; [| exact Hrun]. cbn [star_free]. intros H.
      apply text_block_In_clean in H.
      exact (clean_markdown_text_no_star _ H).
Qed.

(** X12: composing keeps the document free of asterisks: if no paragraph,
    heading or table cell held one before, none does afterwards, whatever
    the content. *)
Theorem add_formatted_content_keeps_star_free
    (doc doc' : list element) (content : list N) :
  add_formatted_content doc content = Ok doc' ->
  Forall star_free doc -> Forall star_free doc'.
Proof. unfold add_formatted_content. apply add_paragraphs_star_free. Qed.

Lemma add_formatted_content_keeps_star_free_witness :
  Forall star_free [Paragraph BodyLeft (py "a b"); Paragraph BodyLeft (py "c")].
Proof.
  apply (add_formatted_content_keeps_star_free []
           [Paragraph BodyLeft (py "a b"); Paragraph BodyLeft (py "c")]
           (lines_of ["**a** *b*"; EmptyString; "*c"]%string)).
  - vm_compute. reflexivity.
  - apply List.Forall_nil.
Defined.

(** *** Blank content *)

Lemma lstrip_all_space (s : list N) :
  forallb is_space s = true -> lstrip s = [].
Proof.
  induction s as [| c tl IH]; [reflexivity |].
  cbn [forallb lstrip]. intros H. apply andb_true_iff in H as [Hc Htl].
  rewrite Hc. now apply IH.
Qed.

Lemma strip_all_space (s : list N) :
  forallb is_space s = true -> strip s = [].
Proof. intros H. unfold strip. now rewrite (lstrip_all_space s H). Qed.

Lemma add_paragraphs_blank (tables : list (list (list (list N))))
    (paragraphs : list (list N)) (table_index : nat) (doc : list element) :
  Forall (fun p => strip p = []) paragraphs ->
  add_paragraphs tables paragraphs table_index doc = Ok doc.
Proof.
  induction 1 as [| p ps Hp _ IH]; [reflexivity |].
  cbn [add_paragraphs]. rewrite Hp. cbn [nonempty negb]. exact IH.
Qed.

(** X13: content that consists of whitespace only, the empty string
    included, adds nothing to the document. *)
Theorem add_formatted_content_blank (doc : list element) (content : list N) :
  forallb is_space content = true ->
  add_formatted_content doc content = Ok doc.
Proof.
  intros Hall. rewrite forallb_forall in Hall.
  assert (Hpipe : ~ In PIPE content).
  { intros H. specialize (Hall _ H). discriminate Hall. }
  unfold add_formatted_content.
  rewrite (parse_markdown_table_no_pipe content Hpipe).
  cbn [remove_tables fold_left]. apply add_paragraphs_blank.
  apply List.Forall_forall. intros p Hp. apply strip_all_space.
  apply forallb_forall. intros c Hc. apply Hall.
  eapply split_chars; eauto.
Qed.

Lemma add_formatted_content_blank_witness :
  add_formatted_content [PageBreak] [SPACE; NL; NL; 9%N; NL] = Ok [PageBreak].
Proof.
  apply (add_formatted_content_blank [PageBreak] [SPACE; NL; NL; 9%N; NL]).
  vm_compute. reflexivity.
Defined.

(** ** Section orchestrator, continued *)

(** X14: the mapping that generate_all_sections returns does not depend on
    the order in which the requests complete. *)
Theorem generate_all_sections_order_independent
    (client : list N -> outcome) (rfx_data m1 m2 : gmap string (list N)) :
  generate_all_sections client rfx_data m1 ->
  generate_all_sections client rfx_data m2 ->
  m1 = m2.
Proof.
  assert (Hlookup : forall completed k,
             Permutation completed (submit_all client rfx_data) ->
             collect_all completed !! k
             = collect_all (submit_all client rfx_data) !! k).
  { intros completed k Hperm.
    assert (Hnd : forall l, Permutation l (submit_all client rfx_data) ->
                            List.NoDup (map future_key l)).
    { intros l Hl. eapply Permutation_NoDup;
        [symmetry; apply (completed_keys client rfx_data l Hl) |].
      apply section_keys_distinct. }
    destruct (in_dec string_dec k (map future_key completed)) as [Hin | Hnot].
    - apply in_map_iff in Hin as (f & <- & Hf). unfold collect_all.
      rewrite (fold_collect_lookup completed ∅ f (Hnd _ Hperm) Hf).
      rewrite (fold_collect_lookup (submit_all client rfx_data) ∅ f
                 (Hnd _ (Permutation_refl _))); [reflexivity |].
      eapply Permutation_in; eauto.
    - unfold collect_all. rewrite (fold_collect_other completed k ∅ Hnot).
      rewrite fold_collect_other; [reflexivity |].
      intros Hin. apply Hnot.
      eapply Permutation_in; [| exact Hin].
      apply Permutation_map. now symmetry. }
  intros [c1 H1] [c2 H2]. apply map_eq. intros k.
  now rewrite (Hlookup c1 k H1), (Hlookup c2 k H2).
Qed.

Lemma generate_all_sections_order_independent_witness :
  collect_all (submit_all flaky_client ∅)
  = collect_all (rev (submit_all flaky_client ∅)).
Proof.
  apply (generate_all_sections_order_independent flaky_client ∅).
  - apply settle. apply Permutation_refl.
  - apply settle. symmetry. apply Permutation_rev.
Defined.

Lemma join_lines_app (a b : list (list N)) :
  a <> [] ->
  join_lines (a ++ b) = join_lines a ++ concat (map (fun x => NL :: x) b).
Proof.
  destruct a as [| l tl]; [congruence |]. intros _.
  cbn [app join_lines]. now rewrite map_app, concat_app, app_assoc.
Qed.

Lemma section_request_tail (section_key section_label : string)
    (rfx_data : gmap string (list N)) :
  exists head,
    forall key' label',
      section_request key' label' rfx_data = head ++ request_tail key' label'.
Proof.
  eexists. intros key' label'. unfold section_request, request_tail.
  match goal with
  | |- join_lines (?l1 :: ?l2 :: ?l3 :: ?l4 :: ?l5 :: ?l6 :: ?l7 :: ?l8 :: ?l9
                   :: ?l10 :: ?l11 :: ?l12 :: ?l13 :: ?l14 :: ?l15 :: ?l16
                   :: ?l17 :: ?l18 :: ?rest) = _ =>
      change (l1 :: l2 :: l3 :: l4 :: l5 :: l6 :: l7 :: l8 :: l9 :: l10 :: l11
              :: l12 :: l13 :: l14 :: l15 :: l16 :: l17 :: l18 :: rest)
        with ([l1; l2; l3; l4; l5; l6; l7; l8; l9; l10; l11; l12; l13; l14;
               l15; l16; l17; l18] ++ rest)
  end.
  rewrite join_lines_app by discriminate. reflexivity.
Qed.

Lemma text_eqb_eq (a b : list N) : text_eqb a b = true <-> a = b.
Proof.
  revert b. induction a as [| x a IH]; intros [| y b]; cbn [text_eqb];
    try (split; [discriminate | discriminate]); [tauto |].
  unfold chr_eqb. rewrite andb_true_iff, N.eqb_eq, IH.
  split; [intros [-> ->]; reflexivity | intros H; injection H; tauto].
Qed.

Lemma section_request_inj
    (rfx_data : gmap string (list N)) (s1 s2 : section) :
  In s1 SECTIONS -> In s2 SECTIONS ->
  section_request (key s1) (label s1) rfx_data
  = section_request (key s2) (label s2) rfx_data ->
  s1 = s2.
Proof.
  intros H1 H2 Heq.
  destruct (section_request_tail (key s1) (label s1) rfx_data) as (head & Hsplit).
  rewrite !Hsplit in Heq. apply app_inv_head in Heq.
  apply text_eqb_eq in Heq.
  cbn [SECTIONS In] in H1, H2.
  repeat (destruct H1 as [<- | H1]); try contradiction;
    repeat (destruct H2 as [<- | H2]); try contradiction;
    first [reflexivity | vm_compute in Heq; discriminate Heq].
Qed.

(** X15: for the same intake data, the requests of two different sections
    are different strings. *)
Theorem section_requests_distinct
    (rfx_data : gmap string (list N)) (s1 s2 : section) :
  In s1 SECTIONS -> In s2 SECTIONS -> s1 <> s2 ->
  section_request (key s1) (label s1) rfx_data
  <> section_request (key s2) (label s2) rfx_data.
Proof.
  intros H1 H2 Hne Heq. apply Hne. eapply section_request_inj; eauto.
Qed.

Lemma section_requests_distinct_witness :
  section_request "risks" "Risk assessment" ∅
  <> section_request "conclusion" "Conclusion" ∅.
Proof.
  apply (section_requests_distinct ∅
           (Section "risks" "Risk assessment" [9888%N; 65039%N])
           (Section "conclusion" "Conclusion" [127919%N])).
  - vm_compute. tauto.
  - vm_compute. tauto.
  - discriminate.
Defined.

(** *** What a request quotes *)

Lemma startswith_app_r (v x b : list N) :
  startswith v x = true -> startswith v (x ++ b) = true.
Proof.
  revert x. induction v as [| c v IH]; intros x H; [reflexivity |].
  destruct x as [| y x]; [discriminate |]. cbn [startswith app] in *.
  apply andb_true_iff in H as [-> H]. cbn [andb]. now apply IH.
Qed.

Lemma startswith_refl (v : list N) : startswith v v = true.
Proof.
  induction v as [| c v IH]; [reflexivity |]. cbn [startswith].
  unfold chr_eqb. now rewrite N.eqb_refl.
Qed.

Lemma contains_refl (v : list N) : contains v v = true.
Proof. destruct v; cbn [contains]; now rewrite startswith_refl. Qed.

Lemma contains_app_r (v x b : list N) :
  contains v x = true -> contains v (x ++ b) = true.
Proof.
  induction x as [| y x IH]; intros H.
  - cbn [contains] in H. rewrite orb_false_r in H.
    destruct v; [| discriminate]. destruct b; reflexivity.
  - cbn [contains app] in *. apply orb_true_iff in H as [H | H].
    + change (y :: x ++ b) with ((y :: x) ++ b).
      now rewrite (startswith_app_r v (y :: x) b H).
    + rewrite (IH H). apply orb_true_r.
Qed.

Lemma contains_app_l (v a s : list N) :
  contains v s = true -> contains v (a ++ s) = true.
Proof.
  intros H. induction a as [| y a IH]; [exact H |].
  cbn [app contains]. rewrite IH. apply orb_true_r.
Qed.

Lemma join_lines_contains (v line : list N) (lines : list (list N)) :
  In line lines -> contains v line = true ->
  contains v (join_lines lines) = true.
Proof.
  intros Hin Hv. destruct lines as [| l tl]; [destruct Hin |].
  cbn [join_lines]. destruct Hin as [-> | Hin]; [now apply contains_app_r |].
  apply contains_app_l.
  induction tl as [| x tl IH]; [destruct Hin |].
  cbn [map concat]. destruct Hin as [-> | Hin].
  - apply contains_app_r. now apply (contains_app_l v [NL] line).
  - apply contains_app_l. now apply IH.
Qed.

(** X16: every request quotes the value of each of the eight intake fields
    ([N/A] for a missing one), the label of its section and the prompt of
    its section. *)
Theorem section_request_quotes_intake
    (section_key section_label : string) (rfx_data : gmap string (list N)) :
  Forall (fun name =>
            contains (field rfx_data name)
                     (section_request section_key section_label rfx_data) = true)
         INTAKE_FIELDS /\
  contains (py section_label)
           (section_request section_key section_label rfx_data) = true /\
  contains (get_section_prompt section_key)
           (section_request section_key section_label rfx_data) = true.
Proof.
  assert (Hline : forall v line,
             In line [
               py "- Client Name: " ++ field rfx_data "client_name";
               py "- Project Title: " ++ field rfx_data "project_title";
               py "- Project Type: " ++ field rfx_data "project_type";
               py "- Budget Range: " ++ field rfx_data "budget";
               py "- Timeline: " ++ field rfx_data "timeline";
               field rfx_data "description";
               field rfx_data "requirements";
               field rfx_data "constraints";
               py "Generate a detailed, professional, and realistic " ++ [QUOTE]
                 ++ py section_label ++ [QUOTE]
                 ++ py " section for this RFX response.";
               get_section_prompt section_key] ->
             contains v line = true ->
             contains v (section_request section_key section_label rfx_data) = true).
  { intros v line Hin Hv. unfold section_request.
    apply (join_lines_contains v line); [| exact Hv].
    cbn [In] in Hin |- *.
    repeat (destruct Hin as [<- | Hin]; [tauto |]). destruct Hin. }
  split; [| split].
  - unfold INTAKE_FIELDS. repeat apply List.Forall_cons; try apply List.Forall_nil.
    + eapply Hline; [left; reflexivity |]. apply contains_app_l, contains_refl.
    + eapply Hline; [right; left; reflexivity |]. apply contains_app_l, contains_refl.
    + eapply Hline; [do 2 right; left; reflexivity |]. apply contains_app_l, contains_refl.
    + eapply Hline; [do 3 right; left; reflexivity |]. apply contains_app_l, contains_refl.
    + eapply Hline; [do 4 right; left; reflexivity |]. apply contains_app_l, contains_refl.
    + eapply Hline; [do 5 right; left; reflexivity |]. apply contains_refl.
    + eapply Hline; [do 6 right; left; reflexivity |]. apply contains_refl.
    + eapply Hline; [do 7 right; left; reflexivity |]. apply contains_refl.
  - eapply Hline; [do 8 right; left; reflexivity |].
    apply contains_app_l.
    change ([QUOTE] ++ py section_label ++ [QUOTE]
            ++ py " section for this RFX response.")
      with ([QUOTE] ++ (py section_label
                        ++ [QUOTE] ++ py " section for this RFX response.")).
    apply contains_app_l, contains_app_r, contains_refl.
  - eapply Hline; [do 9 right; left; reflexivity |]. apply contains_refl.
Qed.

(** ** Export, continued *)

Lemma headings_at_app (level : nat) (a b : list element) :
  headings_at level (a ++ b) = headings_at level a ++ headings_at level b.
Proof.
  unfold headings_at, doc_headings.
  now rewrite omap_app, List.filter_app, map_app.
Qed.

(** Section content adds headings of level 2 and 3 only. *)
Lemma add_paragraphs_headings (tables : list (list (list (list N))))
    (paragraphs : list (list N)) :
  forall (table_index : nat) (doc doc' : list element),
    add_paragraphs tables paragraphs table_index doc = Ok doc' ->
    headings_at 1 doc' = headings_at 1 doc.
Proof.
  induction paragraphs as [| para_text more IH];
    intros table_index doc doc' Hrun.
  - cbn in Hrun. now injection Hrun as <-.
  - rewrite add_paragraphs_cons in Hrun.
    destruct (negb (nonempty (strip para_text))); [exact (IH _ _ _ Hrun) |].
    destruct (contains TABLE_PLACEHOLDER para_text).
    + destruct (tables !! table_index) as [table |]; [| exact (IH _ _ _ Hrun)].
      destruct table as [| first rows].
      * cbn [add_table_to_doc mbind result_bind] in Hrun.
        rewrite (IH _ _ _ Hrun), headings_at_app. cbn. now rewrite app_nil_r.
      * rewrite add_table_to_doc_spec in Hrun.
        destruct (check_rows _ (first :: rows)) as [[] | | |];
          try discriminate Hrun.
        cbn [mbind result_bind] in Hrun.
        rewrite (IH _ _ _ Hrun), !headings_at_app. cbn.
        now rewrite !app_nil_r.
    + destruct (add_paragraph_bind doc (fst (text_block para_text))
                  (snd (text_block para_text))
                  (add_paragraphs tables more table_index))
        as [[_ Heq] | [_ Heq]]; rewrite Heq in Hrun; [| discriminate Hrun].
      rewrite (IH _ _ _ Hrun), headings_at_app.
      unfold text_block.
      destruct (startswith (py "###") _); [cbn; now rewrite app_nil_r |].
      destruct (startswith (py "##") _); cbn; now rewrite app_nil_r.
Qed.

Lemma composes_headings (sections_content : gmap string (list N))
    (s : section) (body : list element) :
  composes sections_content s body -> headings_at 1 body = [].
Proof.
  unfold composes, add_formatted_content. intros H.
  now rewrite (add_paragraphs_headings _ _ _ _ _ H).
Qed.

Lemma add_formatted_content_frame_eq (doc : list element) (content : list N) :
  add_formatted_content doc content
  = app doc <$> add_formatted_content [] content.
Proof. unfold add_formatted_content. apply add_paragraphs_frame. Qed.

Lemma section_block_append (doc : list element) (s : section)
    (body rest : list element) :
  (((doc ++ [Heading 1 (py (label s))]) ++ body) ++ [Paragraph Plain []]) ++ rest
  = doc ++ section_block s body ++ rest.
Proof.
  unfold section_block. rewrite <- ?app_assoc. cbn [app].
  rewrite <- ?app_assoc. reflexivity.
Qed.

(** The labels of the sections can be stored. *)
Lemma SECTIONS_labels_storable :
  Forall (fun s => xml_compatible (py (label s)) = true) SECTIONS.
Proof. unfold SECTIONS. repeat apply List.Forall_cons; try reflexivity. apply List.Forall_nil. Qed.

(** The loop over sections whose labels can be stored returns exactly when
    each content composes on its own, and appends one block per section. *)
Lemma add_sections_ok (sections_content : gmap string (list N))
    (sections : list section) :
  Forall (fun s => xml_compatible (py (label s)) = true) sections ->
  forall doc doc' : list element,
    add_sections sections sections_content doc = Ok doc' <->
    exists bodies,
      Forall2 (composes sections_content) sections bodies /\
      doc' = doc ++ concat (zip_with section_block sections bodies).
Proof.
  induction 1 as [| s more Hl _ IH]; intros doc doc'.
  - cbn [add_sections]. split.
    + intros H. injection H as <-. exists []. split; [constructor |].
      cbn. now rewrite app_nil_r.
    + intros (bodies & HF & ->). inversion HF; subst.
      cbn. now rewrite app_nil_r.
  - cbn [add_sections]. unfold add_heading. rewrite (store_ok _ Hl).
    cbn [mbind result_bind].
    fold (section_content sections_content s).
    rewrite add_formatted_content_frame_eq.
    destruct (add_formatted_content [] (section_content sections_content s))
      as [body | | |] eqn:E; cbn [fmap result_fmap mbind result_bind].
    + rewrite IH. split.
      * intros (bodies & HF & ->). exists (body :: bodies).
        split; [constructor; [exact E | exact HF] |].
        cbn [zip_with concat]. apply section_block_append.
      * intros (bodies & HF & ->).
        inversion HF as [| s0 b0 ss bs Hc HF']; subst.
        unfold composes in Hc. rewrite E in Hc. injection Hc as <-.
        exists bs. split; [exact HF' |].
        cbn [zip_with concat]. symmetry. apply section_block_append.
    + split; [discriminate |]. intros (bodies & HF & _).
      inversion HF as [| s0 b0 ss bs Hc HF']; subst.
      unfold composes in Hc. congruence.
    + split; [discriminate |]. intros (bodies & HF & _).
      inversion HF as [| s0 b0 ss bs Hc HF']; subst.
      unfold composes in Hc. congruence.
    + split; [discriminate |]. intros (bodies & HF & _).
      inversion HF as [| s0 b0 ss bs Hc HF']; subst.
      unfold composes in Hc. congruence.
Qed.

Lemma section_blocks_headings (sections_content : gmap string (list N))
    (sections : list section) (bodies : list (list element)) :
  Forall2 (composes sections_content) sections bodies ->
  headings_at 1 (concat (zip_with section_block sections bodies))
  = map (fun s => py (label s)) sections.
Proof.
  induction 1 as [| s body ss bs Hc _ IH]; [reflexivity |].
  cbn [zip_with concat map]. rewrite headings_at_app, IH.
  unfold section_block.
  change (Heading 1 (py (label s)) :: body ++ [Paragraph Plain []])
    with ([Heading 1 (py (label s))] ++ body ++ [Paragraph Plain []]).
  rewrite !headings_at_app, (composes_headings _ _ _ Hc). reflexivity.
Qed.

Lemma section_blocks_tables_after (front rest : list element)
    (t : list (list cell)) :
  head (doc_tables (front ++ Table t :: rest)) = head (doc_tables front ++ [t]).
Proof.
  rewrite doc_tables_app. cbn [doc_tables].
  destruct (doc_tables front); reflexivity.
Qed.

(** The information table is written when its four values can be stored. *)
Lemma write_info_data (rfx_data : gmap string (list N)) (today : list N) :
  write_info (info_data rfx_data today)
  = if intake_storable rfx_data today
    then Ok [info_row (py "Client:") (field rfx_data "client_name");
             info_row (py "Project:") (field rfx_data "project_title");
             info_row (py "Type:") (field rfx_data "project_type");
             info_row (py "Date:") today]
    else ValueError.
Proof.
  unfold info_data, intake_storable. cbn [write_info].
  rewrite (store_ok (py "Client:")), (store_ok (py "Project:")),
    (store_ok (py "Type:")), (store_ok (py "Date:")) by reflexivity.
  unfold store.
  destruct (xml_compatible (field rfx_data "client_name"));
    cbn [mbind result_bind andb]; [| reflexivity].
  destruct (xml_compatible (field rfx_data "project_title"));
    cbn [mbind result_bind andb]; [| reflexivity].
  destruct (xml_compatible (field rfx_data "project_type"));
    cbn [mbind result_bind andb]; [| reflexivity].
  destruct (xml_compatible today); reflexivity.
Qed.

(** The export in one piece: the fixed texts (title and footer) can be
    stored, so what can raise is the information table, a section and the
    save. *)
Lemma create_docx_document_eq (save : list N -> result unit)
    (rfx_data sections_content : gmap string (list N)) (today stamp : list N) :
  create_docx_document save rfx_data sections_content today stamp
  = if intake_storable rfx_data today
    then
      doc ← add_sections SECTIONS sections_content (title_page rfx_data today);
      _ ← save (docx_filename rfx_data stamp);
      Ok (doc ++ FOOTER, docx_filename rfx_data stamp)
    else ValueError.
Proof.
  unfold create_docx_document.
  rewrite (store_ok (py "RFX RESPONSE DOCUMENT")) by reflexivity.
  cbn [mbind result_bind]. rewrite write_info_data.
  destruct (intake_storable rfx_data today); cbn [mbind result_bind];
    [| reflexivity].
  change ([Paragraph TitleStyle (py "RFX RESPONSE DOCUMENT");
           Paragraph Plain []; Paragraph Plain []; Paragraph Plain []]
          ++ [Table [info_row (py "Client:") (field rfx_data "client_name");
                     info_row (py "Project:") (field rfx_data "project_title");
                     info_row (py "Type:") (field rfx_data "project_type");
                     info_row (py "Date:") today];
              PageBreak])
    with (title_page rfx_data today).
  destruct (add_sections SECTIONS sections_content (title_page rfx_data today))
    as [d | | |]; cbn [mbind result_bind]; try reflexivity.
  unfold add_heading.
  rewrite (store_ok (py "Contact Information")) by reflexivity.
  cbn [mbind result_bind].
  rewrite (store_ok FOOTER_TEXT) by reflexivity.
  cbn [mbind result_bind].
  destruct (save _) as [[] | | |]; cbn [mbind result_bind]; try reflexivity.
  unfold FOOTER. rewrite <- !app_assoc. reflexivity.
Qed.

(** Each section composes to one body. *)
Lemma composes_functional (sections_content : gmap string (list N))
    (sections : list section) (bodies bodies' : list (list element)) :
  Forall2 (composes sections_content) sections bodies ->
  Forall2 (composes sections_content) sections bodies' ->
  bodies' = bodies.
Proof.
  intros HF. revert bodies'.
  induction HF as [| s b ss bs Hc _ IH]; intros bodies' HF';
    inversion HF' as [| s0 b0 ss0 bs0 Hc' HF'']; subst; [reflexivity |].
  unfold composes in Hc, Hc'. rewrite Hc in Hc'.
  injection Hc' as <-. f_equal. now apply IH.
Qed.

(** The export returns exactly when the information table can be written,
    every section composes and the file can be saved; the document is then
    the title page, one block per section and the footer. *)
Lemma create_docx_document_ok (save : list N -> result unit)
    (rfx_data sections_content : gmap string (list N)) (today stamp : list N)
    (doc : list element) (filename : list N) :
  create_docx_document save rfx_data sections_content today stamp
  = Ok (doc, filename) <->
  intake_storable rfx_data today = true /\
  (exists bodies,
      Forall2 (composes sections_content) SECTIONS bodies /\
      doc = title_page rfx_data today
            ++ concat (zip_with section_block SECTIONS bodies) ++ FOOTER) /\
  save (docx_filename rfx_data stamp) = Ok tt /\
  filename = docx_filename rfx_data stamp.
Proof.
  rewrite create_docx_document_eq.
  destruct (intake_storable rfx_data today).
  2:{ split; [discriminate | intros [H _]; discriminate H]. }
  pose proof (add_sections_ok sections_content SECTIONS
                SECTIONS_labels_storable (title_page rfx_data today)) as Hs.
  split.
  - intros H.
    apply result_bind_ok in H as (d & Hd & H).
    apply result_bind_ok in H as ([] & Hsave & H).
    apply Hs in Hd as (bodies & HF & ->).
    split; [reflexivity |]. split; [| split; [exact Hsave | congruence]].
    exists bodies. split; [exact HF |].
    rewrite app_assoc. congruence.
  - intros (_ & (bodies & HF & ->) & Hsave & ->).
    rewrite (proj2 (Hs _) (ex_intro _ bodies (conj HF eq_refl))).
    cbn [mbind result_bind]. rewrite Hsave. cbn [mbind result_bind].
    now rewrite <- app_assoc.
Qed.

(** X17: a successful export has saved the file under the derived name.
    Its document is the title page with the intake summary, then for each
    of the ten sections in their fixed order the heading of the section,
    what its content composes to and a spacing paragraph, then the contact
    footer.  So its level 1 headings are the ten section labels in order
    followed by the contact heading (the contents add headings of level 2
    and 3 only), and its first table is the intake summary with the client,
    project, type and date rows. *)
Theorem create_docx_document_layout (save : list N -> result unit)
    (rfx_data sections_content : gmap string (list N)) (today stamp : list N)
    (doc : list element) (filename : list N) :
  create_docx_document save rfx_data sections_content today stamp
  = Ok (doc, filename) ->
  (filename = docx_filename rfx_data stamp /\ save filename = Ok tt) /\
  (exists bodies,
      Forall2 (composes sections_content) SECTIONS bodies /\
      doc = title_page rfx_data today
            ++ concat (zip_with section_block SECTIONS bodies) ++ FOOTER) /\
  headings_at 1 doc
  = map (fun s => py (label s)) SECTIONS ++ [py "Contact Information"] /\
  head (doc_tables doc)
  = Some [info_row (py "Client:") (field rfx_data "client_name");
          info_row (py "Project:") (field rfx_data "project_title");
          info_row (py "Type:") (field rfx_data "project_type");
          info_row (py "Date:") today].
Proof.
  intros H. apply create_docx_document_ok in H
    as (_ & (bodies & HF & ->) & Hsave & ->).
  split; [split; [reflexivity | exact Hsave] |].
  split; [exists bodies; split; [exact HF | reflexivity] |].
  split.
  - rewrite !headings_at_app, (section_blocks_headings _ _ _ HF). reflexivity.
  - reflexivity.
Qed.

Lemma create_docx_document_layout_witness :
  exists doc filename,
    create_docx_document save_ok {[ "client_name"%string := py "Acme Corp" ]} ∅
      (py "January 01, 2024") (py "20240101_120000") = Ok (doc, filename) /\
    (filename = docx_filename {[ "client_name"%string := py "Acme Corp" ]}
                  (py "20240101_120000") /\
     save_ok filename = Ok tt) /\
    (exists bodies,
        Forall2 (composes ∅) SECTIONS bodies /\
        doc = title_page {[ "client_name"%string := py "Acme Corp" ]}
                (py "January 01, 2024")
              ++ concat (zip_with section_block SECTIONS bodies) ++ FOOTER) /\
    headings_at 1 doc
    = map (fun s => py (label s)) SECTIONS ++ [py "Contact Information"] /\
    head (doc_tables doc)
    = Some [info_row (py "Client:")
              (field {[ "client_name"%string := py "Acme Corp" ]} "client_name");
            info_row (py "Project:")
              (field {[ "client_name"%string := py "Acme Corp" ]} "project_title");
            info_row (py "Type:")
              (field {[ "client_name"%string := py "Acme Corp" ]} "project_type");
            info_row (py "Date:") (py "January 01, 2024")].
Proof.
  destruct (create_docx_document save_ok
              {[ "client_name"%string := py "Acme Corp" ]} ∅
              (py "January 01, 2024") (py "20240101_120000"))
    as [[doc filename] | | |] eqn:E.
  - exists doc, filename. split; [reflexivity |].
    exact (create_docx_document_layout _ _ _ _ _ doc filename E).
  - vm_compute in E. discriminate E.
  - vm_compute in E. discriminate E.
  - vm_compute in E. discriminate E.
Defined.

(** X18: the export returns exactly when the four values of the intake
    summary can be stored in the document, the content of every section
    composes without raising, and the file can be saved under the derived
    name; otherwise it raises and no document is produced.  A single
    section with a ragged table, a control character in the client name or
    a client name with a slash on a file system that has no such directory
    each abort the whole export. *)
Theorem create_docx_document_returns_iff (save : list N -> result unit)
    (rfx_data sections_content : gmap string (list N)) (today stamp : list N) :
  ((exists doc filename,
       create_docx_document save rfx_data sections_content today stamp
       = Ok (doc, filename)) <->
   intake_storable rfx_data today = true /\
   Forall (fun s => exists body, composes sections_content s body) SECTIONS /\
   save (docx_filename rfx_data stamp) = Ok tt) /\
  create_docx_document save_ok ∅ {[ "risks"%string := content_ragged ]}
    today stamp = (if xml_compatible today then IndexError else ValueError) /\
  create_docx_document save_ok
    {[ "client_name"%string := py "A" ++ [11%N] ++ py "B" ]} ∅ today stamp
  = ValueError /\
  create_docx_document save_flat {[ "client_name"%string := py "A/B Ltd" ]} ∅
    (py "January 01, 2024") stamp = OSError.
Proof.
  split; [| split; [| split]].
  - rewrite Forall_exists_Forall2_l. split.
    + intros (doc & filename & H).
      apply create_docx_document_ok in H as (Hi & (bodies & HF & _) & Hs & _).
      split; [exact Hi |]. split; [now exists bodies | exact Hs].
    + intros (Hi & (bodies & HF) & Hs).
      exists (title_page rfx_data today
              ++ concat (zip_with section_block SECTIONS bodies) ++ FOOTER),
        (docx_filename rfx_data stamp).
      apply create_docx_document_ok.
      split; [exact Hi |]. split; [now exists bodies |].
      split; [exact Hs | reflexivity].
  - rewrite create_docx_document_eq. unfold intake_storable.
    replace (xml_compatible (field ∅ "client_name")) with true by reflexivity.
    replace (xml_compatible (field ∅ "project_title")) with true by reflexivity.
    replace (xml_compatible (field ∅ "project_type")) with true by reflexivity.
    cbn [andb]. destruct (xml_compatible today); [| reflexivity].
    match goal with
    | |- context [add_sections SECTIONS ?c ?d] =>
        assert (Hs : forall d0, add_sections SECTIONS c d0 = IndexError)
    end.
    { intros d0. unfold SECTIONS.
      repeat (cbn [add_sections]; unfold add_heading;
              rewrite store_ok by reflexivity; cbn [mbind result_bind];
              rewrite add_formatted_content_frame_eq;
              match goal with
              | |- context [add_formatted_content [] ?x] =>
                  let r := eval vm_compute in (add_formatted_content [] x) in
                  replace (add_formatted_content [] x) with r
                    by (vm_compute; reflexivity)
              end;
              cbn [fmap result_fmap mbind result_bind]).
      reflexivity. }
    rewrite Hs. reflexivity.
  - rewrite create_docx_document_eq.
    replace (intake_storable _ _) with false; [reflexivity |].
    unfold intake_storable.
    replace (xml_compatible (field _ "client_name")) with false
      by (vm_compute; reflexivity).
    reflexivity.
  - vm_compute. reflexivity.
Qed.

(** ** Conversion to PDF *)









(** ** Heading lines *)

(** A greedy repetition with an upper bound that the run of class
    characters does not exceed reads the whole run first. *)
Lemma rep_bounded_run (p : N -> bool) (run : list N) :
  forall (tail : list N) (h fuel : nat) (b : option N) (cons g : list N),
    forallb p run = true ->
    match tail with c :: _ => p c = false | [] => True end ->
    length run <= h ->
    length (run ++ tail) < fuel ->
    exists b' l,
      rep fuel true 0 (Some h) (rmatch (Chr p)) (MState b cons g (run ++ tail))
      = MState b' (rev run ++ cons) g tail :: l.
Proof.
  induction run as [| c r IH]; intros tail h fuel b cons g Hrun Htail Hh Hfuel;
    (destruct fuel as [| f]; [cbn in Hfuel; lia |]).
  - cbn [app rev rep].
    destruct (hi_is_zero (Some h)); [exists b, []; reflexivity |].
    rewrite rmatch_chr. unfold step_chr. cbn [rest].
    destruct tail as [| x tl]; [exists b, []; reflexivity |].
    rewrite Htail. exists b, []. reflexivity.
  - cbn [forallb] in Hrun. apply andb_true_iff in Hrun as [Hc Hr].
    cbn [length] in Hh. destruct h as [| h']; [lia |].
    cbn [app rep hi_is_zero dec_hi fmap option_fmap option_map Nat.pred].
    rewrite rmatch_chr. unfold step_chr. cbn [rest consumed group1]. rewrite Hc.
    cbn [List.filter]. unfold progress. cbn [rest length].
    rewrite (proj2 (Nat.ltb_lt _ _)) by lia. cbn [map concat].
    destruct (IH tail h' f (Some c) (c :: cons) g Hr Htail) as (b' & l & Heq);
      [lia | cbn [app length] in Hfuel; lia |].
    rewrite Heq. cbn [rev].
    replace ((rev r ++ [c]) ++ cons) with (rev r ++ c :: cons)
      by (now rewrite <- app_assoc).
    cbn [app]. eexists. eexists. reflexivity.
Qed.

Lemma greedy_states_space_first (s : list N) :
  forall (b : option N) (cons g : list N),
    exists b' cons' l,
      greedy_states is_space b cons g s = MState b' cons' g (lstrip s) :: l /\
      length cons <= length cons'.
Proof.
  induction s as [| c tl IH]; intros b cons g; cbn [greedy_states lstrip].
  - exists b, cons, []. split; [reflexivity | lia].
  - destruct (is_space c).
    + destruct (IH (Some c) (c :: cons) g) as (b' & cons' & l & -> & Hlen).
      exists b', cons', (l ++ [MState b cons g (c :: tl)]).
      split; [reflexivity | cbn in Hlen; lia].
    + exists b, cons, []. split; [reflexivity | lia].
Qed.

(** The header pattern at the start of a line of one to six hashes, a
    space and a title: it reads the hashes, the space and the whitespace
    in front of the title. *)
Lemma rmatch_header_line (k : nat) (t : list N) :
  1 <= k <= 6 ->
  exists st l,
    rmatch re_header (init None (replicate k HASH ++ SPACE :: t)) = st :: l /\
    rest st = lstrip t /\ consumed st <> [].
Proof.
  intros Hk. destruct k as [| k']; [lia |].
  unfold re_header. cbn [seqs]. rewrite rmatch_seq.
  change (rmatch Bol (init None (replicate (S k') HASH ++ SPACE :: t)))
    with [init None (replicate (S k') HASH ++ SPACE :: t)].
  cbn [map concat]. rewrite app_nil_r, rmatch_seq.
  assert (Hhash : exists b' l,
             rmatch (Rep true 1 (Some 6) (lit HASH))
                    (init None (replicate (S k') HASH ++ SPACE :: t))
             = MState b' (rev (replicate k' HASH) ++ [HASH]) [] (SPACE :: t) :: l).
  { unfold init. cbn [rmatch rep rest replicate app].
    cbn [dec_hi fmap option_fmap option_map Nat.pred].
    rewrite rmatch_lit. unfold step_chr. cbn [rest consumed group1].
    change (chr_eqb HASH HASH) with true. cbn [map concat]. unfold lit.
    destruct (rep_bounded_run (chr_eqb HASH) (replicate k' HASH) (SPACE :: t) 5
                (1 + length (HASH :: replicate k' HASH ++ SPACE :: t))
                (Some HASH) [HASH] []) as (b' & l & Heq).
    - apply forallb_forall. intros x Hx.
      apply list_elem_of_In, elem_of_replicate in Hx as [-> _]. reflexivity.
    - reflexivity.
    - rewrite length_replicate. lia.
    - cbn [length]. lia.
    - rewrite Heq. cbn [app]. eexists. eexists. reflexivity. }
  destruct Hhash as (b' & l & ->). cbn [map concat].
  rewrite rmatch_plus_class. change (is_space SPACE) with true. cbn iota.
  destruct (greedy_states_space_first t (Some SPACE)
              (SPACE :: rev (replicate k' HASH) ++ [HASH]) [])
    as (b2 & cons2 & l2 & -> & Hlen).
  cbn [app]. eexists. eexists. split; [reflexivity |]. split; [reflexivity |].
  cbn [consumed]. destruct cons2; [cbn in Hlen; lia | discriminate].
Qed.

Lemma lstrip_In_not (x : N) (s : list N) : ~ In x s -> ~ In x (lstrip s).
Proof. intros H Hin. apply H. now apply lstrip_In. Qed.

Lemma re_sub_header_line (k : nat) (t : list N) :
  1 <= k <= 6 -> ~ In HASH t ->
  re_sub re_header (literal []) (replicate k HASH ++ SPACE :: t) = lstrip t.
Proof.
  intros Hk Hhash. unfold re_sub.
  destruct (rmatch_header_line k t Hk) as (st & l & Hm & Hrest & Hcons).
  cbn [sub_go count_left].
  assert (Hsearch : search re_header None (replicate k HASH ++ SPACE :: t)
                    = Some ([], st)).
  { destruct (replicate k HASH ++ SPACE :: t) as [| c tl];
      cbn [search]; now rewrite Hm. }
  rewrite Hsearch. destruct (consumed st) as [| c0 cs]; [congruence |].
  cbn [app literal]. rewrite Hrest.
  destruct (length (replicate k HASH ++ SPACE :: t)) as [| f]; [reflexivity |].
  cbn [sub_go count_left dec_hi fmap option_fmap option_map].
  rewrite (search_without_first HASH re_header needs_header);
    [reflexivity | now apply lstrip_In_not].
Qed.

Lemma hash_line_free (x : N) (k : nat) (t : list N) :
  x <> HASH -> x <> SPACE -> ~ In x t ->
  ~ In x (replicate k HASH ++ SPACE :: t).
Proof.
  intros Hh Hs Ht Hin. apply in_app_or in Hin as [Hin | [E | Hin]].
  - apply list_elem_of_In, elem_of_replicate in Hin as [-> _]. congruence.
  - congruence.
  - now apply Ht.
Qed.

Lemma clean_heading_line (k : nat) (t : list N) :
  1 <= k <= 6 ->
  ~ In STAR t -> ~ In USCORE t -> ~ In HASH t ->
  clean_markdown_text (replicate k HASH ++ SPACE :: t) = strip t.
Proof.
  intros Hk Hstar Hus Hhash.
  assert (Hs : ~ In STAR (replicate k HASH ++ SPACE :: t))
    by (apply hash_line_free; [discriminate | discriminate | exact Hstar]).
  assert (Hu : ~ In USCORE (replicate k HASH ++ SPACE :: t))
    by (apply hash_line_free; [discriminate | discriminate | exact Hus]).
  unfold clean_markdown_text.
  rewrite (re_sub_without_first STAR re_bold_italic _ _ needs_bold_italic Hs).
  rewrite (re_sub_without_first STAR re_bold _ _ needs_bold Hs).
  rewrite (re_sub_without_first STAR re_italic _ _ needs_italic Hs).
  rewrite (re_sub_without_first USCORE re_bold_us _ _ needs_bold_us Hu).
  rewrite (re_sub_without_first USCORE re_italic_us _ _ needs_italic_us Hu).
  rewrite (re_sub_header_line k t Hk Hhash).
  rewrite (re_sub_without_first STAR re_stars _ _ needs_stars)
    by now apply lstrip_In_not.
  unfold strip. now rewrite lstrip_idem.
Qed.

(** X20: a line of one to six hashes, a space and a title without
    asterisk, underscore and hash normalises to the trimmed title. *)
Theorem clean_markdown_text_heading_line (k : nat) (t : list N) :
  1 <= k <= 6 ->
  ~ In STAR t -> ~ In USCORE t -> ~ In HASH t ->
  clean_markdown_text (replicate k HASH ++ SPACE :: t) = strip t.
Proof. apply clean_heading_line. Qed.

Lemma clean_markdown_text_heading_line_witness :
  clean_markdown_text (replicate 4 HASH ++ SPACE :: py " Project plan ")
  = strip (py " Project plan ").
Proof.
  apply (clean_markdown_text_heading_line 4 (py " Project plan "));
    [lia | | |];
    vm_compute; intros H;
    repeat (destruct H as [H | H]; [discriminate H |]); exact H.
Defined.

Lemma split_go_no_newline (s : list N) :
  forall cur, ~ In NL s -> split_go [NL; NL] s cur 0 = [rev cur ++ s].
Proof.
  induction s as [| c tl IH]; intros cur H; cbn [split_go].
  - now rewrite app_nil_r.
  - cbn [startswith]. unfold chr_eqb at 1.
    destruct (N.eqb_spec NL c) as [E | _].
    + exfalso. apply H. left. now symmetry.
    + cbn [andb]. rewrite IH by (intros Hin; apply H; now right).
      cbn [rev]. now rewrite <- app_assoc.
Qed.

(** Text without a line break is one paragraph candidate. *)
Lemma split_paragraphs_single (s : list N) :
  ~ In NL s -> split [NL; NL] s = [s].
Proof. intros H. unfold split. now rewrite split_go_no_newline. Qed.

Lemma startswith_first_absent (x : N) (v s : list N) :
  match s with c :: _ => c <> x | [] => True end ->
  startswith (x :: v) s = false.
Proof.
  destruct s as [| c tl]; [reflexivity |]. intros H. cbn [startswith].
  unfold chr_eqb. destruct (N.eqb_spec x c) as [E | _]; [congruence | reflexivity].
Qed.

Lemma contains_first_absent (x : N) (v s : list N) :
  ~ In x s -> contains (x :: v) s = false.
Proof.
  induction s as [| c tl IH]; intros H; [reflexivity |].
  cbn [contains]. rewrite startswith_first_absent
    by (intros ->; apply H; now left).
  cbn [orb]. apply IH. intros Hin. apply H. now right.
Qed.

Lemma startswith_absent (x : N) (v s : list N) :
  ~ In x s -> startswith (x :: v) s = false.
Proof.
  intros H. apply startswith_first_absent. destruct s as [| c tl]; [exact I |].
  intros ->. apply H. now left.
Qed.

Lemma strip_nonempty (c : N) (tl : list N) :
  is_space c = false -> nonempty (strip (c :: tl)) = true.
Proof.
  intros H. unfold strip. cbn [lstrip]. rewrite H.
  now rewrite (rstrip_cons c tl H).
Qed.

(** X21: content that is one line of one to six hashes, a space and a
    plain title (no markdown marker, pipe, bracket or line break, and only
    characters that the document can store) is emitted as one body
    paragraph holding the trimmed title, not as a heading. *)
Theorem add_formatted_content_heading_line
    (doc : list element) (k : nat) (t : list N) :
  1 <= k <= 6 ->
  ~ In STAR t -> ~ In USCORE t -> ~ In HASH t ->
  ~ In PIPE t -> ~ In NL t -> ~ In LBRACKET t ->
  xml_compatible t = true ->
  add_formatted_content doc (replicate k HASH ++ SPACE :: t)
  = Ok (doc ++ [Paragraph BodyLeft (strip t)]).
Proof.
  intros Hk Hstar Hus Hhash Hpipe Hnl Hbr Hxml.
  unfold add_formatted_content.
  rewrite (parse_markdown_table_no_pipe _
             (hash_line_free PIPE k t ltac:(discriminate) ltac:(discriminate) Hpipe)).
  cbn [remove_tables fold_left].
  rewrite (split_paragraphs_single _
             (hash_line_free NL k t ltac:(discriminate) ltac:(discriminate) Hnl)).
  cbn [add_paragraphs].
  assert (Hne : nonempty (strip (replicate k HASH ++ SPACE :: t)) = true).
  { destruct k as [| k']; [lia |]. cbn [replicate app].
    now apply strip_nonempty. }
  rewrite Hne. cbn [negb].
  change TABLE_PLACEHOLDER with (LBRACKET :: py "TABLE_PLACEHOLDER]").
  rewrite (contains_first_absent LBRACKET _ _
             (hash_line_free LBRACKET k t ltac:(discriminate) ltac:(discriminate) Hbr)).
  rewrite (clean_heading_line k t Hk Hstar Hus Hhash).
  change (py "###") with (HASH :: py "##").
  rewrite (startswith_absent HASH _ (strip t)) by now apply strip_In_not.
  change (py "##") with (HASH :: py "#").
  rewrite (startswith_absent HASH _ (strip t)) by now apply strip_In_not.
  rewrite add_paragraph_ok by now apply strip_xml_compatible.
  reflexivity.
Qed.

Lemma add_formatted_content_heading_line_witness :
  add_formatted_content [] (replicate 2 HASH ++ SPACE :: py "Scope of work")
  = Ok ([] ++ [Paragraph BodyLeft (strip (py "Scope of work"))]).
Proof.
  apply (add_formatted_content_heading_line [] 2 (py "Scope of work"));
    [lia | | | | | | | reflexivity];
    vm_compute; intros H;
    repeat (destruct H as [H | H]; [discriminate H |]); exact H.
Defined.

(** ** Headings without a space after the hashes *)

Lemma rep_chr_consumes (p : N -> bool) (greedy : bool) :
  forall (fuel lo : nat) (hi : option nat) (st st' : mstate),
    In st' (rep fuel greedy lo hi (rmatch (Chr p)) st) ->
    exists d, rest st = d ++ rest st' /\ forallb p d = true.
Proof.
  assert (Hbody : forall st st', In st' (rmatch (Chr p) st) ->
             exists c, rest st = c :: rest st' /\ p c = true).
  { intros st st' Hin. rewrite rmatch_chr in Hin. unfold step_chr in Hin.
    destruct (rest st) as [| c tl]; [destruct Hin |].
    destruct (p c) eqn:E; [| destruct Hin]. destruct Hin as [<- | []].
    now exists c. }
  intros fuel.
  induction fuel as [| f IH]; intros lo hi st st' Hin; [destruct Hin |].
  assert (Hnext : forall lo' x,
             In x (concat (map (rep f greedy lo' (dec_hi hi) (rmatch (Chr p)))
                               (rmatch (Chr p) st))) ->
             exists d, rest st = d ++ rest x /\ forallb p d = true).
  { intros lo' x Hx. apply in_concat in Hx as (l & Hl & Hx).
    apply in_map_iff in Hl as (st1 & <- & Hst1).
    destruct (Hbody _ _ Hst1) as (c & Hr1 & Hc).
    destruct (IH _ _ _ _ Hx) as (d & Hr2 & Hd).
    exists (c :: d). cbn [app forallb]. rewrite Hr1, Hr2, Hc, Hd. now split. }
  cbn [rep] in Hin. destruct lo as [| lo']; [| now apply (Hnext lo')].
  destruct (hi_is_zero hi); [destruct Hin as [<- | []]; now exists [] |].
  assert (Hmore : forall x,
             In x (concat (map (rep f greedy 0 (dec_hi hi) (rmatch (Chr p)))
                               (List.filter (progress st) (rmatch (Chr p) st)))) ->
             exists d, rest st = d ++ rest x /\ forallb p d = true).
  { intros x Hx. apply (Hnext 0).
    apply in_concat in Hx as (l & Hl & Hx).
    apply in_map_iff in Hl as (st1 & <- & Hst1).
    apply filter_In in Hst1 as [Hst1 _].
    apply in_concat. eexists. split; [| exact Hx].
    apply in_map_iff. now exists st1. }
  destruct greedy.
  - apply in_app_or in Hin as [Hin | [<- | []]]; [now apply Hmore | now exists []].
  - destruct Hin as [<- | Hin]; [now exists [] | now apply Hmore].
Qed.

Lemma hashes_suffix (d : list N) :
  forall (k : nat) (c : N) (t r : list N),
    forallb (chr_eqb HASH) d = true -> c <> HASH ->
    replicate k HASH ++ c :: t = d ++ r ->
    exists j, r = replicate j HASH ++ c :: t.
Proof.
  induction d as [| x d IH]; intros k c t r Hd Hc Heq.
  - exists k. now rewrite Heq.
  - cbn [forallb] in Hd. apply andb_true_iff in Hd as [Hx Hd].
    unfold chr_eqb in Hx. apply N.eqb_eq in Hx. subst x.
    destruct k as [| k']; cbn [replicate app] in Heq.
    + injection Heq as E _. congruence.
    + injection Heq as Heq. eapply IH; eauto.
Qed.

Lemma concat_map_nil {A B} (f : A -> list B) (l : list A) :
  (forall x, In x l -> f x = []) -> concat (map f l) = [].
Proof.
  induction l as [| a l IH]; intros H; [reflexivity |].
  cbn [map concat]. rewrite (H a) by now left.
  apply IH. intros x Hx. apply H. now right.
Qed.

(** The header pattern does not match in front of hashes that are followed
    at once by a character that is neither whitespace nor a hash. *)
Lemma rmatch_header_no_space (b : option N) (k : nat) (c : N) (t : list N) :
  is_space c = false -> c <> HASH ->
  rmatch re_header (init b (replicate k HASH ++ c :: t)) = [].
Proof.
  intros Hsp Hc. unfold re_header. cbn [seqs]. rewrite rmatch_seq.
  apply concat_map_nil. intros st0 Hst0.
  assert (Hrest : rest st0 = replicate k HASH ++ c :: t).
  { cbn [rmatch] in Hst0. destruct (at_line_start _); [| destruct Hst0].
    destruct Hst0 as [<- | []]. reflexivity. }
  rewrite rmatch_seq. apply concat_map_nil. intros st1 Hst1.
  cbn [rmatch] in Hst1. unfold lit in Hst1.
  apply rep_chr_consumes in Hst1 as (d & Hd & Hall).
  rewrite Hrest in Hd.
  destruct (hashes_suffix d k c t (rest st1) Hall Hc Hd) as (j & Hj).
  destruct st1 as [b1 cons1 g1 r1]. cbn [rest] in Hj. subst r1.
  rewrite rmatch_plus_class.
  destruct j as [| j']; cbn [replicate app]; [now rewrite Hsp | reflexivity].
Qed.

Lemma search_header_no_space (k : nat) (c : N) (t : list N) :
  is_space c = false -> ~ In HASH (c :: t) ->
  forall b, search re_header b (replicate k HASH ++ c :: t) = None.
Proof.
  intros Hsp Hhash.
  assert (Hc : c <> HASH) by (intros ->; apply Hhash; now left).
  induction k as [| k' IH]; intros b.
  - apply (search_without_first HASH re_header needs_header). exact Hhash.
  - pose proof (rmatch_header_no_space b (S k') c t Hsp Hc) as Hm.
    cbn [replicate app] in Hm |- *. cbn [search]. rewrite Hm.
    now rewrite IH.
Qed.

Lemma rstrip_hashes (k : nat) (s : list N) :
  rstrip (replicate k HASH ++ s) = replicate k HASH ++ rstrip s.
Proof.
  induction k as [| k' IH]; [reflexivity |].
  cbn [replicate app]. rewrite rstrip_cons by reflexivity. now rewrite IH.
Qed.

Lemma clean_hashes_no_space (k : nat) (c : N) (t : list N) :
  is_space c = false ->
  ~ In STAR (c :: t) -> ~ In USCORE (c :: t) -> ~ In HASH (c :: t) ->
  clean_markdown_text (replicate k HASH ++ c :: t)
  = replicate k HASH ++ strip (c :: t).
Proof.
  intros Hsp Hstar Hus Hhash.
  assert (Hfree : forall x, x <> HASH -> ~ In x (c :: t) ->
                            ~ In x (replicate k HASH ++ c :: t)).
  { intros x Hx Hin H. apply in_app_or in H as [H | H]; [| now apply Hin].
    apply list_elem_of_In, elem_of_replicate in H as [-> _]. congruence. }
  unfold clean_markdown_text.
  rewrite (re_sub_without_first STAR re_bold_italic _ _ needs_bold_italic)
    by (apply Hfree; [discriminate | exact Hstar]).
  rewrite (re_sub_without_first STAR re_bold _ _ needs_bold)
    by (apply Hfree; [discriminate | exact Hstar]).
  rewrite (re_sub_without_first STAR re_italic _ _ needs_italic)
    by (apply Hfree; [discriminate | exact Hstar]).
  rewrite (re_sub_without_first USCORE re_bold_us _ _ needs_bold_us)
    by (apply Hfree; [discriminate | exact Hus]).
  rewrite (re_sub_without_first USCORE re_italic_us _ _ needs_italic_us)
    by (apply Hfree; [discriminate | exact Hus]).
  assert (Hhdr : re_sub re_header (literal []) (replicate k HASH ++ c :: t)
                 = replicate k HASH ++ c :: t).
  { unfold re_sub. cbn [sub_go count_left].
    now rewrite (search_header_no_space k c t Hsp Hhash). }
  rewrite Hhdr.
  rewrite (re_sub_without_first STAR re_stars _ _ needs_stars)
    by (apply Hfree; [discriminate | exact Hstar]).
  unfold strip.
  assert (Hl : lstrip (replicate k HASH ++ c :: t) = replicate k HASH ++ c :: t).
  { destruct k as [| k']; cbn [replicate app lstrip]; [now rewrite Hsp | reflexivity]. }
  rewrite Hl. cbn [lstrip]. rewrite Hsp. apply rstrip_hashes.
Qed.

Lemma replace_go_first_absent (x : N) (v new s : list N) :
  ~ In x s -> replace_go (x :: v) new s 0 = s.
Proof.
  induction s as [| c tl IH]; intros H; [reflexivity |].
  cbn [replace_go]. rewrite startswith_first_absent
    by (intros ->; apply H; now left).
  f_equal. apply IH. intros Hin. apply H. now right.
Qed.

(** X22: a heading paragraph is produced when no whitespace follows the
    hashes: three (two) hashes followed at once by a plain title that the
    document can store are emitted as a Heading 3 (Heading 2) paragraph
    that holds the trimmed title. *)
Theorem add_formatted_content_heading_without_space
    (doc : list element) (c : N) (t : list N) :
  is_space c = false ->
  ~ In STAR (c :: t) -> ~ In USCORE (c :: t) -> ~ In HASH (c :: t) ->
  ~ In PIPE (c :: t) -> ~ In NL (c :: t) -> ~ In LBRACKET (c :: t) ->
  xml_compatible (c :: t) = true ->
  add_formatted_content doc (replicate 3 HASH ++ c :: t)
  = Ok (doc ++ [Paragraph StyleHeading3 (strip (c :: t))]) /\
  add_formatted_content doc (replicate 2 HASH ++ c :: t)
  = Ok (doc ++ [Paragraph StyleHeading2 (strip (c :: t))]).
Proof.
  intros Hsp Hstar Hus Hhash Hpipe Hnl Hbr Hxml.
  assert (Hfree : forall k x, x <> HASH -> ~ In x (c :: t) ->
                              ~ In x (replicate k HASH ++ c :: t)).
  { intros k x Hx Hin H. apply in_app_or in H as [H | H]; [| now apply Hin].
    apply list_elem_of_In, elem_of_replicate in H as [-> _]. congruence. }
  assert (Hc : c <> HASH) by (intros ->; apply Hhash; now left).
  assert (Hstrip : strip (c :: t) = c :: rstrip t).
  { unfold strip. cbn [lstrip]. rewrite Hsp. now apply rstrip_cons. }
  assert (Hidem : strip (strip (c :: t)) = strip (c :: t)) by apply strip_idem.
  assert (Hsh : ~ In HASH (strip (c :: t))) by now apply strip_In_not.
  assert (Hsx : xml_compatible (strip (c :: t)) = true)
    by now apply strip_xml_compatible.
  assert (Hrun : forall k,
             1 <= k ->
             add_formatted_content doc (replicate k HASH ++ c :: t)
             = if startswith (py "###") (replicate k HASH ++ strip (c :: t))
               then add_paragraph doc StyleHeading3
                      (strip (replace (py "###") []
                                (replicate k HASH ++ strip (c :: t))))
               else if startswith (py "##") (replicate k HASH ++ strip (c :: t))
               then add_paragraph doc StyleHeading2
                      (strip (replace (py "##") []
                                (replicate k HASH ++ strip (c :: t))))
               else add_paragraph doc BodyLeft
                      (replicate k HASH ++ strip (c :: t))).
  { intros k Hk. unfold add_formatted_content.
    rewrite (parse_markdown_table_no_pipe _ (Hfree k PIPE ltac:(discriminate) Hpipe)).
    cbn [remove_tables fold_left].
    rewrite (split_paragraphs_single _ (Hfree k NL ltac:(discriminate) Hnl)).
    cbn [add_paragraphs].
    assert (Hne : nonempty (strip (replicate k HASH ++ c :: t)) = true).
    { destruct k as [| k']; [lia |]. cbn [replicate app]. now apply strip_nonempty. }
    rewrite Hne. cbn [negb].
    change TABLE_PLACEHOLDER with (LBRACKET :: py "TABLE_PLACEHOLDER]").
    rewrite (contains_first_absent LBRACKET _ _
               (Hfree k LBRACKET ltac:(discriminate) Hbr)).
    rewrite (clean_hashes_no_space k c t Hsp Hstar Hus Hhash).
    destruct (startswith (py "###") _); [apply result_bind_ret |].
    destruct (startswith (py "##") _); apply result_bind_ret. }
  split.
  - rewrite (Hrun 3) by lia.
    change (startswith (py "###") (replicate 3 HASH ++ strip (c :: t))) with true.
    cbn iota.
    assert (Ht : strip (replace (py "###") []
                          (replicate 3 HASH ++ strip (c :: t)))
                 = strip (c :: t)).
    { transitivity (strip (strip (c :: t))); [f_equal | exact Hidem].
      apply (replace_go_first_absent HASH (py "##") [] (strip (c :: t)) Hsh). }
    rewrite Ht. now apply add_paragraph_ok.
  - rewrite (Hrun 2) by lia.
    assert (H3 : startswith (py "###") (replicate 2 HASH ++ strip (c :: t)) = false).
    { rewrite Hstrip. change (py "###") with [HASH; HASH; HASH].
      cbn [replicate app startswith]. unfold chr_eqb at 3.
      destruct (N.eqb_spec HASH c) as [E | _]; [congruence |].
      now rewrite !andb_false_r. }
    rewrite H3.
    change (startswith (py "##") (replicate 2 HASH ++ strip (c :: t))) with true.
    cbn iota.
    assert (Ht : strip (replace (py "##") []
                          (replicate 2 HASH ++ strip (c :: t)))
                 = strip (c :: t)).
    { transitivity (strip (strip (c :: t))); [f_equal | exact Hidem].
      apply (replace_go_first_absent HASH (py "#") [] (strip (c :: t)) Hsh). }
    rewrite Ht. now apply add_paragraph_ok.
Qed.

Lemma add_formatted_content_heading_without_space_witness :
  add_formatted_content [] (replicate 3 HASH ++ 84%N :: py "itle ")
  = Ok ([] ++ [Paragraph StyleHeading3 (strip (84%N :: py "itle "))]) /\
  add_formatted_content [] (replicate 2 HASH ++ 84%N :: py "itle ")
  = Ok ([] ++ [Paragraph StyleHeading2 (strip (84%N :: py "itle "))]).
Proof.
  apply (add_formatted_content_heading_without_space [] 84%N (py "itle "));
    [reflexivity | | | | | | | reflexivity];
    vm_compute; intros H;
    repeat (destruct H as [H | H]; [discriminate H |]); exact H.
Defined.

(** ** Emphasis spans *)

Lemma emphasis_patterns :
  re_bold_italic = delimited STAR 3 /\ re_bold = delimited STAR 2 /\
  re_italic = delimited STAR 1 /\ re_bold_us = delimited USCORE 2 /\
  re_italic_us = delimited USCORE 1.
Proof. repeat split; reflexivity. Qed.

Lemma after_nil (st : mstate) : after [] st (rest st) = st.
Proof. destruct st. reflexivity. Qed.

Lemma rmatch_state_ext (r : regex) (st : mstate) :
  rmatch r st = rmatch r (MState (before st) (consumed st) (group1 st) (rest st)).
Proof. destruct st. reflexivity. Qed.

(** Leading literal markers read the markers of the input. *)
Lemma lits_match (x : N) (L : list regex) (last : regex) (k : nat) :
  forall (st : mstate) (r0 : list N),
    rest st = replicate k x ++ r0 ->
    rmatch (seqs (replicate k (lit x) ++ L) last) st
    = rmatch (seqs L last) (after (replicate k x) st r0).
Proof.
  induction k as [| k IH]; intros st r0 Hrest.
  - cbn [replicate app] in *. rewrite <- Hrest. now rewrite after_nil.
  - cbn [replicate app seqs] in *. rewrite rmatch_seq, rmatch_lit.
    unfold step_chr. rewrite Hrest. unfold chr_eqb. rewrite N.eqb_refl.
    cbn [map concat]. rewrite app_nil_r.
    rewrite (IH _ r0) by reflexivity. f_equal.
    unfold after, last_before. cbn [before consumed group1 fold_left rev].
    now rewrite <- app_assoc.
Qed.

Lemma lits_fail (x : N) (L : list regex) (last : regex) (j : nat) :
  forall (k : nat) (st : mstate) (y : list N),
    j < k ->
    rest st = replicate j x ++ y ->
    match y with c :: _ => c <> x | [] => True end ->
    rmatch (seqs (replicate k (lit x) ++ L) last) st = [].
Proof.
  induction j as [| j IH]; intros k st y Hjk Hrest Hy;
    (destruct k as [| k]; [lia |]); cbn [replicate app seqs] in *;
    rewrite rmatch_seq, rmatch_lit; unfold step_chr; rewrite Hrest.
  - destruct y as [| c tl]; [reflexivity |]. unfold chr_eqb.
    destruct (N.eqb_spec x c) as [E | _]; [congruence | reflexivity].
  - unfold chr_eqb. rewrite N.eqb_refl. cbn [map concat]. rewrite app_nil_r.
    apply (IH k _ y); [lia | reflexivity | exact Hy].
Qed.

Lemma closing_match (x : N) (k : nat) (st : mstate) (r0 : list N) :
  rest st = replicate (S k) x ++ r0 ->
  rmatch (seqs (replicate k (lit x)) (lit x)) st
  = [after (replicate (S k) x) st r0].
Proof.
  intros Hrest.
  replace (replicate k (lit x)) with (replicate k (lit x) ++ [])
    by apply app_nil_r.
  assert (Hr : rest st = replicate k x ++ x :: r0).
  { rewrite Hrest. clear. induction k as [| k IH]; [reflexivity |].
    cbn [replicate app] in *. now rewrite IH. }
  rewrite (lits_match x [] (lit x) k st (x :: r0) Hr).
  cbn [seqs]. rewrite rmatch_lit. unfold step_chr, after.
  cbn [rest consumed group1 before]. unfold chr_eqb. rewrite N.eqb_refl.
  do 2 f_equal.
  - unfold last_before. clear.
    generalize (before st) as b.
    induction k as [| k IH]; intros b; [reflexivity |].
    exact (IH (Some x)).
  - replace (replicate (S k) x) with (replicate k x ++ [x]).
    + rewrite rev_app_distr. reflexivity.
    + clear. induction k as [| k IH]; [reflexivity |].
      cbn [replicate app] in *. now rewrite IH.
Qed.

Lemma closing_fail (x : N) (k : nat) (st : mstate) :
  match rest st with c :: _ => c <> x | [] => True end ->
  rmatch (seqs (replicate k (lit x)) (lit x)) st = [].
Proof.
  intros H.
  assert (Hlit : rmatch (lit x) st = []).
  { rewrite rmatch_lit. unfold step_chr. destruct (rest st) as [| c tl]; [reflexivity |].
    unfold chr_eqb. destruct (N.eqb_spec x c) as [E | _]; [congruence | reflexivity]. }
  destruct k as [| k]; cbn [replicate seqs]; [exact Hlit |].
  rewrite rmatch_seq, Hlit. reflexivity.
Qed.

Lemma rep_class_lazy (p : N -> bool) (s : list N) :
  forall (fuel : nat) (b : option N) (cons g : list N),
    length s < fuel ->
    rep fuel false 0 None (rmatch (Chr p)) (MState b cons g s)
    = lazy_states p b cons g s.
Proof.
  induction s as [| c tl IH]; intros fuel b cons g Hfuel;
    (destruct fuel as [| f]; [cbn in Hfuel; lia |]).
  - reflexivity.
  - cbn [rep hi_is_zero lazy_states]. change (dec_hi None) with (@None nat).
    rewrite rmatch_chr. unfold step_chr. cbn [rest consumed group1].
    destruct (p c); [| reflexivity].
    cbn [List.filter]. unfold progress. cbn [rest length].
    rewrite (proj2 (Nat.ltb_lt _ _)) by lia.
    cbn [map concat]. rewrite app_nil_r.
    rewrite IH by (cbn in Hfuel; lia). reflexivity.
Qed.

Lemma rmatch_plus_lazy_class (p : N -> bool) (b : option N) (cons g s : list N) :
  rmatch (plus_lazy (Chr p)) (MState b cons g s)
  = match s with
    | c :: tl => if p c then lazy_states p (Some c) (c :: cons) g tl else []
    | [] => []
    end.
Proof.
  unfold plus_lazy. cbn [rmatch rep rest]. change (dec_hi None) with (@None nat).
  unfold step_chr. cbn [rest consumed group1].
  destruct s as [| c tl]; [reflexivity |].
  destruct (p c); [| reflexivity].
  cbn [map concat]. rewrite app_nil_r. apply rep_class_lazy. cbn [length]. lia.
Qed.

Lemma close_group_read (st0 : mstate) (b : option N) (d g r : list N) :
  close_group st0 (MState b (rev d ++ consumed st0) g r)
  = MState b (rev d ++ consumed st0) d r.
Proof.
  unfold close_group. cbn [before consumed rest]. f_equal.
  rewrite length_app, length_rev.
  replace (length d + length (consumed st0) - length (consumed st0))
    with (length (rev d)) by (rewrite length_rev; lia).
  now rewrite take_app_length, rev_involutive.
Qed.

(** The lazy group grows until the closing markers follow. *)
Lemma span_group (x : N) (k : nat) (st0 : mstate) (g post : list N) (u : list N) :
  forall (d : list N) (b : option N),
    Forall (fun c => c <> x /\ c <> NL) u ->
    exists l,
      concat (map (rmatch (seqs (replicate k (lit x)) (lit x)))
                  (map (close_group st0)
                       (lazy_states (fun c => negb (chr_eqb c NL)) b
                          (rev d ++ consumed st0) g
                          (u ++ replicate (S k) x ++ post))))
      = after (replicate (S k) x)
              (MState (last_before b u) (rev (d ++ u) ++ consumed st0) (d ++ u)
                      (replicate (S k) x ++ post))
              post :: l.
Proof.
  induction u as [| c u IH]; intros d b Hu.
  - cbn [app lazy_states replicate map concat].
    rewrite close_group_read.
    rewrite (closing_match x k _ post) by reflexivity.
    rewrite app_nil_r. cbn [app]. eexists. reflexivity.
  - apply List.Forall_cons_iff in Hu as [[Hcx Hcn] Hu].
    cbn [app lazy_states map concat].
    rewrite close_group_read.
    rewrite closing_fail by (cbn [rest]; exact Hcx).
    cbn [app].
    assert (Hdot : negb (chr_eqb c NL) = true).
    { unfold chr_eqb. destruct (N.eqb_spec c NL) as [E | _]; [congruence | reflexivity]. }
    rewrite Hdot.
    destruct (IH (d ++ [c]) (Some c) Hu) as (l & Hl).
    rewrite rev_app_distr in Hl. cbn [rev app] in Hl. rewrite Hl.
    rewrite <- !app_assoc. cbn [app]. eexists. reflexivity.
Qed.

Lemma delimited_match (x : N) (k : nat) (b : option N) (c0 : N) (t post : list N) :
  Forall (fun c => c <> x /\ c <> NL) (c0 :: t) ->
  exists st l,
    rmatch (delimited x (S k))
           (init b (replicate (S k) x ++ (c0 :: t) ++ replicate (S k) x ++ post))
    = st :: l /\
    group1 st = c0 :: t /\ rest st = post /\ consumed st <> [].
Proof.
  intros Ht. apply List.Forall_cons_iff in Ht as [[Hcx Hcn] Ht].
  unfold delimited. replace (S k - 1) with k by lia.
  rewrite (lits_match x _ (lit x) (S k)
             (init b (replicate (S k) x ++ (c0 :: t) ++ replicate (S k) x ++ post))
             ((c0 :: t) ++ replicate (S k) x ++ post) eq_refl).
  cbn [app seqs]. rewrite rmatch_seq.
  set (st1 := after (replicate (S k) x) _ _).
  change (rmatch (Group (plus_lazy dot)) st1)
    with (map (close_group st1) (rmatch (plus_lazy dot) st1)).
  assert (Hst1 : rmatch (plus_lazy dot) st1
                 = lazy_states (fun c => negb (chr_eqb c NL)) (Some c0)
                     (rev [c0] ++ consumed st1) (group1 st1)
                     (t ++ replicate (S k) x ++ post)).
  { rewrite (rmatch_state_ext _ st1). unfold dot.
    rewrite rmatch_plus_lazy_class.
    change (rest st1) with (c0 :: t ++ replicate (S k) x ++ post). cbn iota.
    unfold chr_eqb. destruct (N.eqb_spec c0 NL) as [E | _]; [congruence |].
    reflexivity. }
  rewrite Hst1.
  destruct (span_group x k st1 (group1 st1) post t [c0] (Some c0) Ht) as (l & Hl).
  rewrite Hl. eexists. eexists. split; [reflexivity |].
  unfold after. cbn [group1 rest consumed app]. repeat split.
  intros H. apply (f_equal (@length N)) in H.
  rewrite !length_app, length_rev, length_replicate in H. cbn in H. lia.
Qed.

Lemma needs_delimited (x : N) (k : nat) : needs x (delimited x (S k)).
Proof. unfold delimited. cbn [replicate app seqs]. auto with needs. Qed.

Lemma search_here (r : regex) (b : option N) (s : list N) (st : mstate)
    (l : list mstate) :
  rmatch r (init b s) = st :: l -> search r b s = Some ([], st).
Proof. intros H. destruct s; cbn [search]; now rewrite H. Qed.

Lemma search_skip (x : N) (r : regex) (pre : list N) :
  needs x r -> ~ In x pre ->
  forall (b : option N) (s : list N),
    search r b (pre ++ s)
    = match search r (last_before b pre) s with
      | Some (p, st) => Some (pre ++ p, st)
      | None => None
      end.
Proof.
  intros Hr. induction pre as [| c pre IH]; intros Hpre b s.
  - cbn [app last_before fold_left]. now destruct (search r b s) as [[p st] |].
  - cbn [app search]. rewrite (Hr (init b (c :: pre ++ s))).
    + rewrite IH by (intros H; apply Hpre; now right).
      unfold last_before. cbn [fold_left].
      now destruct (search r _ s) as [[p st] |].
    + cbn. unfold chr_eqb. apply N.eqb_neq. intros ->. apply Hpre. now left.
Qed.

Lemma search_run_fail (x : N) (k : nat) (j : nat) :
  j < k ->
  forall (y : list N),
    match y with c :: _ => c <> x | [] => True end ->
    forall b,
      (forall b', search (delimited x k) b' y = None) ->
      search (delimited x k) b (replicate j x ++ y) = None.
Proof.
  intros Hjk y Hy. induction j as [| j IH]; intros b Hnone; [apply Hnone |].
  cbn [replicate app search]. unfold delimited at 1.
  rewrite (lits_fail x _ (lit x) (S j) k (init b (x :: replicate j x ++ y)) y Hjk
             eq_refl Hy).
  fold (delimited x k). rewrite IH by (lia || exact Hnone). reflexivity.
Qed.

Lemma sub_go_without_first (x : N) (r : regex) (repl : mstate -> list N)
    (fuel : nat) (cnt : option nat) (b : option N) (s : list N) :
  needs x r -> ~ In x s -> sub_go fuel r repl cnt b s = s.
Proof.
  intros Hr Hs. destruct fuel as [| f]; [reflexivity |]. cbn [sub_go].
  destruct (count_left cnt); [| reflexivity].
  now rewrite (search_without_first x r Hr s b Hs).
Qed.

Lemma head_not_of_absent (x : N) (s : list N) :
  ~ In x s -> match s with c :: _ => c <> x | [] => True end.
Proof. destruct s as [| c tl]; [tauto |]. intros H ->. apply H. now left. Qed.

(** The pattern of a marker removes one span of that marker. *)
Lemma re_sub_span_match (x : N) (k : nat) (pre t post : list N) :
  ~ In x pre -> t <> [] -> Forall (fun c => c <> x /\ c <> NL) t -> ~ In x post ->
  re_sub (delimited x (S k)) backref1
         (pre ++ replicate (S k) x ++ t ++ replicate (S k) x ++ post)
  = pre ++ t ++ post.
Proof.
  intros Hpre Hne Ht Hpost. destruct t as [| c0 t]; [congruence |].
  unfold re_sub. cbn [sub_go count_left].
  rewrite (search_skip x _ pre (needs_delimited x k) Hpre).
  destruct (delimited_match x k (last_before None pre) c0 t post Ht)
    as (st & l & Hm & Hg & Hrest & Hcons).
  rewrite (search_here _ _ _ _ _ Hm).
  destruct (consumed st) as [| y ys]; [congruence |].
  unfold backref1. rewrite Hg, Hrest, app_nil_r.
  rewrite (sub_go_without_first x _ _ _ _ _ post (needs_delimited x k) Hpost).
  reflexivity.
Qed.

(** The pattern of a longer marker leaves a span of a shorter one alone. *)
Lemma re_sub_span_no_match (x : N) (k k' : nat) (pre t post : list N) :
  k < k' ->
  ~ In x pre -> t <> [] -> ~ In x t -> ~ In x post ->
  re_sub (delimited x k') backref1
         (pre ++ replicate k x ++ t ++ replicate k x ++ post)
  = pre ++ replicate k x ++ t ++ replicate k x ++ post.
Proof.
  intros Hk Hpre Hne Ht Hpost.
  destruct k' as [| k']; [lia |].
  pose proof (needs_delimited x k') as Hneeds.
  assert (H1 : forall b, search (delimited x (S k')) b post = None)
    by (intros b; now apply (search_without_first x)).
  assert (H2 : forall b, search (delimited x (S k')) b (replicate k x ++ post) = None).
  { intros b. apply search_run_fail; [exact Hk | | exact H1].
    now apply head_not_of_absent. }
  assert (H3 : forall b,
             search (delimited x (S k')) b (t ++ replicate k x ++ post) = None).
  { intros b. rewrite (search_skip x _ t Hneeds Ht). now rewrite H2. }
  assert (H4 : forall b,
             search (delimited x (S k')) b
                    (replicate k x ++ t ++ replicate k x ++ post) = None).
  { intros b. apply search_run_fail; [exact Hk | | exact H3].
    destruct t as [| c0 t]; [congruence |]. cbn [app].
    intros ->. apply Ht. now left. }
  unfold re_sub. cbn [sub_go count_left].
  rewrite (search_skip x _ pre Hneeds Hpre). now rewrite H4.
Qed.

Lemma span_free (y x : N) (k : nat) (pre t post : list N) :
  y <> x -> ~ In y pre -> ~ In y t -> ~ In y post ->
  ~ In y (pre ++ replicate k x ++ t ++ replicate k x ++ post).
Proof.
  intros Hyx Hpre Ht Hpost H.
  assert (Hrep : ~ In y (replicate k x)).
  { intros Hin. apply list_elem_of_In, elem_of_replicate in Hin as [-> _].
    congruence. }
  apply in_app_or in H as [H | H]; [now apply Hpre |].
  apply in_app_or in H as [H | H]; [now apply Hrep |].
  apply in_app_or in H as [H | H]; [now apply Ht |].
  apply in_app_or in H as [H | H]; [now apply Hrep | now apply Hpost].
Qed.

Lemma not_in_app3 (y : N) (pre t post : list N) :
  ~ In y pre -> ~ In y t -> ~ In y post -> ~ In y (pre ++ t ++ post).
Proof.
  intros Hpre Ht Hpost H.
  apply in_app_or in H as [H | H]; [now apply Hpre |].
  apply in_app_or in H as [H | H]; [now apply Ht | now apply Hpost].
Qed.

Lemma span_body (x : N) (t : list N) :
  ~ In x t -> ~ In NL t -> Forall (fun c => c <> x /\ c <> NL) t.
Proof.
  intros Hx Hn. apply List.Forall_forall. intros c Hc.
  split; intros ->; [now apply Hx | now apply Hn].
Qed.

(** X23: one emphasis span in plain text loses its markers and keeps its
    text: for each of the five markers (three, two or one asterisk, two or
    one underscore), text before the span, the span's text and the text
    after it all stay, in that order, and the result is trimmed. *)
Theorem clean_markdown_text_single_span
    (x : N) (k : nat) (pre t post : list N) :
  In (x, k) EMPHASIS ->
  plain_text pre -> plain_text t -> plain_text post ->
  t <> [] -> ~ In NL t ->
  clean_markdown_text (pre ++ replicate k x ++ t ++ replicate k x ++ post)
  = strip (pre ++ t ++ post).
Proof.
  intros Hin (Hps & Hpu & Hph) (Hts & Htu & Hth) (Hos & Hou & Hoh) Hne Hnl.
  pose proof (not_in_app3 STAR pre t post Hps Hts Hos) as Hrs.
  pose proof (not_in_app3 USCORE pre t post Hpu Htu Hou) as Hru.
  pose proof (not_in_app3 HASH pre t post Hph Hth Hoh) as Hrh.
  assert (Htail_us :
            strip (re_sub re_stars (literal [])
                     (re_sub re_header (literal [])
                        (re_sub re_italic_us backref1
                           (re_sub re_bold_us backref1 (pre ++ t ++ post)))))
            = strip (pre ++ t ++ post)).
  { rewrite (re_sub_without_first USCORE re_bold_us _ _ needs_bold_us Hru).
    rewrite (re_sub_without_first USCORE re_italic_us _ _ needs_italic_us Hru).
    rewrite (re_sub_without_first HASH re_header _ _ needs_header Hrh).
    now rewrite (re_sub_without_first STAR re_stars _ _ needs_stars Hrs). }
  assert (Htail_hdr :
            strip (re_sub re_stars (literal [])
                     (re_sub re_header (literal []) (pre ++ t ++ post)))
            = strip (pre ++ t ++ post)).
  { rewrite (re_sub_without_first HASH re_header _ _ needs_header Hrh).
    now rewrite (re_sub_without_first STAR re_stars _ _ needs_stars Hrs). }
  unfold clean_markdown_text. cbn [EMPHASIS In] in Hin.
  destruct Hin as [E | [E | [E | [E | [E | []]]]]]; injection E as <- <-.
  - (* three asterisks *)
    change re_bold_italic with (delimited STAR 3).
    rewrite (re_sub_span_match STAR 2 pre t post Hps Hne (span_body _ _ Hts Hnl) Hos).
    rewrite (re_sub_without_first STAR re_bold _ _ needs_bold Hrs).
    rewrite (re_sub_without_first STAR re_italic _ _ needs_italic Hrs).
    exact Htail_us.
  - (* two asterisks *)
    change re_bold_italic with (delimited STAR 3).
    rewrite (re_sub_span_no_match STAR 2 3 pre t post) by (lia || assumption).
    change re_bold with (delimited STAR 2).
    rewrite (re_sub_span_match STAR 1 pre t post Hps Hne (span_body _ _ Hts Hnl) Hos).
    rewrite (re_sub_without_first STAR re_italic _ _ needs_italic Hrs).
    exact Htail_us.
  - (* one asterisk *)
    change re_bold_italic with (delimited STAR 3).
    rewrite (re_sub_span_no_match STAR 1 3 pre t post) by (lia || assumption).
    change re_bold with (delimited STAR 2).
    rewrite (re_sub_span_no_match STAR 1 2 pre t post) by (lia || assumption).
    change re_italic with (delimited STAR 1).
    rewrite (re_sub_span_match STAR 0 pre t post Hps Hne (span_body _ _ Hts Hnl) Hos).
    exact Htail_us.
  - (* two underscores *)
    pose proof (span_free STAR USCORE 2 pre t post ltac:(discriminate) Hps Hts Hos)
      as Hss.
    rewrite (re_sub_without_first STAR re_bold_italic _ _ needs_bold_italic Hss).
    rewrite (re_sub_without_first STAR re_bold _ _ needs_bold Hss).
    rewrite (re_sub_without_first STAR re_italic _ _ needs_italic Hss).
    change re_bold_us with (delimited USCORE 2).
    rewrite (re_sub_span_match USCORE 1 pre t post Hpu Hne (span_body _ _ Htu Hnl) Hou).
    rewrite (re_sub_without_first USCORE re_italic_us _ _ needs_italic_us Hru).
    exact Htail_hdr.
  - (* one underscore *)
    pose proof (span_free STAR USCORE 1 pre t post ltac:(discriminate) Hps Hts Hos)
      as Hss.
    rewrite (re_sub_without_first STAR re_bold_italic _ _ needs_bold_italic Hss).
    rewrite (re_sub_without_first STAR re_bold _ _ needs_bold Hss).
    rewrite (re_sub_without_first STAR re_italic _ _ needs_italic Hss).
    change re_bold_us with (delimited USCORE 2).
    rewrite (re_sub_span_no_match USCORE 1 2 pre t post) by (lia || assumption).
    change re_italic_us with (delimited USCORE 1).
    rewrite (re_sub_span_match USCORE 0 pre t post Hpu Hne (span_body _ _ Htu Hnl) Hou).
    exact Htail_hdr.
Qed.

Lemma clean_markdown_text_single_span_witness :
  clean_markdown_text
    (py "Total: " ++ replicate 2 STAR ++ py "42 days" ++ replicate 2 STAR ++ py " left ")
  = strip (py "Total: " ++ py "42 days" ++ py " left ").
Proof.
  apply (clean_markdown_text_single_span STAR 2 (py "Total: ") (py "42 days")
           (py " left "));
    [right; left; reflexivity | | | | discriminate |];
    try (repeat split);
    vm_compute; intros H;
    repeat (destruct H as [H | H]; [discriminate H |]); exact H.
Defined.

(** ** Prompts and file names *)

Lemma prompts_dom : dom prompts = list_to_set (map key SECTIONS).
Proof. vm_compute. reflexivity. Qed.

(** X24: the prompt table has an entry for exactly the ten section keys:
    every section gets its own prompt, two sections never share one, and
    any other key gets the generic prompt. *)
Theorem get_section_prompt_covers_sections :
  (forall s, In s SECTIONS ->
     get_section_prompt (key s)
     <> py "Generate comprehensive content for this section.") /\
  (forall s1 s2, In s1 SECTIONS -> In s2 SECTIONS ->
     get_section_prompt (key s1) = get_section_prompt (key s2) -> s1 = s2) /\
  (forall k : string, ~ In k (map key SECTIONS) ->
     get_section_prompt k
     = py "Generate comprehensive content for this section.").
Proof.
  split; [| split].
  - intros s Hs Heq. apply text_eqb_eq in Heq. cbn [SECTIONS In] in Hs.
    repeat (destruct Hs as [<- | Hs]; [vm_compute in Heq; discriminate Heq |]).
    destruct Hs.
  - intros s1 s2 H1 H2 Heq. apply text_eqb_eq in Heq.
    cbn [SECTIONS In] in H1, H2.
    repeat (destruct H1 as [<- | H1]); try contradiction;
      repeat (destruct H2 as [<- | H2]); try contradiction;
      first [reflexivity | vm_compute in Heq; discriminate Heq].
  - intros k Hk. unfold get_section_prompt.
    assert (Hnone : prompts !! k = None).
    { apply not_elem_of_dom. rewrite prompts_dom, elem_of_list_to_set.
      now rewrite list_elem_of_In. }
    now rewrite Hnone.
Qed.

(** X25: the export file name contains no space when the time stamp
    contains none, whatever the client name. *)
Theorem docx_filename_has_no_space
    (rfx_data : gmap string (list N)) (stamp : list N) :
  ~ In SPACE stamp -> ~ In SPACE (docx_filename rfx_data stamp).
Proof.
  intros Hstamp H. unfold docx_filename in H. rewrite replace_space_map in H.
  apply in_app_or in H as [H | H].
  { vm_compute in H. repeat (destruct H as [H | H]; [discriminate H |]). exact H. }
  apply in_app_or in H as [H | H].
  { apply in_map_iff in H as (y & Hy & _). unfold space_to_underscore, chr_eqb in Hy.
    destruct (N.eqb_spec SPACE y) as [E | Hne]; [discriminate Hy | congruence]. }
  apply in_app_or in H as [H | H].
  { vm_compute in H. repeat (destruct H as [H | H]; [discriminate H |]). exact H. }
  apply in_app_or in H as [H | H]; [now apply Hstamp |].
  vm_compute in H. repeat (destruct H as [H | H]; [discriminate H |]). exact H.
Qed.

Lemma docx_filename_has_no_space_witness :
  ~ In SPACE (docx_filename {[ "client_name"%string := py "Acme Corp Ltd" ]}
                (py "20240101_120000")).
Proof.
  apply (docx_filename_has_no_space {[ "client_name"%string := py "Acme Corp Ltd" ]}
           (py "20240101_120000")).
  vm_compute. intros H.
  repeat (destruct H as [H | H]; [discriminate H |]). exact H.
Defined.
